(** * Agent-launch toolkit: the example agents' shared building blocks

    A shallow embedding of the TTL cache, the rate and quota gates, the
    alert sweep, the token scoring engine and the welcome-gift path of the
    example agents, with the properties their specification states, and of
    the code around them: the health counters, the stored rate windows,
    the alert store, the gifter's rewards, the price watches, the fetchers
    behind the cache and the rankings, with properties read off the code.

    Conventions of the embedding.
    - The clock.  [time.time()] returns seconds as a float; the model reads
      the clock in integer ticks, [TICKS_PER_SECOND] ticks to a second, and
      every function that reads the clock takes the reading as an argument,
      one argument per read.
    - A Python [dict] whose iteration order is observed is an association
      list in insertion order with pairwise distinct keys ([PyDict]); a
      dict used only by key is a [gmap].
    - [ctx.storage] is a reliable key-value store: a write is visible to the
      next read.  The JSON text it holds is represented by the value it
      decodes to. *)

From Stdlib Require Import ZArith QArith List String Ascii Lia Permutation.
From Stdlib Require Import Sorting.Sorted DecimalString Qround Qabs Lqa.
From stdpp Require Import base gmap list strings.

Local Open Scope string_scope.
Local Open Scope list_scope.
Local Open Scope Z_scope.

(** ** The clock *)

Definition TICKS_PER_SECOND : Z := 1000000.

(** [seconds n] is a span of [n] seconds in clock ticks. *)
Definition seconds (n : Z) : Z := n * TICKS_PER_SECOND.

(** ** Insertion-ordered dictionaries *)

Module PyDict.

Section dict.
Context {V : Type}.

Definition dict : Type := list (string * V).

(** [len(d)] *)
Definition len (d : dict) : Z := Z.of_nat (length d).

(** [d.keys()] in iteration order *)
Definition keys (d : dict) : list string := map fst d.

(** Keys of a dictionary are pairwise distinct. *)
Definition wf (d : dict) : Prop := List.NoDup (keys d).

(** [d[k]] when [k in d] *)
Fixpoint getitem (d : dict) (k : string) : option V :=
  match d with
  | [] => None
  | (k', v) :: d' => if String.eqb k' k then Some v else getitem d' k
  end.

(** [d[k] = v]: an existing key keeps its place, a new one goes last. *)
Fixpoint setitem (d : dict) (k : string) (v : V) : dict :=
  match d with
  | [] => [(k, v)]
  | (k', v') :: d' =>
      if String.eqb k' k then (k', v) :: d' else (k', v') :: setitem d' k v
  end.

(** [del d[k]] *)
Fixpoint delitem (d : dict) (k : string) : dict :=
  match d with
  | [] => []
  | (k', v') :: d' =>
      if String.eqb k' k then d' else (k', v') :: delitem d' k
  end.

(** [for k in ks: del d[k]] *)
Definition delitems (d : dict) (ks : list string) : dict :=
  fold_left delitem ks d.

End dict.

Arguments dict V : clear implicits.

End PyDict.

(** [xs[:n]] for a Python list: a negative [n] counts from the end. *)
Definition slice_to {A : Type} (n : Z) (xs : list A) : list A :=
  if 0 <=? n then firstn (Z.to_nat n) xs
  else firstn (Z.to_nat (Z.of_nat (length xs) + n)) xs.

(** ** data-agent.py, class Cache *)

Module Cache.

Import PyDict.

Section cache.
Context {V : Type}.

(** A stored entry: [(value, expires)]. *)
Definition entry : Type := (V * Z)%type.

Record t : Type := mk {
  _data : dict entry;
  _max_size : Z;
}.

(** [Cache(max_size)] *)
Definition init (max_size : Z) : t := {| _data := []; _max_size := max_size |}.

Definition expires_of (kv : string * entry) : Z := snd (snd kv).

(** The order [sorted] puts entries in. *)
Definition le_expiry (x y : string * entry) : Prop :=
  expires_of x <= expires_of y.

(** [Cache.get]; [now] is the reading of [time.time()].  The result is the
    returned value ([None] for Python's [None]) and the cache afterwards. *)
Definition get (c : t) (key : string) (now : Z) : option V * t :=
  match getitem (_data c) key with
  | Some (value, expires) =>
      if now <? expires then (Some value, c)
      else (None, {| _data := delitem (_data c) key; _max_size := _max_size c |})
  | None => (None, c)
  end.

(** [[k for k, (_, exp) in self._data.items() if exp <= now]] *)
Definition expired (d : dict entry) (now : Z) : list string :=
  keys (List.filter (fun kv => expires_of kv <=? now) d).

(** [sorted(items, key=lambda x: x[1][1])]: a stable sort by expiry. *)
Fixpoint insert_sorted (x : string * entry) (l : list (string * entry))
  : list (string * entry) :=
  match l with
  | [] => [x]
  | y :: l' =>
      if expires_of x <=? expires_of y then x :: y :: l'
      else y :: insert_sorted x l'
  end.

Definition sorted (d : dict entry) : list (string * entry) :=
  fold_right insert_sorted [] d.

(** The entries the size-pressure branch of [set] selects:
    [sorted(...)[: self._max_size // 10]]. *)
Definition to_drop (max_size : Z) (d : dict entry) : list (string * entry) :=
  slice_to (max_size / 10) (sorted d).

(** The [if len(self._data) >= self._max_size:] block of [Cache.set]. *)
Definition make_room (max_size : Z) (d : dict entry) (now : Z) : dict entry :=
  if max_size <=? len d then
    let d1 := delitems d (expired d now) in
    if max_size <=? len d1 then delitems d1 (keys (to_drop max_size d1))
    else d1
  else d.

(** [Cache.set]; [now] is the clock read inside the capacity block and
    [now'] the one of the final assignment. *)
Definition set (c : t) (key : string) (value : V) (ttl : Z) (now now' : Z) : t :=
  {| _data := setitem (make_room (_max_size c) (_data c) now) key
                (value, now' + seconds ttl);
     _max_size := _max_size c |}.

(** The keys the size-pressure branch of a [set] removes (its [to_drop]),
    none when the branch is not taken. *)
Definition pressure_drop (max_size : Z) (d : dict entry) (now : Z) : list string :=
  if max_size <=? len d then
    let d1 := delitems d (expired d now) in
    if max_size <=? len d1 then keys (to_drop max_size d1) else []
  else [].

(** Sequences of operations on one cache. *)
Inductive op : Type :=
| Set_ (key : string) (value : V) (ttl : Z) (now now' : Z)
| Get (key : string) (now : Z).

Definition step (c : t) (o : op) : t :=
  match o with
  | Set_ key value ttl now now' => set c key value ttl now now'
  | Get key now => snd (get c key now)
  end.

Definition run (c : t) (ops : list op) : t := fold_left step ops c.

(** The keys that were the argument of a [set]. *)
Definition set_keys (ops : list op) : list string :=
  flat_map (fun o => match o with Set_ key _ _ _ _ => [key] | Get _ _ => [] end) ops.

(** The clock readings an operation makes. *)
Definition clock_reads (o : op) : list Z :=
  match o with
  | Set_ _ _ _ now now' => [now; now']
  | Get _ now => [now]
  end.

(** The keys removed under size pressure in the course of [run c ops]. *)
Fixpoint dropped (c : t) (ops : list op) : list string :=
  match ops with
  | [] => []
  | o :: ops' =>
      match o with
      | Set_ _ _ _ now _ => pressure_drop (_max_size c) (_data c) now
      | Get _ _ => []
      end ++ dropped (step c o) ops'
  end.

End cache.

Arguments t V : clear implicits.
Arguments op V : clear implicits.

End Cache.

(** ** Strings *)

(** [str(n)] for an integer. *)
Definition str_of_Z (n : Z) : string := NilZero.string_of_int (Z.to_int n).

(** [len(s)] for a string. *)
Definition str_len (s : string) : Z := Z.of_nat (String.length s).

(** The characters [str.strip()] removes, among the code points below 256:
    tab to carriage return, the four separators 28 to 31, the space, next
    line (133) and the no-break space (160). *)
Definition is_space (c : ascii) : bool :=
  let n := nat_of_ascii c in
  ((9 <=? n) && (n <=? 13) || (28 <=? n) && (n <=? 32)
   || (n =? 133) || (n =? 160))%nat.

Fixpoint lstrip (s : string) : string :=
  match s with
  | EmptyString => EmptyString
  | String c s' => if is_space c then lstrip s' else s
  end.

Fixpoint rstrip (s : string) : string :=
  match s with
  | EmptyString => EmptyString
  | String c s' =>
      match rstrip s' with
      | EmptyString => if is_space c then EmptyString else String c EmptyString
      | r => String c r
      end
  end.

(** [s.strip()] *)
Definition strip (s : string) : string := rstrip (lstrip s).

(** ** The sliding window of the rate gates *)

(** [[t for t in ts if now - t < 60]] *)
Definition window (now : Z) (ts : list Z) : list Z :=
  List.filter (fun t => now - t <? seconds 60) ts.

Definition RATE_LIMITED : string := "Rate limit exceeded. Please wait a moment.".

(** [d[k]] for a [defaultdict(list)]. *)
Definition stamps_of (d : gmap string (list Z)) (k : string) : list Z :=
  default [] (d !! k).

(** *** Traces of a rate gate

    The two gates below differ in their state and in what else a check
    does; what they share is a per-sender list of timestamps and a step
    that admits or rejects a request. *)

Module RateGate.

Section gate.
Context {State Req : Type}.
Variables (stamps : State -> string -> list Z)
          (who : Req -> string) (when : Req -> Z)
          (step : State -> Req -> State * bool).

(** A sequence of requests; the result lists which ones were admitted. *)
Fixpoint run (s : State) (reqs : list Req) : State * list bool :=
  match reqs with
  | [] => (s, [])
  | r :: reqs' =>
      let '(s1, ok) := step s r in
      let '(s2, oks) := run s1 reqs' in
      (s2, ok :: oks)
  end.

(** How many requests of [u] a trace holds, and how many it admitted. *)
Definition issued (u : string) (reqs : list Req) : nat :=
  length (List.filter (fun r => String.eqb (who r) u) reqs).

Definition admitted (u : string) (reqs : list Req) (oks : list bool) : nat :=
  length (List.filter (fun ro => String.eqb (who ro.1) u && ro.2)
            (combine reqs oks)).

(** How many readings of a list are at or after [t1]. *)
Definition since (t1 : Z) (l : list Z) : nat :=
  length (List.filter (fun x => t1 <=? x) l).

(** What a step does to the sender's list: prune, then reject at the limit
    without recording, or record the reading and admit. *)
Definition prunes_then_gates (limit : Z) : Prop :=
  forall s r,
    let pruned := window (when r) (stamps s (who r)) in
    if limit <=? Z.of_nat (length pruned) then
      (step s r).2 = false /\ stamps (step s r).1 (who r) = pruned
    else
      (step s r).2 = true /\ stamps (step s r).1 (who r) = pruned ++ [when r].

(** What a step does to the others' lists: nothing, or it discards a list
    whose readings are all more than 300 seconds old. *)
Definition spares_others : Prop :=
  forall s r u,
    u <> who r ->
    stamps (step s r).1 u = stamps s u \/
    (stamps (step s r).1 u = [] /\
     Forall (fun x => seconds 300 < when r - x) (stamps s u)).

(** The burst: a sender with no reading in the last 60 seconds issues
    [limit] requests, among any requests of others; all of the sender's are
    admitted, and one more within 60 seconds of the first is rejected. *)
Definition caps_bursts (limit : Z) : Prop :=
  forall s reqs r t1,
    Forall (fun x => seconds 60 <= t1 - x) (stamps s (who r)) ->
    Forall (fun q => t1 <= when q <= when r) reqs ->
    Z.of_nat (issued (who r) reqs) = limit ->
    Forall2 (fun q ok => who q = who r -> ok = true) reqs (run s reqs).2 /\
    (when r - t1 < seconds 60 -> (step (run s reqs).1 r).2 = false).

(** Rolling forward: once every recorded reading of the sender is 60
    seconds old, the next request is admitted and recorded. *)
Definition rolls_forward (limit : Z) : Prop :=
  forall s r,
    0 < limit ->
    Forall (fun x => seconds 60 <= when r - x) (stamps s (who r)) ->
    (step s r).2 = true /\ stamps (step s r).1 (who r) = [when r].

End gate.

End RateGate.

(** ** data-agent.py, class Security *)

Module Security.

(** The entries of [BUSINESS] that [Security.check] reads. *)
Record Business : Type := {
  rate_limit_per_minute : Z;
  max_input_length : Z;
}.

Definition BUSINESS : Business :=
  {| rate_limit_per_minute := 20; max_input_length := 2000 |}.

Record t : Type := mk {
  _requests : gmap string (list Z);
  _check_count : Z;
}.

(** [Security()] *)
Definition init : t := {| _requests := ∅; _check_count := 0 |}.

(** [max(v)] for a list with head [t]. *)
Definition py_max (t : Z) (v : list Z) : Z := fold_left Z.max v t.

(** [not v or (now - max(v)) > 300] *)
Definition stale (now : Z) (v : list Z) : bool :=
  match v with
  | [] => true
  | t :: v' => seconds 300 <? now - py_max t v'
  end.

(** The sweep that every hundredth passing check runs. *)
Definition sweep (now : Z) (r : gmap string (list Z)) : gmap string (list Z) :=
  filter (fun kv => stale now kv.2 = false) r.

(** [Security.check]; the result is the state afterwards and the returned
    pair [(clean_message, error)]. *)
Definition check (cfg : Business) (s : t) (now : Z) (user_id message : string)
  : t * (option string * option string) :=
  let pruned := window now (stamps_of (_requests s) user_id) in
  let r1 := <[user_id := pruned]> (_requests s) in
  if rate_limit_per_minute cfg <=? Z.of_nat (length pruned) then
    ({| _requests := r1; _check_count := _check_count s |},
     (None, Some RATE_LIMITED))
  else
    let r2 := <[user_id := pruned ++ [now]]> r1 in
    let n := _check_count s + 1 in
    let r3 := if n mod 100 =? 0 then sweep now r2 else r2 in
    let s' := {| _requests := r3; _check_count := n |} in
    if String.eqb message "" || String.eqb (strip message) "" then
      (s', (None, Some "Empty message."))
    else if max_input_length cfg <? str_len message then
      (s', (None, Some ("Message too long (max "
                         +:+ str_of_Z (max_input_length cfg) +:+ " chars).")))
    else (s', (Some (strip message), None)).

(** A request: who sends it, when, and what. *)
Record request : Type := {
  sender : string;
  clock : Z;
  text : string;
}.

(** Whether a check passed the rate limit. *)
Definition admitted (res : option string * option string) : bool :=
  match snd res with
  | Some e => negb (String.eqb e RATE_LIMITED)
  | None => true
  end.

(** One request through [check], as a step of a rate gate. *)
Definition step (cfg : Business) (s : t) (r : request) : t * bool :=
  let '(s', res) := check cfg s (clock r) (sender r) (text r) in
  (s', admitted res).

Definition stamps (s : t) (u : string) : list Z := stamps_of (_requests s) u.

End Security.

(** ** price-monitor-agent.py, check_rate_limit *)

Module PriceMonitor.

Definition rate_limit_per_minute : Z := 20.

(** [check_rate_limit]; the module-level [rate_limits] is passed in and
    returned.  The result is the error message, if any. *)
Definition check_rate_limit (limit : Z) (rate_limits : gmap string (list Z))
    (now : Z) (user_id : string) : gmap string (list Z) * option string :=
  let pruned := window now (stamps_of rate_limits user_id) in
  let r1 := <[user_id := pruned]> rate_limits in
  if limit <=? Z.of_nat (length pruned) then (r1, Some RATE_LIMITED)
  else (<[user_id := pruned ++ [now]]> r1, None).

(** One call, as a step of a rate gate; a request is [(user_id, now)]. *)
Definition step (limit : Z) (rate_limits : gmap string (list Z))
    (r : string * Z) : gmap string (list Z) * bool :=
  let '(rl, err) := check_rate_limit limit rate_limits r.2 r.1 in
  (rl, match err with Some _ => false | None => true end).

End PriceMonitor.

(** ** tweet-agent.py, check_daily_quota *)

Module TweetAgent.

(** The entries of [BUSINESS] that the quota check reads. *)
Record Business : Type := {
  ticker : string;
  free_tweets_per_day : Z;
  premium_tweets_per_day : Z;
  premium_token_threshold : Z;
}.

Definition BUSINESS : Business :=
  {| ticker := "$TWEET";
     free_tweets_per_day := 3;
     premium_tweets_per_day := 50;
     premium_token_threshold := 1000 |}.

Definition nl : string := String (ascii_of_nat 10) EmptyString.

(** [f"daily_{sender}_{today}"] *)
Definition quota_key (sender today : string) : string :=
  "daily_" +:+ sender +:+ "_" +:+ today.

(** [_get(ctx, key, 0)] on the counters of [ctx.storage]. *)
Definition _get (ctx : gmap string Z) (key : string) (default_ : Z) : Z :=
  default default_ (ctx !! key).

(** [_set(ctx, key, value)] *)
Definition _set (ctx : gmap string Z) (key : string) (value : Z) : gmap string Z :=
  <[key := value]> ctx.

(** [check_daily_quota]; [today] is [datetime.utcnow().date().isoformat()].
    The result is the storage afterwards and [(allowed, error_msg)]. *)
Definition check_daily_quota (cfg : Business) (ctx : gmap string Z)
    (today sender tier : string) : gmap string Z * (bool * option string) :=
  let key := quota_key sender today in
  let count := _get ctx key 0 in
  let limit :=
    if String.eqb tier "premium" then premium_tweets_per_day cfg
    else free_tweets_per_day cfg in
  if limit <=? count then
    if String.eqb tier "free" then
      (ctx, (false, Some ("Free tier limit: " +:+ str_of_Z limit +:+ " tweets/day."
                          +:+ nl +:+ nl +:+ "Hold "
                          +:+ str_of_Z (premium_token_threshold cfg) +:+ " "
                          +:+ ticker cfg +:+ " for "
                          +:+ str_of_Z (premium_tweets_per_day cfg)
                          +:+ " tweets/day + threads!")))
    else
      (ctx, (false, Some ("Daily limit reached (" +:+ str_of_Z limit
                          +:+ "/day). Reset at midnight UTC.")))
  else (_set ctx key (count + 1), (true, None)).

(** The counter of a sender for a day. *)
Definition count (ctx : gmap string Z) (u day : string) : Z :=
  _get ctx (quota_key u day) 0.

(** A request to the quota check. *)
Record request : Type := {
  today : string;
  sender : string;
  tier : string;
}.

(** A sequence of quota checks, with the verdict of each. *)
Fixpoint run (cfg : Business) (ctx : gmap string Z) (reqs : list request)
  : gmap string Z * list bool :=
  match reqs with
  | [] => (ctx, [])
  | r :: reqs' =>
      let '(ctx1, (ok, _)) := check_daily_quota cfg ctx (today r) (sender r) (tier r) in
      let '(ctx2, oks) := run cfg ctx1 reqs' in
      (ctx2, ok :: oks)
  end.

(** Whether a request is one of [u] on the day [day]. *)
Definition is_for (u day : string) (r : request) : bool :=
  String.eqb (sender r) u && String.eqb (today r) day.

(** The verdicts on the requests of [u] on the day [day], in order. *)
Definition verdicts_for (u day : string) (reqs : list request) (oks : list bool)
  : list bool :=
  map snd (List.filter (fun ro => is_for u day ro.1) (combine reqs oks)).

End TweetAgent.

(** ** trading-agent.py, alerts and their periodic sweep *)

Module TradingAgent.

(** The entries of [BUSINESS] that the alert code reads. *)
Record Business : Type := {
  free_alerts : Z;
  premium_alerts : Z;
}.

Definition BUSINESS : Business := {| free_alerts := 1; premium_alerts := 100 |}.

(** A stored alert.  Prices and thresholds are Python floats, compared
    exactly; the model takes them as rationals. *)
Record Alert : Type := {
  id : Z;
  token : string;
  condition : string;
  threshold : Q;
  created : string;
  triggered : bool;
  active : bool;
}.

(** [ctx.storage] of the trading agent, by key: ["alert_owners"],
    ["alerts_{owner}"] for each [owner], and ["stats"]. *)
Record Storage : Type := {
  alert_owners : list string;
  alerts : gmap string (list Alert);
  stats : gmap string Z;
}.

(** [_get(ctx, f"alerts_{sender}", [])] *)
Definition get_alerts (ctx : Storage) (sender : string) : list Alert :=
  default [] (alerts ctx !! sender).

(** [_set(ctx, f"alerts_{sender}", alerts)] *)
Definition save_alerts (ctx : Storage) (sender : string) (l : list Alert) : Storage :=
  {| alert_owners := alert_owners ctx;
     alerts := <[sender := l]> (alerts ctx);
     stats := stats ctx |}.

Definition register_alert_owner (ctx : Storage) (sender : string) : Storage :=
  let owners := alert_owners ctx in
  if existsb (String.eqb sender) owners then ctx
  else {| alert_owners := owners ++ [sender];
          alerts := alerts ctx;
          stats := stats ctx |}.

Definition record_stat (ctx : Storage) (key : string) : Storage :=
  {| alert_owners := alert_owners ctx;
     alerts := alerts ctx;
     stats := <[key := default 0 (stats ctx !! key) + 1]> (stats ctx) |}.

(** The replies of the alert commands, by kind; the text is formatting. *)
Inductive reply : Type :=
| FreeTierLimit
| AlertLimitReached (max_alerts : Z)
| AlertCreated (alert : Alert)
| AlertRemoved (alert_id : Z)
| AlertNotFound (alert_id : Z).

(** [create_alert]; [now] is [datetime.utcnow().isoformat()]. *)
Definition create_alert (cfg : Business) (ctx : Storage)
    (sender token_name condition_ : string) (threshold_ : Q) (tier now : string)
  : Storage * (bool * reply) :=
  let l := get_alerts ctx sender in
  let max_alerts :=
    if String.eqb tier "premium" then premium_alerts cfg else free_alerts cfg in
  if max_alerts <=? Z.of_nat (length l) then
    if String.eqb tier "free" then (ctx, (false, FreeTierLimit))
    else (ctx, (false, AlertLimitReached max_alerts))
  else
    let alert :=
      {| id := Z.of_nat (length l) + 1;
         token := token_name;
         condition := condition_;
         threshold := threshold_;
         created := now;
         triggered := false;
         active := true |} in
    (register_alert_owner (save_alerts ctx sender (l ++ [alert])) sender,
     (true, AlertCreated alert)).

Definition deactivate (a : Alert) : Alert :=
  {| id := id a; token := token a; condition := condition a;
     threshold := threshold a; created := created a;
     triggered := triggered a; active := false |}.

(** The loop of [remove_alert]: the first active alert with the id. *)
Fixpoint remove_first (alert_id : Z) (l : list Alert) : option (list Alert) :=
  match l with
  | [] => None
  | a :: l' =>
      if (id a =? alert_id) && active a then Some (deactivate a :: l')
      else option_map (cons a) (remove_first alert_id l')
  end.

Definition remove_alert (ctx : Storage) (sender : string) (alert_id : Z)
  : Storage * (bool * reply) :=
  match remove_first alert_id (get_alerts ctx sender) with
  | Some l => (save_alerts ctx sender l, (true, AlertRemoved alert_id))
  | None => (ctx, (false, AlertNotFound alert_id))
  end.

(** What the sweep learns about a token when it asks the fetcher: no data
    ([get_token_data] returned nothing), a current price, or data whose
    [currentPrice] [float()] rejects, which the sweep logs and skips. *)
Inductive quote : Type :=
| NoData
| Price (current_price : Q)
| BadPrice.

(** The fetcher's answers during one sweep: [feed owner pos token] is the
    answer to the call made for the alert at position [pos] of [owner]'s
    list. *)
Definition feed : Type := string -> nat -> string -> quote.

(** The two comparisons of the sweep. *)
Definition met (a : Alert) (current_price : Q) : bool :=
  if String.eqb (condition a) "above" && Qle_bool (threshold a) current_price
  then true
  else if String.eqb (condition a) "below" && Qle_bool current_price (threshold a)
  then true
  else false.

Definition set_triggered (a : Alert) : Alert :=
  {| id := id a; token := token a; condition := condition a;
     threshold := threshold a; created := created a;
     triggered := true; active := active a |}.

(** A message handed to [ctx.send] by the sweep.  [pos] is the position of
    the alert in its owner's list; it names the entry and is not part of
    the message text. *)
Record notification : Type := {
  to : string;
  pos : nat;
  alert : Alert;
  current : Q;
}.

(** [[a for a in alerts if a["active"] and not a["triggered"]]], each with
    its position in [alerts]. *)
Definition active_alerts (l : list Alert) : list (nat * Alert) :=
  List.filter (fun ia => active ia.2 && negb (triggered ia.2))
    (combine (seq 0 (length l)) l).

(** Whether the sweep fires for an alert, and at what price. *)
Definition fires (f : feed) (owner : string) (i : nat) (a : Alert) : option Q :=
  match f owner i (token a) with
  | Price p => if met a p then Some p else None
  | NoData | BadPrice => None
  end.

(** The inner loop of [check_alerts], over the active alerts of one owner.
    [l] is the owner's list as loaded; the loop sets flags in it and saves
    it whole each time an alert fires. *)
Fixpoint check_owner (f : feed) (owner : string) (todo : list (nat * Alert))
    (ctx : Storage) (l : list Alert) : Storage * list notification :=
  match todo with
  | [] => (ctx, [])
  | (i, a) :: todo' =>
      match fires f owner i a with
      | Some p =>
          let l' := <[i := set_triggered a]> l in
          let ctx' := record_stat (save_alerts ctx owner l') "alerts_triggered" in
          let '(ctx'', out) := check_owner f owner todo' ctx' l' in
          (ctx'', {| to := owner; pos := i; alert := a; current := p |} :: out)
      | None => check_owner f owner todo' ctx l
      end
  end.

(** The owner's list as the inner loop leaves it. *)
Fixpoint flagged (f : feed) (owner : string) (todo : list (nat * Alert))
    (l : list Alert) : list Alert :=
  match todo with
  | [] => l
  | (i, a) :: todo' =>
      match fires f owner i a with
      | Some _ => flagged f owner todo' (<[i := set_triggered a]> l)
      | None => flagged f owner todo' l
      end
  end.

(** The outer loop, over the owners read at the start of the sweep. *)
Fixpoint check_owners (f : feed) (owners : list string) (ctx : Storage)
  : Storage * list notification :=
  match owners with
  | [] => (ctx, [])
  | owner :: owners' =>
      let l := get_alerts ctx owner in
      let '(ctx1, out1) := check_owner f owner (active_alerts l) ctx l in
      let '(ctx2, out2) := check_owners f owners' ctx1 in
      (ctx2, out1 ++ out2)
  end.

(** [check_alerts], one periodic sweep. *)
Definition check_alerts (f : feed) (ctx : Storage) : Storage * list notification :=
  match alert_owners ctx with
  | [] => (ctx, [])
  | owners => check_owners f owners (record_stat ctx "checks_run")
  end.

(** What happens to the storage over time. *)
Inductive op : Type :=
| Sweep (f : feed)
| Create (sender token_name condition_ : string) (threshold_ : Q) (tier now : string)
| Remove (sender : string) (alert_id : Z).

Definition step (cfg : Business) (ctx : Storage) (o : op)
  : Storage * list notification :=
  match o with
  | Sweep f => check_alerts f ctx
  | Create sender token_name condition_ threshold_ tier now =>
      ((create_alert cfg ctx sender token_name condition_ threshold_ tier now).1, [])
  | Remove sender alert_id => ((remove_alert ctx sender alert_id).1, [])
  end.

Fixpoint run (cfg : Business) (ctx : Storage) (ops : list op)
  : Storage * list notification :=
  match ops with
  | [] => (ctx, [])
  | o :: ops' =>
      let '(ctx1, out1) := step cfg ctx o in
      let '(ctx2, out2) := run cfg ctx1 ops' in
      (ctx2, out1 ++ out2)
  end.

(** The notifications about the entry at position [i] of [owner]. *)
Definition about (owner : string) (i : nat) (out : list notification)
  : list notification :=
  List.filter (fun n => String.eqb (to n) owner && Nat.eqb (pos n) i) out.

(** The stored entry at position [i] of [owner]. *)
Definition entry (ctx : Storage) (owner : string) (i : nat) : option Alert :=
  get_alerts ctx owner !! i.

End TradingAgent.

(** ** JSON values, as [json.loads] and [r.json()] return them *)

(** A finite float is the rational it denotes; comparisons between floats
    and integers are exact in Python, and so are they here. *)
#[warnings="-register-all"]
Inductive json : Type :=
| JNull
| JBool (b : bool)
| JInt (n : Z)
| JFloat (x : Q)
| JStr (s : string)
| JArr (items : list json)
| JObj (fields : list (string * json)).

(** Python's truth value of a decoded value. *)
Definition truthy (v : json) : bool :=
  match v with
  | JNull => false
  | JBool b => b
  | JInt n => negb (n =? 0)
  | JFloat x => negb (Qeq_bool x 0)
  | JStr s => negb (String.eqb s "")
  | JArr items => match items with [] => false | _ => true end
  | JObj fields => match fields with [] => false | _ => true end
  end.

(** [d.get(key, default)] for a dict [d]. *)
Definition dict_get (d : list (string * json)) (key : string) (default_ : json) : json :=
  default default_ (PyDict.getitem d key).

(** ** genesis/analyst.py, the scoring engine *)

Module Analyst.

(** The Python builtins the scoring applies to text: [int(s)], [float(s)]
    and [datetime.fromisoformat(s).replace(tzinfo=None)], the last as ticks
    on the clock's scale.  [None] stands for the exception they raise. *)
Record Builtins : Type := {
  int_of_str : string -> option Z;
  float_of_str : string -> option Q;
  fromisoformat : string -> option Z;
}.

Section scoring.
Variable B : Builtins.

(** [int(v)]; [None] when it raises. *)
Definition py_int (v : json) : option Z :=
  match v with
  | JInt n => Some n
  | JBool b => Some (if b then 1 else 0)%Z
  | JFloat x => Some (Z.quot (Qnum x) (Z.pos (Qden x)))
  | JStr s => int_of_str B s
  | JNull | JArr _ | JObj _ => None
  end.

(** [float(v)]; [None] when it raises. *)
Definition py_float (v : json) : option Q :=
  match v with
  | JInt n => Some (inject_Z n)
  | JBool b => Some (if b then 1 else 0)%Q
  | JFloat x => Some x
  | JStr s => float_of_str B s
  | JNull | JArr _ | JObj _ => None
  end.

(** [max(0, x)] and [min(100, x)] as Python evaluates them. *)
Definition max0 (x : Q) : Q := if Qle_bool x 0 then 0%Q else x.
Definition min100 (x : Q) : Q := if Qle_bool 100 x then 100%Q else x.

(** [normalize] *)
Definition normalize (value min_val max_val : Q) : Q :=
  if Qle_bool max_val min_val then 50.0%Q
  else max0 (min100 ((value - min_val) / (max_val - min_val) * 100))%Q.

(** [round(x, 1)]: to one decimal, ties to the even digit. *)
Definition round1 (x : Q) : Q :=
  let y := (x * 10)%Q in
  let lo := Qfloor y in
  let rest := (y - inject_Z lo)%Q in
  let n :=
    if Qle_bool rest 0.5 then
      if Qle_bool 0.5 rest then (if Z.even lo then lo else lo + 1)%Z else lo
    else (lo + 1)%Z in
  (inject_Z n / 10)%Q.

(** [s.replace("Z", "+00:00")] *)
Fixpoint replace_Z (s : string) : string :=
  match s with
  | EmptyString => EmptyString
  | String c s' =>
      if Ascii.eqb c "Z"%char then "+00:00" +:+ replace_Z s'
      else String c (replace_Z s')
  end.

(** Ticks in a day, and [timedelta.days] of a difference of ticks. *)
Definition DAY : Z := seconds 86400.
Definition days (delta : Z) : Z := (delta / DAY)%Z.

(** The age block of [score_token]: [created] is what the token holds
    under ["createdAt"] or ["created_at"], [now] is [datetime.now()]. *)
Definition age_days (now : Z) (created : json) : Z :=
  if truthy created then
    match created with
    | JStr s =>
        match fromisoformat B (replace_Z s) with
        | Some created_dt => days (now - created_dt)
        | None => 0%Z
        end
    | _ => 0%Z
    end
  else 0%Z.

Record Scores : Type := {
  s_holders : Q;
  s_volume : Q;
  s_liquidity : Q;
  s_price_stability : Q;
  s_age : Q;
}.

(** [WEIGHTS] *)
Definition WEIGHTS : Scores :=
  {| s_holders := 0.30; s_volume := 0.25; s_liquidity := 0.20;
     s_price_stability := 0.15; s_age := 0.10 |}.

(** [sum(scores[k] * WEIGHTS[k] for k in WEIGHTS)] *)
Definition weighted_sum (scores : Scores) : Q :=
  (0 + s_holders scores * s_holders WEIGHTS
     + s_volume scores * s_volume WEIGHTS
     + s_liquidity scores * s_liquidity WEIGHTS
     + s_price_stability scores * s_price_stability WEIGHTS
     + s_age scores * s_age WEIGHTS)%Q.

Definition letter_grade (weighted : Q) : string :=
  if Qle_bool 80 weighted then "A"
  else if Qle_bool 60 weighted then "B"
  else if Qle_bool 40 weighted then "C"
  else if Qle_bool 20 weighted then "D"
  else "F".

(** The dict [score_token] returns. *)
Record Scored : Type := {
  name : json;
  symbol : json;
  address : json;
  scores : Scores;
  total : Q;
  grade : string;
  holders : Z;
  volume : Q;
  liquidity : Q;
}.

(** [score_token]; [now] is [datetime.now()], [None] an exception raised
    by a conversion. *)
Definition score_token (now : Z) (token : list (string * json)) : option Scored :=
  holders_ ← py_int (dict_get token "holders" (dict_get token "holderCount" (JInt 0)));
  volume_ ← py_float (dict_get token "volume24h" (dict_get token "volume" (JInt 0)));
  liquidity_ ← py_float (dict_get token "liquidity"
                           (dict_get token "totalLiquidity" (JInt 0)));
  price ← py_float (dict_get token "price" (dict_get token "currentPrice" (JInt 0)));
  let created := dict_get token "createdAt" (dict_get token "created_at" (JStr "")) in
  let holder_score := normalize (inject_Z holders_) 0 200 in
  let volume_score := normalize volume_ 0 10000 in
  let liquidity_score := normalize liquidity_ 0 30000 in
  let stability_score := if Qle_bool price 0 then 0.0%Q else 50.0%Q in
  let age_score := normalize (inject_Z (age_days now created)) 0 30 in
  let scores_ :=
    {| s_holders := round1 holder_score;
       s_volume := round1 volume_score;
       s_liquidity := round1 liquidity_score;
       s_price_stability := round1 stability_score;
       s_age := round1 age_score |} in
  let weighted := weighted_sum scores_ in
  Some {| name := dict_get token "name" (JStr "Unknown");
          symbol := dict_get token "symbol" (JStr "???");
          address := dict_get token "address" (dict_get token "tokenAddress" (JStr ""));
          scores := scores_;
          total := round1 weighted;
          grade := letter_grade weighted;
          holders := holders_;
          volume := volume_;
          liquidity := liquidity_ |}.

(** The keys of the token that the scores are computed from. *)
Definition METRIC_KEYS : list string :=
  ["holders"; "holderCount"; "volume24h"; "volume"; "liquidity";
   "totalLiquidity"; "price"; "currentPrice"; "createdAt"; "created_at"].

(** The creation time [score_token] reads from a token. *)
Definition created_of (token : list (string * json)) : json :=
  dict_get token "createdAt" (dict_get token "created_at" (JStr "")).

End scoring.

(** The grade, the total and the scores of a scoring, when it returns. *)
Definition outcome (r : option Scored) : option (string * Q * Scores) :=
  (fun x => (grade x, total x, scores x)) <$> r.

End Analyst.

(** ** data-agent.py, the tier lookup and the token list *)

Module DataAgent.

(** What [requests.get] and [r.json()] can come to: the call raises
    (timeout, connection error), or returns a status and a body that
    either fails to parse or decodes to a value. *)
Inductive body : Type :=
| Malformed
| Parsed (data : json).

Inductive outcome : Type :=
| Raised
| Response (status_code : Z) (payload : body).

(** The configuration [check_token_holdings] reads: the module-level
    [TOKEN_ADDRESS] and [BUSINESS["premium_token_threshold"]]. *)
Record Config : Type := {
  TOKEN_ADDRESS : string;
  premium_token_threshold : Z;
}.

(** What [cache.get] hands to [if cached is not None]: a stored [None]
    reads as a miss. *)
Definition not_none (cached : option json) : option json :=
  match cached with
  | Some JNull => None
  | _ => cached
  end.

(** [balance >= threshold]; [None] when the comparison raises. *)
Definition py_ge (balance : json) (threshold : Z) : option bool :=
  match balance with
  | JInt n => Some (threshold <=? n)
  | JFloat x => Some (Qle_bool (inject_Z threshold) x)
  | JBool b => Some (threshold <=? (if b then 1 else 0))
  | JNull | JStr _ | JArr _ | JObj _ => None
  end.

(** The [try] block of [check_token_holdings]: the tier it returns, or
    [None] when it is left without a [return] (a status other than 200,
    or an exception, which [except Exception: pass] swallows). *)
Definition try_tier (cfg : Config) (r : outcome) : option string :=
  match r with
  | Raised => None
  | Response status_code payload =>
      if status_code =? 200 then
        match payload with
        | Malformed => None
        | Parsed (JObj fields) =>
            ge ← py_ge (dict_get fields "balance" (JInt 0))
                   (premium_token_threshold cfg);
            Some (if ge : bool then "premium" else "free")
        | Parsed _ => None
        end
      else None
  end.

(** [check_token_holdings]; [r] is what the upstream call comes to if it
    is made, [now] the clock reading of [cache.get], [now1] and [now2]
    those of [cache.set].  The result is the returned tier and the cache
    afterwards. *)
Definition check_token_holdings (cfg : Config) (r : outcome)
    (user_address : string) (cache : Cache.t json) (now now1 now2 : Z)
  : json * Cache.t json :=
  if String.eqb (TOKEN_ADDRESS cfg) "" then (JStr "free", cache)
  else
    let key := "tier:" +:+ user_address in
    let '(cached, cache1) := Cache.get cache key now in
    match not_none cached with
    | Some v => (v, cache1)
    | None =>
        match try_tier cfg r with
        | Some tier => (JStr tier, Cache.set cache1 key (JStr tier) 300 now1 now2)
        | None => (JStr "free", cache1)
        end
    end.

(** The [try] block of [DataFetcher.get_all_tokens]. *)
Definition try_tokens (r : outcome) : option json :=
  match r with
  | Raised => None
  | Response status_code payload =>
      if status_code =? 200 then
        match payload with
        | Malformed => None
        | Parsed (JObj fields) =>
            Some (if truthy (dict_get fields "success" JNull)
                  then dict_get fields "data" (JArr [])
                  else JArr [])
        | Parsed _ => None
        end
      else None
  end.

(** [DataFetcher.get_all_tokens] *)
Definition get_all_tokens (r : outcome) (cache : Cache.t json) (now now1 now2 : Z)
  : json * Cache.t json :=
  let '(cached, cache1) := Cache.get cache "all_tokens" now in
  match not_none cached with
  | Some v => (v, cache1)
  | None =>
      match try_tokens r with
      | Some tokens => (tokens, Cache.set cache1 "all_tokens" tokens 120 now1 now2)
      | None => (JArr [], cache1)
      end
  end.

(** The upstream call delivered no JSON object: it raised, or the status
    was not 200, or the body did not parse, or it parsed to something
    other than an object. *)
Definition no_object (r : outcome) : Prop :=
  match r with
  | Raised => True
  | Response status_code Malformed => True
  | Response status_code (Parsed (JObj _)) => status_code <> 200
  | Response status_code (Parsed _) => True
  end.

(** A body that reports failure: an object whose ["success"] is missing
    or falsy, as [get_token_data] and [get_all_tokens] test it. *)
Definition unsuccessful (fields : list (string * json)) : Prop :=
  truthy (dict_get fields "success" JNull) = false.

End DataAgent.

(** ** gifter-agent.py, the welcome-gift claim *)

Module Gifter.

Definition WELCOME_FET : Q := 150.
Definition WELCOME_BNB : Q := 0.2.
Definition MAX_CLAIMS_PER_DAY : Z := 100.

(** [ctx.storage] of the gifter, as far as the claim path uses it: the
    dict under ["welcome_claims"] and the counters under
    [f"daily_{today}"]. *)
Record Storage : Type := {
  welcome_claims : gmap string string;
  counters : gmap string Z;
}.

Definition has_claimed_welcome (ctx : Storage) (sender : string) : bool :=
  bool_decide (is_Some (welcome_claims ctx !! sender)).

(** [record_welcome_claim]; [now] is [datetime.utcnow().isoformat()]. *)
Definition record_welcome_claim (ctx : Storage) (sender now : string) : Storage :=
  {| welcome_claims := <[sender := now]> (welcome_claims ctx);
     counters := counters ctx |}.

(** [get_daily_claim_count]; [today] is [datetime.utcnow().date().isoformat()]. *)
Definition get_daily_claim_count (ctx : Storage) (today : string) : Z :=
  default 0 (counters ctx !! ("daily_" +:+ today)).

Definition increment_daily_claims (ctx : Storage) (today : string) : Storage :=
  let daily := default 0 (counters ctx !! ("daily_" +:+ today)) in
  {| welcome_claims := welcome_claims ctx;
     counters := <["daily_" +:+ today := daily + 1]> (counters ctx) |}.

(** What [send_fet] and [send_bnb] return. *)
Inductive tx_result : Type :=
| TxSent (tx_hash : string)
| TxFailed (error : string).

(** What the chain sees: a transfer that was broadcast. *)
Inductive transfer : Type :=
| FetTransfer (recipient : string) (amount : Q) (tx_hash : string)
| BnbTransfer (recipient : string) (amount : Q) (tx_hash : string).

(** Everything outside the agent that one claim reads: the clock at its
    three readings, the treasury balance, and what the two transfers come
    to when they are attempted. *)
Record World : Type := {
  today_checked : string;
  treasury_fet : Q;
  treasury_bnb : Q;
  fet_result : tx_result;
  bnb_result : tx_result;
  now_recorded : string;
  today_counted : string;
}.

(** [deduct_treasury]: a balance check, despite its name. *)
Definition deduct_treasury (w : World) (fet bnb : Q) : bool :=
  Qle_bool fet (treasury_fet w) && Qle_bool bnb (treasury_bnb w).

Definition is_hex (c : ascii) : bool :=
  let n := nat_of_ascii c in
  ((48 <=? n) && (n <=? 57) || (65 <=? n) && (n <=? 70)
   || (97 <=? n) && (n <=? 102))%nat.

Fixpoint all_hex (n : nat) (s : string) : bool :=
  match n with
  | O => true
  | S n' =>
      match s with
      | EmptyString => false
      | String c s' => is_hex c && all_hex n' s'
      end
  end.

(** [re.search(r"(0x[a-fA-F0-9]{40})", text)]: the leftmost match. *)
Fixpoint find_evm (text : string) : option string :=
  match text with
  | EmptyString => None
  | String c text' =>
      if String.prefix "0x" text && all_hex 40 (substring 2 40 text)
      then Some (substring 0 42 text)
      else find_evm text'
  end.

(** The replies of the claim path, by kind, each with its [end] flag. *)
Inductive reply : Type :=
| AlreadyClaimed
| NeedWallet
| DailyLimitReached
| TreasuryLow
| FetFailed (error : string)
| BnbFailed (error : string) (fet_hash : string)
| Welcome (evm_address fet_hash bnb_hash : string).

Definition ends_session (r : reply) : bool :=
  match r with
  | NeedWallet => false
  | _ => true
  end.

Record result : Type := {
  storage : Storage;
  replies : list reply;
  transfers : list transfer;
}.

(** The [if intent == "claim_welcome":] branch of [handle_chat]. *)
Definition claim_welcome (w : World) (ctx : Storage) (sender text : string)
  : result :=
  if has_claimed_welcome ctx sender then
    {| storage := ctx; replies := [AlreadyClaimed]; transfers := [] |}
  else
    match find_evm text with
    | None => {| storage := ctx; replies := [NeedWallet]; transfers := [] |}
    | Some evm_address =>
        if MAX_CLAIMS_PER_DAY <=? get_daily_claim_count ctx (today_checked w) then
          {| storage := ctx; replies := [DailyLimitReached]; transfers := [] |}
        else if negb (deduct_treasury w WELCOME_FET WELCOME_BNB) then
          {| storage := ctx; replies := [TreasuryLow]; transfers := [] |}
        else
          match fet_result w with
          | TxFailed error =>
              {| storage := ctx; replies := [FetFailed error]; transfers := [] |}
          | TxSent fet_hash =>
              let sent := [FetTransfer evm_address WELCOME_FET fet_hash] in
              let ctx' :=
                increment_daily_claims
                  (record_welcome_claim ctx sender (now_recorded w))
                  (today_counted w) in
              match bnb_result w with
              | TxFailed error =>
                  {| storage := ctx';
                     replies := [BnbFailed error fet_hash];
                     transfers := sent |}
              | TxSent bnb_hash =>
                  {| storage := ctx';
                     replies := [Welcome evm_address fet_hash bnb_hash];
                     transfers :=
                       sent ++ [BnbTransfer evm_address WELCOME_BNB bnb_hash] |}
              end
          end
    end.

(** A claim message as it reaches the branch. *)
Record claim : Type := {
  world : World;
  sender : string;
  text : string;
}.

(** The storage after a sequence of claims. *)
Definition run (ctx : Storage) (claims : list claim) : Storage :=
  fold_left (fun c m => storage (claim_welcome (world m) c (sender m) (text m)))
    claims ctx.

End Gifter.


(** ** The ends of a string *)

Module Text.

Definition first_char (s : string) : option ascii :=
  match s with
  | EmptyString => None
  | String c _ => Some c
  end.

Fixpoint last_char (s : string) : option ascii :=
  match s with
  | EmptyString => None
  | String c EmptyString => Some c
  | String _ s' => last_char s'
  end.

(** Neither end of the string is a character that [strip] removes. *)
Definition trimmed (s : string) : Prop :=
  (forall c, first_char s = Some c -> is_space c = false) /\
  (forall c, last_char s = Some c -> is_space c = false).

End Text.


(** ** data-agent.py, class Health *)

Module Health.

Record t : Type := mk {
  _start : Z;
  _requests : Z;
  _errors : Z;
}.

(** [Health()]; [now] is [datetime.utcnow()]. *)
Definition init (now : Z) : t := {| _start := now; _requests := 0; _errors := 0 |}.

(** [Health.record] *)
Definition record (h : t) (success : bool) : t :=
  {| _start := _start h;
     _requests := _requests h + 1;
     _errors := if success then _errors h else _errors h + 1 |}.

(** [(self._errors / self._requests * 100) if self._requests else 0] *)
Definition error_rate (h : t) : Q :=
  if _requests h =? 0 then 0%Q
  else (inject_Z (_errors h) / inject_Z (_requests h) * 100)%Q.

(** The dict [Health.status] returns; the rate is kept as a number, its
    text being formatting. *)
Record Status : Type := {
  status : string;
  uptime_seconds : Z;
  requests : Z;
  rate : Q;
}.

(** [Health.status]; [now] is [datetime.utcnow()]. *)
Definition status_of (h : t) (now : Z) : Status :=
  {| status := if Qle_bool 10 (error_rate h) then "degraded" else "healthy";
     uptime_seconds := Z.quot (now - _start h) TICKS_PER_SECOND;
     requests := _requests h;
     rate := error_rate h |}.

(** The state after a sequence of recorded outcomes. *)
Definition run (h : t) (outcomes : list bool) : t := fold_left record outcomes h.

(** How many outcomes were failures. *)
Definition failures (outcomes : list bool) : Z :=
  Z.of_nat (length (List.filter negb outcomes)).

End Health.


(** ** Sliding windows kept in [ctx.storage] *)

(** [[t for t in times if now - t < span]]; for the hourly quota the test
    is written [t > now - span]. *)
Definition recent (span now : Z) (times : list Z) : list Z :=
  List.filter (fun t => now - t <? span) times.

Module StoredWindow.

Section trace.
Context {State Req : Type}.
Variables (stamps : State -> string -> list Z)
          (who : Req -> string) (when : Req -> Z) (counts : Req -> bool)
          (step : State -> Req -> State * bool).

(** How many requests of a trace were counted against [u] and allowed. *)
Definition allowed (u : string) (reqs : list Req) (oks : list bool) : nat :=
  length (List.filter (fun ro => counts ro.1 && String.eqb (who ro.1) u && ro.2)
            (combine reqs oks)).

(** What a counted request does: with [limit] or more stored readings in
    the window it is refused and nothing is written; otherwise the pruned
    list with the new reading is stored under the sender's key. *)
Definition gates (span limit : Z) : Prop :=
  forall s r,
    counts r = true ->
    let pruned := recent span (when r) (stamps s (who r)) in
    if limit <=? Z.of_nat (length pruned) then
      (step s r).2 = false /\ forall u, stamps (step s r).1 u = stamps s u
    else
      (step s r).2 = true /\
      stamps (step s r).1 (who r) = pruned ++ [when r] /\
      forall u, u <> who r -> stamps (step s r).1 u = stamps s u.

(** A request that is not counted is allowed and writes nothing. *)
Definition passes_uncounted : Prop :=
  forall s r,
    counts r = false ->
    (step s r).2 = true /\ forall u, stamps (step s r).1 u = stamps s u.

End trace.

End StoredWindow.

(** ** data-agent.py, check_hourly_quota *)

Module DataAgentQuota.

(** The entries of [BUSINESS] that the hourly quota reads. *)
Record Business : Type := {
  ticker : string;
  free_queries_per_hour : Z;
  premium_token_threshold : Z;
}.

Definition BUSINESS : Business :=
  {| ticker := "$DATA"; free_queries_per_hour := 5; premium_token_threshold := 1000 |}.

Definition HOUR : Z := seconds 3600.

(** [check_hourly_quota]; [now] is [datetime.utcnow()], the storage holds
    the lists under [f"hourly_{sender}"]. *)
Definition check_hourly_quota (cfg : Business) (ctx : gmap string (list Z))
    (now : Z) (sender tier : string)
  : gmap string (list Z) * (bool * option string) :=
  if String.eqb tier "premium" then (ctx, (true, None))
  else
    let key := "hourly_" +:+ sender in
    let times := default [] (ctx !! key) in
    let cutoff := now - HOUR in
    let times := List.filter (fun t => cutoff <? t) times in
    if free_queries_per_hour cfg <=? Z.of_nat (length times) then
      (ctx, (false,
             Some ("Free tier limit: " +:+ str_of_Z (free_queries_per_hour cfg)
                   +:+ " queries/hour." +:+ TweetAgent.nl +:+ TweetAgent.nl
                   +:+ "Hold " +:+ str_of_Z (premium_token_threshold cfg) +:+ " "
                   +:+ ticker cfg
                   +:+ " for unlimited access + historical data + portfolio tracking!")))
    else (<[key := times ++ [now]]> ctx, (true, None)).

(** A quota check: who asks, when, at which tier. *)
Record request : Type := {
  sender : string;
  clock : Z;
  tier : string;
}.

Definition step (cfg : Business) (ctx : gmap string (list Z)) (r : request)
  : gmap string (list Z) * bool :=
  let out := check_hourly_quota cfg ctx (clock r) (sender r) (tier r) in
  (out.1, out.2.1).

Definition key_of (r : request) : string := "hourly_" +:+ sender r.

Definition counted (r : request) : bool := negb (String.eqb (tier r) "premium").

End DataAgentQuota.

(** ** gifter-agent.py, check_rate_limit *)

Module GifterGate.

Definition RATE_LIMIT_PER_MINUTE : Z := 10.

(** [check_rate_limit]; [now] is [datetime.utcnow().timestamp()], the
    storage holds the lists under [f"rl_{sender}"]. *)
Definition check_rate_limit (limit : Z) (ctx : gmap string (list Z))
    (now : Z) (sender : string) : gmap string (list Z) * bool :=
  let key := "rl_" +:+ sender in
  let times := default [] (ctx !! key) in
  let times := List.filter (fun t => now - t <? seconds 60) times in
  if limit <=? Z.of_nat (length times) then (ctx, false)
  else (<[key := times ++ [now]]> ctx, true).

(** A call is [(sender, now)]. *)
Definition step (limit : Z) (ctx : gmap string (list Z)) (r : string * Z)
  : gmap string (list Z) * bool :=
  check_rate_limit limit ctx r.2 r.1.

Definition key_of (r : string * Z) : string := "rl_" +:+ r.1.

End GifterGate.


(** ** trading-agent.py, what the alert store keeps *)

Module TradingInvariants.

Import TradingAgent.

(** Two versions of an alert that differ at most in that the second has
    its [triggered] flag set. *)
Definition flags_only (a a' : Alert) : Prop := a' = a \/ a' = set_triggered a.

(** The alert at position [i] of a list has the id [i + 1]. *)
Definition numbered (l : list Alert) : Prop :=
  forall i a, l !! i = Some a -> id a = Z.of_nat i + 1.

(** A storage in which every list is numbered, every sender that has an
    alert is an owner, and no owner is listed twice. *)
Definition consistent (ctx : Storage) : Prop :=
  List.NoDup (alert_owners ctx) /\
  forall o, numbered (get_alerts ctx o) /\
            (get_alerts ctx o <> [] -> In o (alert_owners ctx)).

(** [max_alerts] of [create_alert]. *)
Definition max_alerts (cfg : Business) (tier : string) : Z :=
  if String.eqb tier "premium" then premium_alerts cfg else free_alerts cfg.

End TradingInvariants.


(** ** gifter-agent.py, what is paid out over many claims *)

Module GifterLedger.

Import Gifter.

(** The transfers that a sequence of welcome claims broadcasts, in order,
    each with the sender whose claim caused it. *)
Fixpoint payments (ctx : Storage) (claims : list claim) : list (string * transfer) :=
  match claims with
  | [] => []
  | m :: claims' =>
      let r := claim_welcome (world m) ctx (sender m) (text m) in
      map (pair (sender m)) (transfers r) ++ payments (storage r) claims'
  end.

(** The transfers caused by the claims of [u]. *)
Definition paid_to (u : string) (ps : list (string * transfer)) : list transfer :=
  map snd (List.filter (fun p => String.eqb p.1 u) ps).

(** The claims of a sequence that were paid while the call of
    [increment_daily_claims] read the day [d]. *)
Fixpoint gifts_on (d : string) (ctx : Storage) (claims : list claim) : Z :=
  match claims with
  | [] => 0
  | m :: claims' =>
      let r := claim_welcome (world m) ctx (sender m) (text m) in
      (match transfers r with
       | [] => 0
       | _ :: _ => if String.eqb (today_counted (world m)) d then 1 else 0
       end) + gifts_on d (storage r) claims'
  end.

Definition recipient (t : transfer) : string :=
  match t with
  | FetTransfer r _ _ | BnbTransfer r _ _ => r
  end.

(** ["0x"] and forty hexadecimal digits. *)
Definition well_formed (a : string) : Prop :=
  String.length a = 42%nat /\ String.prefix "0x" a = true /\
  all_hex 40 (substring 2 40 a) = true.

Definition occurs_in (a text : string) : Prop :=
  exists before after, text = before +:+ a +:+ after.

(** The guard of [send_fet] and [send_bnb]:
    [not recipient.startswith("0x") or len(recipient) != 42]. *)
Definition invalid_recipient (r : string) : bool :=
  negb (String.prefix "0x" r) || negb (str_len r =? 42).

End GifterLedger.


(** ** gifter-agent.py, referrals and builder rewards *)

Module GifterRewards.

Import Gifter.

Definition REFERRAL_FET : Q := 10.
Definition BUILDER_FET : Q := 20.
Definition MAX_REFERRALS_PER_AGENT : Z := 50.

(** [ctx.storage] under ["referral_counts"] and ["referral_map"]. *)
Record Referrals : Type := {
  referral_counts : gmap string Z;
  referral_map : gmap string string;
}.

Definition get_referral_count (ctx : Referrals) (sender : string) : Z :=
  default 0 (referral_counts ctx !! sender).

Definition record_referral (ctx : Referrals) (referrer referred : string) : Referrals :=
  {| referral_counts :=
       <[referrer := default 0 (referral_counts ctx !! referrer) + 1]>
         (referral_counts ctx);
     referral_map := <[referred := referrer]> (referral_map ctx) |}.

Definition is_lower_alnum (c : ascii) : bool :=
  let n := nat_of_ascii c in
  ((48 <=? n) && (n <=? 57) || (97 <=? n) && (n <=? 122))%nat.

(** How many of the first [n] characters of [s] are in [[a-z0-9]], counted
    from the start up to the first that is not. *)
Fixpoint run_of (n : nat) (s : string) : nat :=
  match n, s with
  | S n', String c s' => if is_lower_alnum c then S (run_of n' s') else O
  | _, _ => O
  end.

(** [re.search(r"(agent1q[a-z0-9]{38,60})", text)]: the leftmost match, as
    long as it can be. *)
Fixpoint find_agent (text : string) : option string :=
  match text with
  | EmptyString => None
  | String c text' =>
      let n := run_of 60 (substring 7 60 text) in
      if String.prefix "agent1q" text && (38 <=? n)%nat
      then Some (substring 0 (7 + n) text)
      else find_agent text'
  end.

Inductive referral_reply : Type :=
| NeedAgent
| NeedReferrerWallet (referred : string)
| SelfReferral
| ReferralLimit
| ReferralTreasuryLow
| ReferralFailed (error : string)
| ReferralRecorded (evm_address tx_hash referred : string) (total : Z).

Record referral_result : Type := {
  r_storage : Referrals;
  r_reply : referral_reply;
  r_transfers : list transfer;
  r_notified : option string;
}.

(** The [if intent == "referral":] branch of [handle_chat]. *)
Definition referral (w : World) (ctx : Referrals) (sender text : string)
  : referral_result :=
  let quiet r := {| r_storage := ctx; r_reply := r; r_transfers := [];
                    r_notified := None |} in
  match find_agent text with
  | None => quiet NeedAgent
  | Some referred =>
      match find_evm text with
      | None => quiet (NeedReferrerWallet referred)
      | Some evm_address =>
          if String.eqb referred sender then quiet SelfReferral
          else if MAX_REFERRALS_PER_AGENT <=? get_referral_count ctx sender
          then quiet ReferralLimit
          else if negb (deduct_treasury w REFERRAL_FET 0) then quiet ReferralTreasuryLow
          else
            match fet_result w with
            | TxFailed error => quiet (ReferralFailed error)
            | TxSent tx_hash =>
                let ctx' := record_referral ctx sender referred in
                {| r_storage := ctx';
                   r_reply := ReferralRecorded evm_address tx_hash referred
                                (get_referral_count ctx' sender);
                   r_transfers := [FetTransfer evm_address REFERRAL_FET tx_hash];
                   r_notified := Some referred |}
            end
      end
  end.

(** A referral message as it reaches the branch. *)
Record message : Type := {
  m_world : World;
  m_sender : string;
  m_text : string;
}.

Definition refer (ctx : Referrals) (m : message) : referral_result :=
  referral (m_world m) ctx (m_sender m) (m_text m).

Definition refer_all (ctx : Referrals) (ms : list message) : Referrals :=
  fold_left (fun c m => r_storage (refer c m)) ms ctx.

(** The referral rewards that a sequence of messages pays to [u]. *)
Fixpoint rewards (u : string) (ctx : Referrals) (ms : list message) : Z :=
  match ms with
  | [] => 0
  | m :: ms' =>
      (if String.eqb (m_sender m) u then Z.of_nat (length (r_transfers (refer ctx m)))
       else 0) + rewards u (r_storage (refer ctx m)) ms'
  end.

(** What a builder claim reads outside the agent: the answer of
    [check_agent_has_token] ([None] when the request failed), the clock at
    the cooldown check and at the record, the treasury and the transfer. *)
Record BuilderWorld : Type := {
  has_token : option bool;
  now_checked : Z;
  b_treasury_fet : Q;
  b_treasury_bnb : Q;
  b_fet_result : tx_result;
  b_now_recorded : Z;
}.

Definition WEEK : Z := seconds (7 * 86400).

Inductive builder_reply : Type :=
| NeedBuilderWallet
| CouldNotVerify
| NoToken
| Weekly (next_claim : Z)
| BuilderTreasuryLow
| BuilderFailed (error : string)
| BuilderReward (evm_address tx_hash : string).

(** The [if intent == "builder_reward":] branch of [handle_chat];
    [builders] is the dict under ["builder_claims"], each time of claim
    as the reading of the clock that [isoformat] wrote down. *)
Definition builder_reward (w : BuilderWorld) (builders : gmap string Z)
    (sender text : string) : gmap string Z * builder_reply * list transfer :=
  match find_evm text with
  | None => (builders, NeedBuilderWallet, [])
  | Some evm_address =>
      match has_token w with
      | None => (builders, CouldNotVerify, [])
      | Some false => (builders, NoToken, [])
      | Some true =>
          let cooling :=
            match builders !! sender with
            | Some last_dt =>
                if now_checked w - last_dt <? WEEK then Some (last_dt + WEEK) else None
            | None => None
            end in
          match cooling with
          | Some next_claim => (builders, Weekly next_claim, [])
          | None =>
              if negb (Qle_bool BUILDER_FET (b_treasury_fet w)
                       && Qle_bool 0 (b_treasury_bnb w))
              then (builders, BuilderTreasuryLow, [])
              else
                match b_fet_result w with
                | TxFailed error => (builders, BuilderFailed error, [])
                | TxSent tx_hash =>
                    (<[sender := b_now_recorded w]> builders,
                     BuilderReward evm_address tx_hash,
                     [FetTransfer evm_address BUILDER_FET tx_hash])
                end
          end
      end
  end.

Record builder_message : Type := {
  b_world : BuilderWorld;
  b_sender : string;
  b_text : string;
}.

Definition build (builders : gmap string Z) (m : builder_message)
  : gmap string Z * builder_reply * list transfer :=
  builder_reward (b_world m) builders (b_sender m) (b_text m).

(** The clock readings recorded for the builder rewards that a sequence of
    messages pays to [u], in order. *)
Fixpoint paid_times (u : string) (builders : gmap string Z)
    (ms : list builder_message) : list Z :=
  match ms with
  | [] => []
  | m :: ms' =>
      let out := build builders m in
      (if String.eqb (b_sender m) u
       then map (fun _ => b_now_recorded (b_world m)) out.2
       else [])
      ++ paid_times u out.1.1 ms'
  end.

(** Any two neighbours of a list are at least a week apart. *)
Definition spaced (l : list Z) : Prop :=
  forall i a b, l !! i = Some a -> l !! S i = Some b -> a + WEEK <= b.

End GifterRewards.


(** ** analyst.py, the ranges of a scoring *)

Module AnalystBands.

Definition in_range (x : Q) : Prop := (0 <= x <= 100)%Q.

(** The grade and the part of the scale that it stands for. *)
Definition band (g : string) (w : Q) : Prop :=
  (g = "A" /\ 80 <= w)%Q \/ (g = "B" /\ 60 <= w < 80)%Q \/
  (g = "C" /\ 40 <= w < 60)%Q \/ (g = "D" /\ 20 <= w < 40)%Q \/
  (g = "F" /\ w < 20)%Q.

End AnalystBands.


(** ** price-monitor-agent.py, watches and price history

    [watches] and [price_cache] are [defaultdict(list)]: a key read for the
    first time is created with the empty list.  The model reads a missing
    key as the empty list; no function modelled here tells the two
    apart. *)

Module PriceWatch.

Record Business : Type := {
  default_threshold_pct : Q;
  free_watches : Z;
}.

Definition BUSINESS : Business :=
  {| default_threshold_pct := 5.0; free_watches := 3 |}.

(** An entry of a price history, [{"price": ..., "ts": ...}]. *)
Record Sample : Type := {
  price : Q;
  ts : Z;
}.

(** [l[-n:]] for a positive [n]. *)
Definition last_n {A : Type} (n : nat) (l : list A) : list A :=
  skipn (length l - n) l.

Definition history_of (price_cache : gmap string (list Sample)) (token : string)
  : list Sample :=
  default [] (price_cache !! token).

(** [record_price]; [now] is [datetime.now()]. *)
Definition record_price (price_cache : gmap string (list Sample))
    (token_address : string) (price_ : Q) (now : Z) : gmap string (list Sample) :=
  let history := history_of price_cache token_address
                 ++ [{| price := price_; ts := now |}] in
  <[token_address := if 100 <? Z.of_nat (length history) then last_n 100 history
                     else history]> price_cache.

Inductive direction : Type := UP | DOWN.

(** What the text of an alert is made of. *)
Record Alert : Type := {
  moved : direction;
  change_pct : Q;
  from_price : Q;
  to_price : Q;
}.

(** [check_alert] *)
Definition check_alert (price_cache : gmap string (list Sample))
    (token_address : string) (current_price threshold_pct : Q) : option Alert :=
  match history_of price_cache token_address with
  | [] => None
  | first :: _ =>
      let baseline := price first in
      if Qeq_bool baseline 0 then None
      else
        let change := ((current_price - baseline) / baseline * 100)%Q in
        if Qle_bool threshold_pct (Qabs change) then
          Some {| moved := if Qle_bool change 0 then DOWN else UP;
                  change_pct := change;
                  from_price := baseline;
                  to_price := current_price |}
        else None
  end.

(** What [handle_check] and [check_all_watches] do with a fetched price:
    [record_price], then [check_alert]. *)
Definition observe (price_cache : gmap string (list Sample)) (token_address : string)
    (price_ : Q) (now : Z) (threshold : Q)
  : gmap string (list Sample) * option Alert :=
  let price_cache' := record_price price_cache token_address price_ now in
  (price_cache', check_alert price_cache' token_address price_ threshold).

(** The history of a token after a run of fetched prices. *)
Definition record_all (price_cache : gmap string (list Sample)) (token : string)
    (samples : list Sample) : gmap string (list Sample) :=
  fold_left (fun c s => record_price c token (price s) (ts s)) samples price_cache.

Record Watch : Type := {
  address : string;
  threshold : Q;
  baseline : Q;
  created : Z;
}.

Definition watches_of (watches : gmap string (list Watch)) (user_id : string)
  : list Watch :=
  default [] (watches !! user_id).

Inductive watch_reply : Type :=
| WatchUsage
| WatchLimit
| CouldNotFetch (token_address : string)
| NowWatching (token_address : string) (price_ threshold_ : Q).

Record State : Type := {
  watches : gmap string (list Watch);
  price_cache : gmap string (list Sample);
}.

(** [handle_watch]; [parts] is [args.split()], [float_of_str] is [float]
    on text ([None] when it raises), [fetch] is [fetch_token_price], [now]
    and [now'] are the two readings of the clock.  [None] is the
    [ValueError] of a threshold that is no number. *)
Definition handle_watch (cfg : Business) (float_of_str : string -> option Q)
    (fetch : string -> option Q) (st : State) (user_id : string)
    (parts : list string) (tier : string) (now now' : Z)
  : option (State * watch_reply) :=
  match parts with
  | [] => Some (st, WatchUsage)
  | part0 :: rest =>
      let token_address := strip part0 in
      threshold_ ← match rest with
                   | part1 :: _ => float_of_str part1
                   | [] => Some (default_threshold_pct cfg)
                   end;
      if String.eqb tier "free"
         && (free_watches cfg <=? Z.of_nat (length (watches_of (watches st) user_id)))
      then Some (st, WatchLimit)
      else
        match fetch token_address with
        | None => Some (st, CouldNotFetch token_address)
        | Some price_ =>
            Some ({| watches :=
                       <[user_id := watches_of (watches st) user_id
                                    ++ [{| address := token_address;
                                           threshold := threshold_;
                                           baseline := price_;
                                           created := now' |}]]> (watches st);
                     price_cache :=
                       record_price (price_cache st) token_address price_ now |},
                  NowWatching token_address price_ threshold_)
        end
  end.

(** [l.pop(i)] for an index within the list: what is left. *)
Definition pop {A : Type} (i : nat) (l : list A) : list A :=
  firstn i l ++ skipn (S i) l.

(** The first index from [i] on whose watch has an address that starts
    with [target]. *)
Fixpoint first_match (target : string) (i : nat) (l : list Watch) : option nat :=
  match l with
  | [] => None
  | w :: l' =>
      if String.prefix target (address w) then Some i
      else first_match target (S i) l'
  end.

Inductive remove_reply : Type :=
| RemoveUsage
| Removed (address_ : string)
| NoWatchFound (target : string).

(** [handle_remove]; [int_of_str] is [int] on text, [None] its
    [ValueError]. *)
Definition handle_remove (int_of_str : string -> option Z)
    (watches_ : gmap string (list Watch)) (user_id : string) (parts : list string)
  : gmap string (list Watch) * remove_reply :=
  match parts with
  | [] => (watches_, RemoveUsage)
  | part0 :: _ =>
      let target := strip part0 in
      let user_watches := watches_of watches_ user_id in
      let take i :=
        match user_watches !! i with
        | Some removed => (<[user_id := pop i user_watches]> watches_,
                           Removed (address removed))
        | None => (watches_, NoWatchFound target)
        end in
      let by_address :=
        match first_match target 0 user_watches with
        | Some i => take i
        | None => (watches_, NoWatchFound target)
        end in
      match int_of_str target with
      | Some n =>
          let idx := n - 1 in
          if (0 <=? idx) && (idx <? Z.of_nat (length user_watches))
          then take (Z.to_nat idx)
          else by_address
      | None => by_address
      end
  end.

(** The commands that change the watches of a user. *)
Inductive command : Type :=
| Watch_ (parts : list string) (tier : string) (now now' : Z)
| Remove_ (parts : list string).

Section run.
Variable cfg : Business.
Variable float_of_str : string -> option Q.
Variable int_of_str : string -> option Z.
Variable fetch : string -> option Q.

(** One command of a user; a command that raises leaves the state as it
    was. *)
Definition step (user_id : string) (st : State) (c : command) : State :=
  match c with
  | Watch_ parts tier now now' =>
      match handle_watch cfg float_of_str fetch st user_id parts tier now now' with
      | Some (st', _) => st'
      | None => st
      end
  | Remove_ parts =>
      {| watches := (handle_remove int_of_str (watches st) user_id parts).1;
         price_cache := price_cache st |}
  end.

Definition run (st : State) (cs : list (string * command)) : State :=
  fold_left (fun s uc => step uc.1 s uc.2) cs st.

End run.

Definition tier_of (c : command) : option string :=
  match c with
  | Watch_ _ tier _ _ => Some tier
  | Remove_ _ => None
  end.

End PriceWatch.


(** ** data-agent.py, the fetcher behind the cache *)

Module DataFetcher.

Import DataAgent.

(** The [try] block of [DataFetcher.get_token_data]. *)
Definition try_token_data (r : outcome) : option json :=
  match r with
  | Raised => None
  | Response status_code payload =>
      if status_code =? 200 then
        match payload with
        | Malformed => None
        | Parsed (JObj fields) =>
            if truthy (dict_get fields "success" JNull)
               && truthy (dict_get fields "data" JNull)
            then Some (dict_get fields "data" JNull)
            else None
        | Parsed _ => None
        end
      else None
  end.

(** [DataFetcher.get_token_data]; [JNull] is the [None] it returns. *)
Definition get_token_data (r : outcome) (address : string) (cache : Cache.t json)
    (now now1 now2 : Z) : json * Cache.t json :=
  let cache_key := "token:" +:+ address in
  let '(cached, cache1) := Cache.get cache cache_key now in
  match not_none cached with
  | Some v => (v, cache1)
  | None =>
      match try_token_data r with
      | Some data => (data, Cache.set cache1 cache_key data 60 now1 now2)
      | None => (JNull, cache1)
      end
  end.

End DataFetcher.


(** ** Sorting by a key, largest first *)

Module Ranking.

Section by_key.
Context {A : Type}.
Variable key : A -> Q.

(** [sorted(l, key=key, reverse=True)]: a stable sort, entries with equal
    keys stay in the order of [l]. *)
Fixpoint insert_desc (x : A) (l : list A) : list A :=
  match l with
  | [] => [x]
  | y :: l' =>
      if Qle_bool (key y) (key x) then x :: y :: l'
      else y :: insert_desc x l'
  end.

Definition sorted_desc (l : list A) : list A := fold_right insert_desc [] l.

(** No entry has a larger key than one before it. *)
Definition descending (l : list A) : Prop :=
  forall i j a b, (i < j)%nat -> l !! i = Some a -> l !! j = Some b ->
                  (key b <= key a)%Q.

(** [out] is a choice of the largest of [l]: the entries of [l] are those
    of [out] and some others, none of which has a larger key than an
    entry of [out]. *)
Definition largest_of (l out : list A) : Prop :=
  exists rest, Permutation l (out ++ rest) /\
               forall o x, In o out -> In x rest -> (key x <= key o)%Q.

(** Among the entries with one key, those of [out] are the first of [l],
    in the order of [l]. *)
Definition in_list_order (l out : list A) : Prop :=
  forall k, exists more,
    List.filter (fun z => Qeq_bool (key z) k) l
    = List.filter (fun z => Qeq_bool (key z) k) out ++ more.

End by_key.

(** What iterating over a decoded value yields; [None] when it cannot be
    iterated over. *)
Definition py_iter (v : json) : option (list json) :=
  match v with
  | JArr items => Some items
  | JObj fields => Some (map (fun kv => JStr kv.1) fields)
  | JStr s => Some (map (fun c => JStr (String c EmptyString)) (list_ascii_of_string s))
  | JNull | JBool _ | JInt _ | JFloat _ => None
  end.

End Ranking.

(** ** data-agent.py, [DataFetcher.get_trending] *)

Module Trending.

Import Ranking.

Section trending.
Variable B : Analyst.Builtins.

(** The sort key, [float(t.get("marketCap", 0) or 0)]; [None] when it
    raises. *)
Definition market_cap (t : json) : option Q :=
  match t with
  | JObj fields =>
      let v := dict_get fields "marketCap" (JInt 0) in
      Analyst.py_float B (if truthy v then v else JInt 0)
  | _ => None
  end.

Definition cap (t : json) : Q := default 0%Q (market_cap t).

(** The body of [get_trending] on what [get_all_tokens] returned; [None]
    when the sort raises. *)
Definition trending (tokens : json) : option (list json) :=
  l ← py_iter tokens;
  _ ← mapM market_cap l;
  Some (slice_to 10 (sorted_desc cap l)).

(** [DataFetcher.get_trending] *)
Definition get_trending (r : DataAgent.outcome) (cache : Cache.t json)
    (now now1 now2 : Z) : option (list json) * Cache.t json :=
  let '(tokens, cache') := DataAgent.get_all_tokens r cache now now1 now2 in
  (trending tokens, cache').

End trending.

End Trending.

(** ** analyst.py, the [rank] command *)

Module AnalystRank.

Import Ranking Analyst.

Inductive rank_reply : Type :=
| CouldNotFetchTokens
| Top (shown : Z) (lines : list Scored).

Section rank.
Variable B : Builtins.

(** [score_token(t)] for an element of the token list; [None] when it
    raises. *)
Definition score (now : Z) (t : json) : option Scored :=
  match t with
  | JObj fields => score_token B now fields
  | _ => None
  end.

(** The [rank] branch of [handle_chat] on what [fetch_all_tokens]
    returned; [n] is the number asked for, 10 when none was given, and
    [clock i] the reading of [datetime.now()] in the scoring of the token
    at position [i].  [None] when the branch raises. *)
Definition rank (clock : nat -> Z) (n : Z) (tokens : json) : option rank_reply :=
  if negb (truthy tokens) then Some CouldNotFetchTokens
  else
    l ← py_iter tokens;
    scored ← mapM (fun it => score (clock it.1) it.2) (imap pair l);
    Some (Top (Z.min n (Z.of_nat (length scored)))
              (slice_to n (sorted_desc total scored))).

End rank.

End AnalystRank.


(** ** analyst.py, the bars of the [score] command *)

Module AnalystReport.

Import Analyst.

(** [int(x)] for a float: the integer part, toward zero. *)
Definition py_trunc (x : Q) : Z := if Qle_bool 0 x then Qfloor x else Qceiling x.

Fixpoint repeated (c : ascii) (n : nat) : string :=
  match n with
  | O => EmptyString
  | S n' => String c (repeated c n')
  end.

(** [c * n] for a string of one character: empty for [n] below 1. *)
Definition times (c : ascii) (n : Z) : string := repeated c (Z.to_nat n).

(** ["#" * int(score / 10) + "-" * (10 - int(score / 10))] *)
Definition bar (score : Q) : string :=
  times "#" (py_trunc (score / 10)) +:+ times "-" (10 - py_trunc (score / 10)).

(** [result["scores"].items()] *)
Definition dimensions (s : Scores) : list (string * Q) :=
  [("holders", s_holders s); ("volume", s_volume s); ("liquidity", s_liquidity s);
   ("price_stability", s_price_stability s); ("age", s_age s)].

End AnalystReport.


(** ** What a gate keeps *)

Module RateGateBound.

(** No sender's list of timestamps is longer than the limit. *)
Definition within_limit {State : Type} (stamps : State -> string -> list Z)
    (limit : Z) (s : State) : Prop :=
  forall u, Z.of_nat (length (stamps s u)) <= limit.

End RateGateBound.

(** ** Sample data *)

Module Samples.

(** Distinct cache keys ["k0"], ["k1"], ... *)
Definition key_of (n : nat) : string :=
  "k" +:+ NilZero.string_of_uint (Nat.to_uint n).

(** A thousand insertions at clock reading 0 into an empty cache: ["k0"]
    with a time to live of one second, the others of 1000 seconds. *)
Definition fill_ops : list (Cache.op Z) :=
  Cache.Set_ (key_of 0) 0 1 0 0
  :: map (fun i => Cache.Set_ (key_of i) (Z.of_nat i) 1000 0 0) (seq 1 999).

Definition full_cache : Cache.t Z := Cache.run (Cache.init 1000) fill_ops.

(** Ten entries in a cache of capacity ten; ["c"] and ["h"] expire first. *)
Definition ten_cache : Cache.t Z :=
  {| Cache._data :=
       [("a", (1, 50)); ("b", (2, 60)); ("c", (3, 20)); ("d", (4, 70));
        ("e", (5, 80)); ("f", (6, 90)); ("g", (7, 40)); ("h", (8, 30));
        ("i", (9, 55)); ("j", (10, 65))];
     Cache._max_size := 10 |}.

(** Twenty requests of one sender, one second apart from reading 0, with
    a request of another sender after each. *)
Definition burst_reqs : list Security.request :=
  flat_map (fun i =>
      [ {| Security.sender := "agent1qalice"; Security.clock := seconds (Z.of_nat i);
           Security.text := "price of FET" |};
        {| Security.sender := "agent1qbob"; Security.clock := seconds (Z.of_nat i);
           Security.text := "help" |} ])
    (seq 0 20).

(** Quota requests of two senders over two days. *)
Definition quota_reqs : list TweetAgent.request :=
  let alice day := {| TweetAgent.today := day; TweetAgent.sender := "agent1qalice";
                      TweetAgent.tier := "free" |} in
  let bob day := {| TweetAgent.today := day; TweetAgent.sender := "agent1qbob";
                    TweetAgent.tier := "premium" |} in
  [alice "2025-03-01"; bob "2025-03-01"; alice "2025-03-01"; alice "2025-03-01";
   alice "2025-03-01"; bob "2025-03-01"; alice "2025-03-02"; alice "2025-03-01"].

(** The alert of "watch FET above 10", as [create_alert] stores it in an
    empty storage, and a feed that quotes 11 for every token. *)
Definition empty_storage : TradingAgent.Storage :=
  {| TradingAgent.alert_owners := []; TradingAgent.alerts := ∅;
     TradingAgent.stats := ∅ |}.

Definition watch_ctx : TradingAgent.Storage :=
  (TradingAgent.create_alert TradingAgent.BUSINESS empty_storage
     "agent1qalice" "FET" "above" 10 "free" "2025-03-01T09:00:00").1.

Definition watch_alert : TradingAgent.Alert :=
  {| TradingAgent.id := 1; TradingAgent.token := "FET";
     TradingAgent.condition := "above"; TradingAgent.threshold := 10;
     TradingAgent.created := "2025-03-01T09:00:00";
     TradingAgent.triggered := false; TradingAgent.active := true |}.

Definition quotes (p : Q) : TradingAgent.feed := fun _ _ _ => TradingAgent.Price p.

(** [int], [float] and [fromisoformat] on plain text: decimal integers
    and dates written [YYYY-MM-DD]; any other text is rejected. *)
Definition digit (c : ascii) : option Z :=
  let n := nat_of_ascii c in
  if ((48 <=? n) && (n <=? 57))%nat then Some (Z.of_nat (n - 48)) else None.

Fixpoint digits (s : string) (acc : Z) : option Z :=
  match s with
  | EmptyString => Some acc
  | String c s' => d ← digit c; digits s' (acc * 10 + d)
  end.

Definition is_leap (y : Z) : bool :=
  (y mod 4 =? 0) && (negb (y mod 100 =? 0) || (y mod 400 =? 0)).

Definition days_in_month (y m : Z) : Z :=
  if m =? 2 then (if is_leap y then 29 else 28)
  else if (m =? 4) || (m =? 6) || (m =? 9) || (m =? 11) then 30 else 31.

(** Days from 1970-01-01 to the given day of the Gregorian calendar. *)
Definition days_from_civil (y m d : Z) : Z :=
  let y' := if m <=? 2 then y - 1 else y in
  let era := y' / 400 in
  let yoe := y' - era * 400 in
  let doy := (153 * (if 2 <? m then m - 3 else m + 9) + 2) / 5 + d - 1 in
  let doe := yoe * 365 + yoe / 4 - yoe / 100 + doy in
  era * 146097 + doe - 719468.

Definition date_fromisoformat (s : string) : option Z :=
  if (String.length s =? 10)%nat
     && String.eqb (substring 4 1 s) "-" && String.eqb (substring 7 1 s) "-"
  then
    y ← digits (substring 0 4 s) 0;
    m ← digits (substring 5 2 s) 0;
    d ← digits (substring 8 2 s) 0;
    if (1 <=? y) && (1 <=? m) && (m <=? 12) && (1 <=? d) && (d <=? days_in_month y m)
    then Some (days_from_civil y m d * Analyst.DAY)
    else None
  else None.

Definition plain_builtins : Analyst.Builtins :=
  {| Analyst.int_of_str := fun s =>
       match s with EmptyString => None | _ => digits s 0 end;
     Analyst.float_of_str := fun s =>
       match s with EmptyString => None | _ => inject_Z <$> digits s 0 end;
     Analyst.fromisoformat := date_fromisoformat |}.

(** A token created on 2025-01-01, and the same metrics under another name. *)
Definition scored_token : list (string * json) :=
  [("name", JStr "Alpha"); ("holders", JInt 200); ("volume24h", JInt 10000);
   ("createdAt", JStr "2025-01-01")].

Definition renamed_token : list (string * json) :=
  [("holders", JInt 200); ("name", JStr "Beta"); ("createdAt", JStr "2025-01-01");
   ("volume24h", JInt 10000); ("symbol", JStr "BETA")].

(** Noon of 2025-01-01, the evening of that day, and midnight of 2025-03-01. *)
Definition noon_jan_1 : Z := days_from_civil 2025 1 1 * Analyst.DAY + seconds 43200.
Definition evening_jan_1 : Z := days_from_civil 2025 1 1 * Analyst.DAY + seconds 79200.
Definition mar_1 : Z := days_from_civil 2025 3 1 * Analyst.DAY.

(** A deployment of the data agent with its token address set, and a body
    that reports failure and still carries a balance. *)
Definition data_cfg : DataAgent.Config :=
  {| DataAgent.TOKEN_ADDRESS := "0x74F804B4140ee70830B3Eef4e690325841575F89";
     DataAgent.premium_token_threshold := 1000 |}.

Definition failure_with_balance : list (string * json) :=
  [("success", JBool false); ("balance", JInt 5000)].

(** A claim whose FET transfer goes through and whose BNB transfer fails. *)
Definition half_paid : Gifter.World :=
  {| Gifter.today_checked := "2025-03-01";
     Gifter.treasury_fet := 5000;
     Gifter.treasury_bnb := 3;
     Gifter.fet_result := Gifter.TxSent "0xfe7";
     Gifter.bnb_result := Gifter.TxFailed "insufficient funds for gas";
     Gifter.now_recorded := "2025-03-01T09:00:00";
     Gifter.today_counted := "2025-03-01" |}.

Definition all_paid : Gifter.World :=
  {| Gifter.today_checked := "2025-03-02";
     Gifter.treasury_fet := 5000;
     Gifter.treasury_bnb := 3;
     Gifter.fet_result := Gifter.TxSent "0xfe8";
     Gifter.bnb_result := Gifter.TxSent "0xb4b";
     Gifter.now_recorded := "2025-03-02T09:00:00";
     Gifter.today_counted := "2025-03-02" |}.

Definition claim_text : string :=
  "claim 0x1234567890abcdef1234567890ABCDEF12345678 please".

Definition no_claims : Gifter.Storage :=
  {| Gifter.welcome_claims := ∅; Gifter.counters := ∅ |}.


(** A state of [Security] one passing check short of its hundredth, with a
    sender last seen 400 seconds before reading 1000 s and one seen 10
    seconds before it. *)
Definition before_sweep : Security.t :=
  {| Security._requests :=
       <["agent1qold" := [seconds 600]]> (<["agent1qnew" := [seconds 990]]> ∅);
     Security._check_count := 99 |}.


(** Six free queries of one sender within ten minutes, a premium one among
    them. *)
Definition hourly_reqs : list DataAgentQuota.request :=
  let free t := {| DataAgentQuota.sender := "agent1qalice";
                   DataAgentQuota.clock := seconds t;
                   DataAgentQuota.tier := "free" |} in
  let premium t := {| DataAgentQuota.sender := "agent1qbob";
                      DataAgentQuota.clock := seconds t;
                      DataAgentQuota.tier := "premium" |} in
  [free 0; free 60; premium 90; free 120; free 180; free 240].

Definition hourly_next (t : Z) : DataAgentQuota.request :=
  {| DataAgentQuota.sender := "agent1qalice"; DataAgentQuota.clock := seconds t;
     DataAgentQuota.tier := "free" |}.


(** A referral of one agent by another, and the same once more. *)
Definition referred_agent : string :=
  "agent1qbob0000000000000000000000000000000000000000".

Definition referral_text : string :=
  "refer " +:+ referred_agent +:+ " 0x1234567890abcdef1234567890ABCDEF12345678".

Definition referral_msg : GifterRewards.message :=
  {| GifterRewards.m_world := all_paid;
     GifterRewards.m_sender := "agent1qalice";
     GifterRewards.m_text := referral_text |}.

Definition no_referrals : GifterRewards.Referrals :=
  {| GifterRewards.referral_counts := ∅; GifterRewards.referral_map := ∅ |}.

(** A builder claim at the given readings of the clock. *)
Definition builder_msg (t : Z) : GifterRewards.builder_message :=
  {| GifterRewards.b_world :=
       {| GifterRewards.has_token := Some true;
          GifterRewards.now_checked := t;
          GifterRewards.b_treasury_fet := 5000;
          GifterRewards.b_treasury_bnb := 3;
          GifterRewards.b_fet_result := Gifter.TxSent "0xb1d";
          GifterRewards.b_now_recorded := t + 1 |};
     GifterRewards.b_sender := "agent1qalice";
     GifterRewards.b_text := claim_text |}.


(** A price feed that quotes every token at 8. *)
Definition flat_feed : string -> option Q := fun _ => Some 8%Q.

Definition no_watches : PriceWatch.State :=
  {| PriceWatch.watches := ∅; PriceWatch.price_cache := ∅ |}.

(** [int] and [float] on decimal digits. *)
Definition digits_int : string -> option Z := Analyst.int_of_str plain_builtins.
Definition digits_float : string -> option Q := Analyst.float_of_str plain_builtins.

(** Three watches of a free user, a fourth that is refused, the removal
    of the first by the text "0", and a fifth. *)
Definition watch_commands : list (string * PriceWatch.command) :=
  [("agent1qalice", PriceWatch.Watch_ ["0xaaa"; "10"] "free" 1 2);
   ("agent1qalice", PriceWatch.Watch_ ["0xbbb"] "free" 3 4);
   ("agent1qalice", PriceWatch.Watch_ ["0xccc"] "free" 5 6);
   ("agent1qalice", PriceWatch.Watch_ ["0xddd"] "free" 7 8);
   ("agent1qalice", PriceWatch.Remove_ ["0"]);
   ("agent1qalice", PriceWatch.Watch_ ["0xeee"] "free" 9 10)].

End Samples.

(** * Properties *)

(** ** Insertion-ordered dictionaries *)

Module PyDictFacts.

Import PyDict.

Section facts.
Context {V : Type}.
Implicit Types (d : dict V) (k : string) (v : V).

Lemma filter_filter {A : Type} (f g : A -> bool) (l : list A) :
  List.filter f (List.filter g l) = List.filter (fun x => g x && f x) l.
Proof.
  induction l as [|x l IH]; simpl; [reflexivity|].
  destruct (g x); simpl; [destruct (f x)|]; now rewrite IH.
Qed.

Lemma getitem_In d k v : getitem d k = Some v -> In (k, v) d.
Proof.
  induction d as [|[k' v'] d IH]; simpl; [discriminate|].
  destruct (String.eqb_spec k' k) as [->|Hne]; intros H.
  - injection H as ->. now left.
  - right. now apply IH.
Qed.

Lemma In_getitem d k v : wf d -> In (k, v) d -> getitem d k = Some v.
Proof.
  unfold wf.
  induction d as [|[k' v'] d IH]; simpl; [tauto|].
  intros Hnd [Heq|Hin]; inversion Hnd as [|? ? Hnotin Hnd']; subst.
  - injection Heq as -> ->. now rewrite String.eqb_refl.
  - destruct (String.eqb_spec k' k) as [->|Hne]; [|now apply IH].
    exfalso. apply Hnotin. apply in_map_iff. now exists (k, v).
Qed.

Lemma getitem_None d k : getitem d k = None <-> ~ In k (keys d).
Proof.
  induction d as [|[k' v'] d IH]; simpl; [tauto|].
  destruct (String.eqb_spec k' k) as [->|Hne].
  - split; [discriminate|]. intros H. exfalso. apply H. now left.
  - rewrite IH. tauto.
Qed.

Lemma getitem_Some_key d k v : getitem d k = Some v -> In k (keys d).
Proof.
  intros H. apply getitem_In in H. apply in_map_iff. now exists (k, v).
Qed.

Lemma getitem_setitem_eq d k v : getitem (setitem d k v) k = Some v.
Proof.
  induction d as [|[k' v'] d IH]; simpl.
  - now rewrite String.eqb_refl.
  - destruct (String.eqb_spec k' k) as [->|Hne]; simpl.
    + now rewrite String.eqb_refl.
    + destruct (String.eqb_spec k' k); [contradiction|exact IH].
Qed.

Lemma getitem_setitem_ne d k k' v :
  k <> k' -> getitem (setitem d k v) k' = getitem d k'.
Proof.
  intros Hne. induction d as [|[k0 v0] d IH]; simpl.
  - destruct (String.eqb_spec k k'); [contradiction|reflexivity].
  - destruct (String.eqb_spec k0 k) as [->|Hne0]; simpl.
    + destruct (String.eqb_spec k k'); [contradiction|reflexivity].
    + now rewrite IH.
Qed.

Lemma keys_setitem_in d k v : In k (keys d) -> keys (setitem d k v) = keys d.
Proof.
  induction d as [|[k' v'] d IH]; simpl; [tauto|].
  destruct (String.eqb_spec k' k) as [->|Hne]; simpl; [reflexivity|].
  intros [Heq|Hin]; [contradiction|]. now rewrite IH.
Qed.

Lemma keys_setitem_notin d k v :
  ~ In k (keys d) -> keys (setitem d k v) = keys d ++ [k].
Proof.
  induction d as [|[k' v'] d IH]; simpl; [reflexivity|].
  destruct (String.eqb_spec k' k) as [->|Hne]; simpl; [tauto|].
  intros Hnotin. rewrite IH; tauto.
Qed.

Lemma in_keys_setitem d k v k' :
  In k' (keys (setitem d k v)) <-> k' = k \/ In k' (keys d).
Proof.
  destruct (in_dec string_dec k (keys d)) as [Hin|Hnotin].
  - rewrite keys_setitem_in by assumption. split; [tauto|].
    intros [->|H]; assumption.
  - rewrite keys_setitem_notin by assumption. rewrite in_app_iff. simpl.
    split; [intros [H|[H|[]]]; auto|intros [->|H]; auto].
Qed.

Lemma NoDup_setitem d k v : wf d -> wf (setitem d k v).
Proof.
  unfold wf.
  intros Hnd. destruct (in_dec string_dec k (keys d)) as [Hin|Hnotin].
  - now rewrite keys_setitem_in.
  - rewrite keys_setitem_notin by assumption.
    apply List.NoDup_app; [assumption|repeat constructor; simpl; tauto|].
    intros x Hx [<-|[]]. contradiction.
Qed.

Lemma length_setitem_in d k v :
  In k (keys d) -> length (setitem d k v) = length d.
Proof.
  intros H. rewrite <- (length_map fst (setitem d k v)).
  change (map fst (setitem d k v)) with (keys (setitem d k v)).
  rewrite keys_setitem_in by assumption. apply length_map.
Qed.

Lemma length_setitem_notin d k v :
  ~ In k (keys d) -> length (setitem d k v) = S (length d).
Proof.
  intros H. rewrite <- (length_map fst (setitem d k v)).
  change (map fst (setitem d k v)) with (keys (setitem d k v)).
  rewrite keys_setitem_notin by assumption.
  rewrite length_app. unfold keys. rewrite length_map. simpl. lia.
Qed.

Lemma length_setitem_le d k v : (length (setitem d k v) <= S (length d))%nat.
Proof.
  destruct (in_dec string_dec k (keys d)).
  - rewrite length_setitem_in by assumption. lia.
  - rewrite length_setitem_notin by assumption. lia.
Qed.

(** Deleting a key is filtering it out, once keys are distinct. *)
Lemma delitem_filter d k :
  wf d ->
  delitem d k = List.filter (fun kv => negb (String.eqb (fst kv) k)) d.
Proof.
  unfold wf.
  induction d as [|[k' v'] d IH]; simpl; [reflexivity|].
  intros Hnd. inversion Hnd as [|? ? Hnotin Hnd']; subst.
  destruct (String.eqb_spec k' k) as [->|Hne]; simpl.
  - symmetry. apply forallb_filter_id. apply forallb_forall.
    intros [k0 v0] Hin. simpl. destruct (String.eqb_spec k0 k) as [->|]; [|reflexivity].
    exfalso. apply Hnotin. apply in_map_iff. now exists (k, v0).
  - now rewrite IH.
Qed.

Lemma NoDup_keys_filter (f : string * V -> bool) d :
  wf d -> wf (List.filter f d).
Proof.
  unfold wf.
  induction d as [|[k' v'] d IH]; simpl; [constructor|].
  intros Hnd. inversion Hnd as [|? ? Hnotin Hnd']; subst.
  destruct (f (k', v')); simpl; [|now apply IH].
  constructor; [|now apply IH].
  intros Hin. apply Hnotin. apply in_map_iff in Hin as [[k0 v0] [Heq Hin]].
  apply filter_In in Hin as [Hin _]. apply in_map_iff. now exists (k0, v0).
Qed.

Lemma delitems_filter d ks :
  wf d ->
  delitems d ks =
  List.filter (fun kv => negb (existsb (String.eqb (fst kv)) ks)) d.
Proof.
  unfold wf.
  unfold delitems. revert d. induction ks as [|k ks IH]; intros d Hnd; simpl.
  - symmetry. apply forallb_filter_id. now apply forallb_forall.
  - rewrite IH.
    + rewrite delitem_filter by assumption. rewrite filter_filter.
      apply List.filter_ext. intros [k0 v0]. simpl.
      now destruct (String.eqb k0 k).
    + rewrite delitem_filter by assumption. now apply NoDup_keys_filter.
Qed.

Lemma getitem_filter (f : string * V -> bool) d k v :
  wf d ->
  getitem (List.filter f d) k = Some v <-> getitem d k = Some v /\ f (k, v) = true.
Proof.
  unfold wf.
  intros Hnd. split.
  - intros H. apply getitem_In in H. apply filter_In in H as [Hin Hf].
    split; [now apply In_getitem|assumption].
  - intros [H Hf]. apply In_getitem; [now apply NoDup_keys_filter|].
    apply filter_In. split; [now apply getitem_In|assumption].
Qed.

Lemma getitem_delitem_eq d k : wf d -> getitem (delitem d k) k = None.
Proof.
  unfold wf.
  intros Hnd. rewrite delitem_filter by assumption.
  destruct (getitem _ k) as [v|] eqn:E; [|reflexivity].
  apply getitem_filter in E as [_ E]; [|assumption]. simpl in E.
  now rewrite String.eqb_refl in E.
Qed.

Lemma getitem_delitem_ne d k k' : k <> k' -> getitem (delitem d k) k' = getitem d k'.
Proof.
  intros Hne. induction d as [|[k0 v0] d IH]; simpl; [reflexivity|].
  destruct (String.eqb_spec k0 k) as [->|Hne0]; simpl.
  - destruct (String.eqb_spec k k'); [contradiction|reflexivity].
  - now rewrite IH.
Qed.

End facts.

End PyDictFacts.

(** ** The TTL cache of data-agent.py *)

Module CacheFacts.

Import PyDict PyDictFacts Cache.

Section facts.
Context {V : Type}.
Implicit Types (c : Cache.t V) (d : dict (@entry V)) (k key : string).

Lemma wf_unique d k (e e' : @entry V) :
  wf d -> In (k, e) d -> In (k, e') d -> e = e'.
Proof.
  intros Hwf H H'. apply In_getitem in H, H'; try assumption. congruence.
Qed.

(** The first loop of the capacity block removes the expired entries and
    nothing else. *)
Lemma purge_filter d now :
  wf d ->
  delitems d (expired d now) = List.filter (fun kv => now <? expires_of kv) d.
Proof.
  intros Hwf. rewrite delitems_filter by assumption.
  apply List.filter_ext_in. intros [k e] Hin. simpl.
  destruct (now <? expires_of (k, e)) eqn:Hlt.
  - apply negb_true_iff. apply not_true_is_false. intros Hex.
    apply existsb_exists in Hex as [k' [Hk' Heq]].
    apply String.eqb_eq in Heq. subst k'.
    unfold expired, keys in Hk'. apply in_map_iff in Hk' as [[k' e'] [Hfst Hk']].
    simpl in Hfst. subst k'. apply filter_In in Hk' as [Hin' Hexp].
    rewrite (wf_unique d k e e' Hwf Hin Hin') in Hlt. lia.
  - apply negb_false_iff. apply existsb_exists. exists k. split.
    + unfold expired, keys. apply in_map_iff. exists (k, e). split; [reflexivity|].
      apply filter_In. split; [assumption|lia].
    + apply String.eqb_refl.
Qed.

Lemma insert_sorted_perm (x : string * @entry V) l :
  Permutation (insert_sorted x l) (x :: l).
Proof.
  induction l as [|y l IH]; simpl; [reflexivity|].
  destruct (expires_of x <=? expires_of y); [reflexivity|].
  rewrite IH. apply perm_swap.
Qed.

Lemma sorted_perm d : Permutation (sorted d) d.
Proof.
  induction d as [|x d IH]; simpl; [reflexivity|].
  rewrite insert_sorted_perm. now constructor.
Qed.

Lemma insert_sorted_sorted (x : string * @entry V) l :
  StronglySorted le_expiry l -> StronglySorted le_expiry (insert_sorted x l).
Proof.
  induction l as [|y l IH]; simpl; intros Hs.
  - repeat constructor.
  - apply StronglySorted_inv in Hs as [Hs Hall].
    destruct (Z.leb_spec (expires_of x) (expires_of y)) as [Hle|Hgt].
    + constructor; [constructor; assumption|].
      constructor; [exact Hle|].
      eapply List.Forall_impl; [|exact Hall].
      intros z Hz. unfold le_expiry in *. lia.
    + constructor; [now apply IH|].
      eapply Permutation_Forall; [symmetry; apply insert_sorted_perm|].
      constructor; [unfold le_expiry; lia|assumption].
Qed.

Lemma sorted_sorted d : StronglySorted le_expiry (sorted d).
Proof.
  induction d as [|x d IH]; simpl; [constructor|now apply insert_sorted_sorted].
Qed.

Lemma In_firstn {A} n (l : list A) x : In x (firstn n l) -> In x l.
Proof.
  intros H. rewrite <- (firstn_skipn n l). apply in_app_iff. now left.
Qed.

Lemma In_skipn {A} n (l : list A) x : In x (skipn n l) -> In x l.
Proof.
  intros H. rewrite <- (firstn_skipn n l). apply in_app_iff. now right.
Qed.

Lemma StronglySorted_firstn {A} (R : A -> A -> Prop) n (l : list A) :
  StronglySorted R l -> StronglySorted R (firstn n l).
Proof.
  revert n. induction l as [|x l IH]; intros [|n] Hs; simpl; try constructor.
  - apply IH. now apply StronglySorted_inv in Hs.
  - apply StronglySorted_inv in Hs as [_ Hall].
    rewrite List.Forall_forall in *. intros y Hy. apply Hall.
    eapply In_firstn; eassumption.
Qed.

Lemma StronglySorted_firstn_skipn {A} (R : A -> A -> Prop) n (l : list A) x y :
  StronglySorted R l -> In x (firstn n l) -> In y (skipn n l) -> R x y.
Proof.
  revert n. induction l as [|z l IH]; intros [|n] Hs Hx Hy; simpl in *; try tauto.
  apply StronglySorted_inv in Hs as [Hs Hall].
  destruct Hx as [->|Hx].
  - rewrite List.Forall_forall in Hall. apply Hall. eapply In_skipn; eassumption.
  - eapply IH; eassumption.
Qed.

Lemma filter_split_perm {A} (f : A -> bool) (l : list A) :
  Permutation l (List.filter f l ++ List.filter (fun x => negb (f x)) l).
Proof.
  induction l as [|x l IH]; simpl; [reflexivity|].
  destruct (f x); simpl.
  - now constructor.
  - rewrite IH at 1. apply Permutation_middle.
Qed.

Lemma wf_NoDup d : wf d -> List.NoDup d.
Proof. unfold wf, keys. apply NoDup_map_inv. Qed.

Lemma NoDup_firstn {A} n (l : list A) : List.NoDup l -> List.NoDup (firstn n l).
Proof.
  intros H. rewrite <- (firstn_skipn n l) in H.
  now apply NoDup_app_remove_r in H.
Qed.

(** Membership of a key in the keys of a part of a dictionary is membership
    of the entry in that part. *)
Lemma key_in_part d (part : list (string * @entry V)) x :
  wf d -> incl part d -> In x d ->
  existsb (String.eqb (fst x)) (keys part) = true <-> In x part.
Proof.
  intros Hwf Hincl Hx. rewrite existsb_exists. split.
  - intros [k [Hk Heq]]. apply String.eqb_eq in Heq. subst k.
    unfold keys in Hk. apply in_map_iff in Hk as [[k' e'] [Hfst Hin']].
    destruct x as [k e]. simpl in Hfst. subst k'.
    now rewrite (wf_unique d k e e' Hwf Hx (Hincl _ Hin')).
  - intros Hin. exists (fst x). split; [|apply String.eqb_refl].
    unfold keys. now apply in_map.
Qed.

(** The second loop of the capacity block: the first [n] entries in
    expiry order go, the others stay in place. *)
Lemma drop_earliest d n :
  wf d ->
  let gone := firstn n (sorted d) in
  let kept := delitems d (keys gone) in
  kept = List.filter (fun kv => negb (existsb (String.eqb (fst kv)) (keys gone))) d /\
  Permutation d (gone ++ kept) /\
  (forall x y, In x gone -> In y kept -> le_expiry x y).
Proof.
  intros Hwf gone kept.
  assert (Hincl : incl gone d).
  { intros x Hx. apply In_firstn in Hx.
    eapply Permutation_in; [apply sorted_perm|exact Hx]. }
  assert (Hkept : kept =
    List.filter (fun kv => negb (existsb (String.eqb (fst kv)) (keys gone))) d).
  { unfold kept. now apply delitems_filter. }
  split; [exact Hkept|]. split.
  - rewrite Hkept.
    rewrite (filter_split_perm (fun kv => existsb (String.eqb (fst kv)) (keys gone)) d) at 1.
    apply Permutation_app_tail. apply Permutation.NoDup_Permutation.
    + apply List.NoDup_filter. now apply wf_NoDup.
    + apply NoDup_firstn. eapply Permutation_NoDup; [symmetry; apply sorted_perm|].
      now apply wf_NoDup.
    + intros x. rewrite filter_In. split.
      * intros [Hx Hq]. now apply (key_in_part d gone x Hwf Hincl Hx).
      * intros Hx. split; [now apply Hincl|].
        apply (key_in_part d gone x Hwf Hincl); [now apply Hincl|assumption].
  - intros x y Hx Hy. rewrite Hkept in Hy. apply filter_In in Hy as [Hy Hq].
    apply negb_true_iff in Hq.
    assert (Hny : ~ In y gone).
    { intros Hin. apply (key_in_part d gone y Hwf Hincl Hy) in Hin. congruence. }
    assert (Hys : In y (sorted d)).
    { eapply Permutation_in; [symmetry; apply sorted_perm|exact Hy]. }
    rewrite <- (firstn_skipn n (sorted d)) in Hys. apply in_app_iff in Hys.
    destruct Hys as [Hys|Hys]; [contradiction|].
    eapply StronglySorted_firstn_skipn; [apply sorted_sorted|exact Hx|exact Hys].
Qed.

Lemma length_sorted d : length (sorted d) = length d.
Proof. apply Permutation_length, sorted_perm. Qed.

Lemma wf_filter (f : string * @entry V -> bool) d : wf d -> wf (List.filter f d).
Proof. apply NoDup_keys_filter. Qed.

Lemma len_filter_le (f : string * @entry V -> bool) d : len (List.filter f d) <= len d.
Proof. unfold len. pose proof (List.filter_length_le f d). lia. Qed.

(** What the capacity block of [set] leaves, by cases. *)
Lemma make_room_cases m d now :
  wf d -> 0 <= m ->
  let live := List.filter (fun kv => now <? expires_of kv) d in
  let gone := firstn (Z.to_nat (m / 10)) (sorted live) in
  (len d < m /\ make_room m d now = d /\ pressure_drop m d now = []) \/
  (m <= len d /\ len live < m /\ make_room m d now = live /\
   pressure_drop m d now = []) \/
  (m <= len d /\ m <= len live /\
   make_room m d now = delitems live (keys gone) /\
   pressure_drop m d now = keys gone).
Proof.
  intros Hwf Hm live gone. unfold make_room, pressure_drop.
  rewrite purge_filter by assumption. fold live.
  destruct (Z.leb_spec m (len d)) as [Hfull|Hroom]; [|left; auto].
  right. destruct (Z.leb_spec m (len live)) as [Hfull'|Hroom']; [right|left; auto].
  unfold to_drop, slice_to.
  assert (H10 : 0 <= m / 10) by (apply Z.div_pos; lia).
  destruct (Z.leb_spec 0 (m / 10)); [auto|lia].
Qed.

Lemma wf_make_room m d now : wf d -> wf (make_room m d now).
Proof.
  intros Hwf. unfold make_room.
  destruct (m <=? len d); [|assumption].
  rewrite purge_filter by assumption.
  set (live := List.filter _ d). assert (Hl : wf live) by now apply wf_filter.
  destruct (m <=? len live); [|assumption].
  rewrite delitems_filter by assumption. now apply wf_filter.
Qed.

(** The capacity block only removes entries. *)
Lemma make_room_filter m d now :
  wf d -> exists f, make_room m d now = List.filter f d.
Proof.
  intros Hwf. unfold make_room.
  destruct (m <=? len d).
  - rewrite purge_filter by assumption.
    set (live := List.filter _ d). assert (Hl : wf live) by now apply wf_filter.
    destruct (m <=? len live).
    + rewrite delitems_filter by assumption. unfold live.
      rewrite filter_filter. eauto.
    + eauto.
  - exists (fun _ => true). symmetry. apply forallb_filter_id.
    now apply forallb_forall.
Qed.

Lemma getitem_make_room_inv m d now k x :
  wf d -> getitem (make_room m d now) k = Some x -> getitem d k = Some x.
Proof.
  intros Hwf H. destruct (make_room_filter m d now Hwf) as [f Hf].
  rewrite Hf in H. now apply getitem_filter in H.
Qed.

Lemma getitem_make_room_keep m d now k value expires :
  wf d -> getitem d k = Some (value, expires) -> now < expires ->
  ~ In k (pressure_drop m d now) ->
  getitem (make_room m d now) k = Some (value, expires).
Proof.
  intros Hwf Hget Hlive Hkeep. unfold make_room, pressure_drop in *.
  destruct (m <=? len d); [|assumption].
  rewrite purge_filter in * by assumption.
  set (live := List.filter _ d) in *.
  assert (Hl : wf live) by now apply wf_filter.
  assert (Hget' : getitem live k = Some (value, expires)).
  { apply getitem_filter; [assumption|]. split; [assumption|].
    unfold expires_of. simpl. lia. }
  destruct (m <=? len live); [|assumption].
  rewrite delitems_filter by assumption.
  apply getitem_filter; [assumption|]. split; [assumption|]. simpl.
  apply negb_true_iff, not_true_is_false. intros Hex.
  apply existsb_exists in Hex as [k' [Hk' Heq]].
  apply String.eqb_eq in Heq. now subst k'.
Qed.

Lemma keys_filter_incl (f : string * @entry V -> bool) d k :
  In k (keys (List.filter f d)) -> In k (keys d).
Proof.
  unfold keys. rewrite !in_map_iff. intros [x [Hfst Hin]].
  apply filter_In in Hin as [Hin _]. eauto.
Qed.

Lemma max_size_step c (o : op V) : _max_size (step c o) = _max_size c.
Proof.
  destruct o as [key value ttl now now'|key now]; simpl; [reflexivity|].
  unfold get. destruct (getitem (_data c) key) as [[value expires]|]; [|reflexivity].
  now destruct (now <? expires).
Qed.

Lemma wf_delitem d k : wf d -> wf (delitem d k).
Proof. intros Hwf. rewrite delitem_filter by assumption. now apply wf_filter. Qed.

Lemma wf_step c (o : op V) : wf (_data c) -> wf (_data (step c o)).
Proof.
  intros Hwf. destruct o as [key value ttl now now'|key now]; simpl.
  - apply NoDup_setitem. now apply wf_make_room.
  - unfold get. destruct (getitem (_data c) key) as [[value expires]|]; [|assumption].
    destruct (now <? expires); simpl; [assumption|now apply wf_delitem].
Qed.

Lemma wf_run c (ops : list (op V)) : wf (_data c) -> wf (_data (run c ops)).
Proof.
  revert c. induction ops as [|o ops IH]; intros c Hwf; simpl; [assumption|].
  apply IH. now apply wf_step.
Qed.

Lemma max_size_run c (ops : list (op V)) : _max_size (run c ops) = _max_size c.
Proof.
  revert c. induction ops as [|o ops IH]; intros c; simpl; [reflexivity|].
  change (_max_size (run (step c o) ops) = _max_size c).
  now rewrite IH, max_size_step.
Qed.

(** Only [set] adds a key. *)
Lemma keys_step c (o : op V) k :
  wf (_data c) ->
  In k (keys (_data (step c o))) -> In k (keys (_data c)) \/ In k (set_keys [o]).
Proof.
  intros Hwf. destruct o as [key value ttl now now'|key now]; simpl.
  - intros H. apply in_keys_setitem in H as [->|H]; [right; now left|left].
    destruct (make_room_filter (_max_size c) (_data c) now Hwf) as [f Hf].
    rewrite Hf in H. now apply keys_filter_incl in H.
  - unfold get. destruct (getitem (_data c) key) as [[value expires]|]; [|now left].
    destruct (now <? expires); simpl; [now left|].
    rewrite delitem_filter by assumption. intros H. left.
    now apply keys_filter_incl in H.
Qed.

Lemma keys_run c (ops : list (op V)) k :
  wf (_data c) ->
  In k (keys (_data (run c ops))) -> In k (keys (_data c)) \/ In k (set_keys ops).
Proof.
  revert c. induction ops as [|o ops IH]; intros c Hwf; simpl; [now left|].
  intros H. apply IH in H; [|now apply wf_step].
  rewrite in_app_iff. destruct H as [H|H]; [|tauto].
  apply keys_step in H; [|assumption]. simpl in H. rewrite app_nil_r in H. tauto.
Qed.

Lemma wf_init m : wf (_data (@init V m)).
Proof. constructor. Qed.

(** C1.  In a cache built from [Cache(max_size)] by any sequence of [set]
    and [get] calls, [get] returns absent for a key that no [set] was given,
    and for a key whose stored expiry is at or before the clock reading of
    the call; whenever [get] returns a value, it is the stored value of an
    entry whose expiry is strictly after that reading. *)
Theorem get_absent_or_live m (ops : list (op V)) key now :
  let c := run (init m) ops in
  (~ In key (set_keys ops) -> fst (get c key now) = None) /\
  (forall value expires,
      getitem (_data c) key = Some (value, expires) -> expires <= now ->
      fst (get c key now) = None) /\
  (forall value,
      fst (get c key now) = Some value ->
      exists expires,
        getitem (_data c) key = Some (value, expires) /\ now < expires).
Proof.
  intros c. repeat split.
  - intros Hnever. unfold get.
    destruct (getitem (_data c) key) as [[value expires]|] eqn:E; [|reflexivity].
    exfalso. apply getitem_Some_key in E.
    apply keys_run in E; [|apply wf_init]. simpl in E. tauto.
  - intros value expires Hget Hpast. unfold get. rewrite Hget.
    destruct (Z.ltb_spec now expires); [lia|reflexivity].
  - intros value. unfold get.
    destruct (getitem (_data c) key) as [[value' expires]|]; [|discriminate].
    destruct (Z.ltb_spec now expires); simpl; [|discriminate].
    intros [= ->]. eauto.
Qed.

(** An untouched key keeps its entry or loses it; it never changes. *)
Lemma getitem_run_stable c (ops : list (op V)) k x :
  wf (_data c) -> ~ In k (set_keys ops) ->
  getitem (_data (run c ops)) k = Some x -> getitem (_data c) k = Some x.
Proof.
  revert c. induction ops as [|o ops IH]; intros c Hwf Hk; simpl; [auto|].
  simpl in Hk. rewrite in_app_iff in Hk. intros H.
  apply IH in H; [|now apply wf_step|tauto].
  destruct o as [key value ttl now now'|key now]; simpl in *.
  - rewrite getitem_setitem_ne in H by tauto.
    now apply getitem_make_room_inv in H.
  - unfold get in H. destruct (getitem (_data c) key) as [[value expires]|] eqn:E;
      [|assumption].
    destruct (now <? expires); simpl in H; [assumption|].
    destruct (String.eqb_spec key k) as [->|Hne].
    + now rewrite getitem_delitem_eq in H.
    + now rewrite getitem_delitem_ne in H.
Qed.

(** An entry outlives every operation that neither sets its key, nor drops
    it under size pressure, nor reads the clock at or past its expiry. *)
Lemma getitem_run_keep c (ops : list (op V)) k value expires :
  wf (_data c) -> ~ In k (set_keys ops) -> ~ In k (dropped c ops) ->
  Forall (fun o => Forall (fun r => r < expires) (clock_reads o)) ops ->
  getitem (_data c) k = Some (value, expires) ->
  getitem (_data (run c ops)) k = Some (value, expires).
Proof.
  revert c. induction ops as [|o ops IH]; intros c Hwf Hk Hd Hclock Hget;
    simpl; [assumption|].
  simpl in Hk, Hd. rewrite in_app_iff in Hk, Hd.
  inversion Hclock as [|? ? Ho Hclock']; subst.
  apply IH; [now apply wf_step|tauto|tauto|assumption|].
  destruct o as [key v ttl now now'|key now]; simpl in *.
  - rewrite getitem_setitem_ne by tauto.
    inversion Ho; subst. apply getitem_make_room_keep; tauto.
  - inversion Ho; subst. unfold get.
    destruct (getitem (_data c) key) as [[v e]|] eqn:E; [|assumption].
    destruct (Z.ltb_spec now e); simpl; [assumption|].
    destruct (String.eqb_spec key k) as [->|Hne].
    + rewrite Hget in E. injection E as -> ->. lia.
    + now rewrite getitem_delitem_ne.
Qed.

(** C2.  After [set(k, v, ttl)] with [ttl > 0], [get(k)] returns [v] at once
    and at every clock reading less than [ttl] seconds after the one of the
    [set], across any operations in between that do not set [k], do not
    drop [k] under size pressure and read the clock no later than that
    [get]; from [ttl] seconds on, [get(k)] returns absent whatever reads or
    evictions came in between. *)
Theorem get_after_set c k v ttl now now' (ops : list (op V)) t :
  wf (_data c) -> 0 < ttl -> ~ In k (set_keys ops) ->
  let c1 := set c k v ttl now now' in
  let c2 := run c1 ops in
  fst (get c1 k now') = Some v /\
  (t - now' < seconds ttl ->
   ~ In k (dropped c1 ops) ->
   Forall (fun o => Forall (fun r => r <= t) (clock_reads o)) ops ->
   fst (get c2 k t) = Some v) /\
  (seconds ttl <= t - now' -> fst (get c2 k t) = None).
Proof.
  intros Hwf Httl Hk c1 c2.
  assert (Hwf1 : wf (_data c1)).
  { apply (wf_step c (Set_ k v ttl now now')). exact Hwf. }
  assert (Hget1 : getitem (_data c1) k = Some (v, now' + seconds ttl)).
  { apply getitem_setitem_eq. }
  repeat split.
  - unfold get. rewrite Hget1.
    destruct (Z.ltb_spec now' (now' + seconds ttl)) as [|Hbad]; [reflexivity|].
    unfold seconds, TICKS_PER_SECOND in Hbad. lia.
  - intros Hlt Hkeep Hclock. unfold get, c2.
    rewrite (getitem_run_keep c1 ops k v (now' + seconds ttl)); try assumption.
    + destruct (Z.ltb_spec t (now' + seconds ttl)); [reflexivity|lia].
    + eapply List.Forall_impl; [|exact Hclock]. intros o Ho.
      eapply List.Forall_impl; [|exact Ho]. intros r Hr. simpl in Hr. lia.
  - intros Hge. unfold get.
    destruct (getitem (_data c2) k) as [[v' e]|] eqn:E; [|reflexivity].
    unfold c2 in E. apply getitem_run_stable in E; try assumption.
    rewrite Hget1 in E. injection E as -> <-.
    destruct (Z.ltb_spec t (now' + seconds ttl)); [lia|reflexivity].
Qed.

(** C3.  A [set] on a cache below capacity evicts nothing.  At capacity it
    first removes exactly the entries whose expiry is at or before the
    clock reading; if the count is still at capacity it then removes
    [max_size // 10] entries, taken in ascending order of expiry, none of
    them expiring later than an entry that stays; and only then stores the
    new entry. *)
Theorem set_eviction c key value ttl now now' :
  wf (_data c) -> 0 <= _max_size c ->
  let d := _data c in
  let m := _max_size c in
  let live := List.filter (fun kv => now <? expires_of kv) d in
  let stored := (value, now' + seconds ttl) in
  let d' := _data (set c key value ttl now now') in
  (len d < m -> d' = setitem d key stored) /\
  (m <= len d -> len live < m -> d' = setitem live key stored) /\
  (m <= len d -> m <= len live ->
   exists gone kept,
     Permutation live (gone ++ kept) /\
     kept = List.filter
              (fun kv => negb (existsb (String.eqb (fst kv)) (keys gone))) live /\
     len gone = m / 10 /\
     StronglySorted le_expiry gone /\
     (forall x y, In x gone -> In y kept -> le_expiry x y) /\
     d' = setitem kept key stored).
Proof.
  intros Hwf Hm d m live stored d'. unfold d', set. simpl. fold d m stored.
  pose proof (make_room_cases m d now Hwf Hm) as Hc. cbv zeta in Hc.
  fold live in Hc.
  destruct Hc as [(H1 & -> & _)|[(H1 & H2 & -> & _)|(H1 & H2 & -> & _)]].
  - repeat split; intros; try lia; reflexivity.
  - repeat split; intros; try lia; reflexivity.
  - repeat split; intros; try lia.
    set (n := Z.to_nat (m / 10)).
    assert (Hl : wf live) by now apply wf_filter.
    destruct (drop_earliest live n Hl) as (Hkept & Hperm & Hord).
    exists (firstn n (sorted live)), (delitems live (keys (firstn n (sorted live)))).
    repeat split; try assumption.
    + unfold len. rewrite firstn_length_le.
      * unfold n. rewrite Z2Nat.id; [reflexivity|apply Z.div_pos; lia].
      * rewrite length_sorted. unfold n, len in *.
        assert (m / 10 <= m) by (apply Z.div_le_upper_bound; lia). lia.
    + apply StronglySorted_firstn, sorted_sorted.
Qed.

Lemma len_setitem_le d k (e : @entry V) : len (setitem d k e) <= len d + 1.
Proof. unfold len. pose proof (length_setitem_le d k e). lia. Qed.

Lemma len_drop_earliest d n :
  wf d -> (n <= length d)%nat ->
  len (delitems d (keys (firstn n (sorted d)))) = len d - Z.of_nat n.
Proof.
  intros Hwf Hn. destruct (drop_earliest d n Hwf) as (_ & Hperm & _).
  apply Permutation_length in Hperm. rewrite length_app in Hperm.
  rewrite firstn_length_le in Hperm by (now rewrite length_sorted).
  unfold len. lia.
Qed.

(** The capacity block frees a slot whenever the cache is full. *)
Lemma make_room_len m d now :
  wf d -> 10 <= m -> len d <= m ->
  len (make_room m d now) <= m - 1 /\
  (m <= len d -> len (make_room m d now) < len d) /\
  (m <= len d -> expired d now = [] -> len (make_room m d now) = len d - m / 10).
Proof.
  intros Hwf Hm Hlen.
  assert (H10 : 1 <= m / 10) by (apply Z.div_le_lower_bound; lia).
  assert (Hle : m / 10 <= m) by (apply Z.div_le_upper_bound; lia).
  pose proof (len_filter_le (fun kv => now <? expires_of kv) d) as Hlive.
  pose proof (purge_filter d now Hwf) as Hpurge.
  destruct (make_room_cases m d now Hwf ltac:(lia))
    as [(H1 & -> & _)|[(H1 & H2 & -> & _)|(H1 & H2 & -> & _)]].
  - repeat split; intros; try lia.
  - repeat split; intros; try lia.
    rewrite <- Hpurge in H2. rewrite H0 in H2. simpl in H2. lia.
  - rewrite len_drop_earliest.
    + rewrite Z2Nat.id by lia. repeat split; intros; lia.
    + now apply wf_filter.
    + unfold len in *. lia.
Qed.

(** C10 (as amended).  With a capacity of at least ten, as the module's
    instance of 1000 is, the cache never holds more than [max_size]
    entries: when the count has reached [max_size] before an insert, the
    capacity block removes at least one entry first, and [max_size // 10]
    of them when no entry has expired. *)
Theorem size_bounded m (ops : list (op V)) :
  10 <= m ->
  let d := _data (run (init m) ops) in
  len d <= m /\
  (forall now, m <= len d -> len (make_room m d now) < len d) /\
  (forall now, m <= len d -> expired d now = [] ->
               len (make_room m d now) = len d - m / 10).
Proof.
  intros Hm d.
  assert (Hinv : wf d /\ len d <= m).
  { unfold d. generalize (wf_init m).
    assert (Hsz : _max_size (@init V m) = m) by reflexivity.
    assert (H0 : len (_data (@init V m)) <= m) by (simpl; unfold len; simpl; lia).
    revert Hsz H0. generalize (@init V m) as c.
    induction ops as [|o ops IH]; intros c Hsz H0 Hwf; simpl; [auto|].
    apply IH; [now rewrite max_size_step| |now apply wf_step].
    destruct o as [key value ttl now now'|key now]; simpl.
    - rewrite Hsz.
      pose proof (make_room_len m (_data c) now Hwf Hm H0) as [Hroom _].
      pose proof (len_setitem_le (make_room m (_data c) now) key
                    (value, now' + seconds ttl)). lia.
    - unfold get. destruct (getitem (_data c) key) as [[value expires]|]; [|assumption].
      destruct (now <? expires); simpl; [assumption|].
      rewrite delitem_filter by assumption.
      pose proof (len_filter_le (fun kv => negb (String.eqb (fst kv) key)) (_data c)).
      lia. }
  destruct Hinv as [Hwf Hlen]. split; [assumption|].
  split; intros now; apply (make_room_len m d now Hwf Hm Hlen).
Qed.

End facts.

(** C1, C2 and C3 on concrete caches. *)

Lemma get_after_set_witness :
  let c := @init string 1000 in
  let ops := [Get "tier:alice" (seconds 10);
              Set_ "all_tokens" "[]" 120 (seconds 20) (seconds 20)] in
  wf (_data c) /\ 0 < 300 /\ ~ In "tier:alice" (set_keys ops) /\
  fst (get (run (set c "tier:alice" "premium" 300 0 0) ops) "tier:alice"
         (seconds 299)) = Some "premium" /\
  fst (get (run (set c "tier:alice" "premium" 300 0 0) ops) "tier:alice"
         (seconds 300)) = None.
Proof.
  intros c ops.
  assert (Hwf : wf (_data c)) by constructor.
  assert (Hk : ~ In "tier:alice" (set_keys ops)).
  { simpl. intros [H|[]]. discriminate H. }
  split; [exact Hwf|]. split; [lia|]. split; [exact Hk|]. split.
  - apply (get_after_set c "tier:alice" "premium" 300 0 0 ops (seconds 299) Hwf
             ltac:(lia) Hk).
    + vm_compute. reflexivity.
    + simpl. tauto.
    + repeat constructor; vm_compute; discriminate.
  - apply (get_after_set c "tier:alice" "premium" 300 0 0 ops (seconds 300) Hwf
             ltac:(lia) Hk).
    vm_compute. discriminate.
Defined.

Lemma set_eviction_witness :
  let c := Samples.ten_cache in
  wf (_data c) /\ 0 <= _max_size c /\
  exists gone kept,
    Permutation (_data c) (gone ++ kept) /\
    len gone = 1 /\
    (forall x y, In x gone -> In y kept -> le_expiry x y) /\
    _data (set c "k" 11 300 10 10) = setitem kept "k" (11, 10 + seconds 300).
Proof.
  intros c.
  assert (Hwf : wf (_data c)).
  { repeat constructor; simpl; intuition discriminate. }
  assert (Hm : 0 <= _max_size c) by (simpl; lia).
  split; [exact Hwf|]. split; [exact Hm|].
  destruct (set_eviction c "k" 11 300 10 10 Hwf Hm) as (_ & _ & H).
  destruct H as (gone & kept & Hperm & _ & Hlen & _ & Hord & Hset).
  - vm_compute. discriminate.
  - vm_compute. discriminate.
  - exists gone, kept. repeat split; assumption.
Defined.

Lemma size_bounded_witness :
  10 <= 1000 /\ len (_data Samples.full_cache) <= 1000.
Proof.
  split; [lia|]. apply (size_bounded 1000 Samples.fill_ops). lia.
Defined.

(** C10, as stated, fails: a full cache of capacity 1000 in which a single
    entry has expired makes room by evicting that entry alone, not 100. *)
Lemma eviction_below_tenth :
  len (_data Samples.full_cache) = 1000 /\
  len (_data Samples.full_cache)
  - len (make_room 1000 (_data Samples.full_cache) (seconds 5)) = 1 /\
  1 < 1000 / 10.
Proof. vm_compute. repeat split; reflexivity. Qed.

End CacheFacts.

(** ** The rate gates *)

Module RateGateFacts.

Import RateGate.

Lemma seconds_lt a b : a < b -> seconds a < seconds b.
Proof. unfold seconds, TICKS_PER_SECOND. lia. Qed.

Lemma length_filter_le_of {A} (f g : A -> bool) (l : list A) :
  (forall x, In x l -> f x = true -> g x = true) ->
  (length (List.filter f l) <= length (List.filter g l))%nat.
Proof.
  induction l as [|x l IH]; simpl; intros H; [lia|].
  assert (IH' := IH (fun y Hy => H y (or_intror Hy))).
  destruct (f x) eqn:Hf.
  - rewrite (H x (or_introl eq_refl) Hf). simpl. lia.
  - destruct (g x); simpl; lia.
Qed.

Lemma filter_none {A} (f : A -> bool) (l : list A) :
  (forall x, In x l -> f x = false) -> List.filter f l = [].
Proof.
  induction l as [|x l IH]; simpl; intros H; [reflexivity|].
  rewrite (H x (or_introl eq_refl)). apply IH. intros y Hy. apply H. now right.
Qed.

Lemma length_window_le now l : (length (window now l) <= length l)%nat.
Proof. apply List.filter_length_le. Qed.

(** Pruning at a reading less than 60 seconds after [t1] keeps every
    reading made since [t1]. *)
Lemma since_window t1 now l :
  now - t1 < seconds 60 -> since t1 (window now l) = since t1 l.
Proof.
  intros Hnear. unfold since, window. rewrite PyDictFacts.filter_filter.
  f_equal. apply List.filter_ext. intros x.
  destruct (Z.leb_spec t1 x); [|now rewrite andb_false_r].
  rewrite andb_true_r. apply Z.ltb_lt. lia.
Qed.

Lemma since_le_window t1 now l :
  now - t1 < seconds 60 -> (since t1 l <= length (window now l))%nat.
Proof.
  intros Hnear. rewrite <- (since_window t1 now l Hnear).
  apply List.filter_length_le.
Qed.

(** Pruning at a later reading keeps no more than pruning at [t1]. *)
Lemma window_mono t1 now l :
  t1 <= now -> (length (window now l) <= length (window t1 l))%nat.
Proof.
  intros Hle. apply length_filter_le_of. intros x _ H.
  apply Z.ltb_lt in H. apply Z.ltb_lt. lia.
Qed.

Lemma window_window_le t1 now l :
  (length (window t1 (window now l)) <= length (window t1 l))%nat.
Proof.
  unfold window. rewrite PyDictFacts.filter_filter.
  apply length_filter_le_of. intros x _ H. now apply andb_true_iff in H as [_ H].
Qed.

Section trace.
Context {State Req : Type}.
Variables (stamps : State -> string -> list Z)
          (who : Req -> string) (when : Req -> Z)
          (step : State -> Req -> State * bool)
          (limit : Z).
Hypothesis Hself : prunes_then_gates stamps who when step limit.
Hypothesis Hother : spares_others stamps who when step.

Local Abbreviation run := (run step).
Local Abbreviation issued := (issued who).
Local Abbreviation admitted := (admitted who).

(** A step at a reading in [[t1, t1 + 60s)] loses no reading made since
    [t1], and an admitted request of [u] adds one. *)
Lemma since_step s r u t1 :
  t1 <= when r -> when r - t1 < seconds 60 ->
  (since t1 (stamps s u)
   + (if String.eqb (who r) u && (step s r).2 then 1 else 0)
   <= since t1 (stamps (step s r).1 u))%nat.
Proof.
  intros Hlo Hhi. destruct (String.eqb_spec (who r) u) as [<-|Hne]; simpl.
  - pose proof (Hself s r) as H. cbv zeta in H.
    destruct (limit <=? _) in H; destruct H as [-> ->]; simpl.
    + rewrite since_window by assumption. lia.
    + unfold since at 2. rewrite List.filter_app, length_app. simpl.
      destruct (Z.leb_spec t1 (when r)); [|lia]. simpl.
      fold (since t1 (window (when r) (stamps s (who r)))).
      rewrite since_window by assumption. lia.
  - destruct (Hother s r u ltac:(congruence)) as [->|[-> Hold]]; [lia|].
    simpl. unfold since. rewrite Nat.add_0_r.
    assert (Hnone : List.filter (fun x => t1 <=? x) (stamps s u) = []).
    { apply filter_none. intros x Hx. rewrite List.Forall_forall in Hold.
      specialize (Hold x Hx). pose proof (seconds_lt 60 300 ltac:(lia)).
      apply Z.leb_gt. lia. }
    rewrite Hnone. simpl. lia.
Qed.

Lemma since_run reqs s u t1 t :
  Forall (fun q => t1 <= when q <= t) reqs -> t - t1 < seconds 60 ->
  (since t1 (stamps s u) + admitted u reqs (run s reqs).2
   <= since t1 (stamps (run s reqs).1 u))%nat.
Proof.
  intros Hreqs Hnear. revert s.
  induction Hreqs as [|r reqs [Hlo Hhi] Hreqs IH]; intros s; simpl.
  - unfold RateGate.admitted. simpl. lia.
  - pose proof (since_step s r u t1 Hlo ltac:(lia)) as Hstep.
    destruct (step s r) as [s1 ok] eqn:E1. specialize (IH s1).
    destruct (run s1 reqs) as [s2 oks] eqn:E2. simpl in *.
    unfold RateGate.admitted in *. simpl.
    destruct (String.eqb (who r) u && ok); simpl; lia.
Qed.

(** Once [limit] requests of a sender were admitted within 60 seconds, the
    sender's next request in those 60 seconds is rejected. *)
Lemma capped s reqs r t1 :
  Forall (fun q => t1 <= when q <= when r) reqs ->
  when r - t1 < seconds 60 ->
  limit <= Z.of_nat (admitted (who r) reqs (run s reqs).2) ->
  (step (run s reqs).1 r).2 = false.
Proof.
  intros Hreqs Hnear Hfull.
  pose proof (since_run reqs s (who r) t1 (when r) Hreqs Hnear) as Hsince.
  pose proof (since_le_window t1 (when r) (stamps (run s reqs).1 (who r)) Hnear)
    as Hwin.
  pose proof (Hself (run s reqs).1 r) as H. cbv zeta in H.
  destruct (Z.leb_spec limit
              (Z.of_nat (length (window (when r) (stamps (run s reqs).1 (who r))))));
    [tauto|lia].
Qed.

(** A sender with fewer than [limit] readings in the window is admitted. *)
Lemma admits_below_limit s r :
  Z.of_nat (length (window (when r) (stamps s (who r)))) < limit ->
  (step s r).2 = true /\
  stamps (step s r).1 (who r) = window (when r) (stamps s (who r)) ++ [when r].
Proof.
  intros Hlt. pose proof (Hself s r) as H. cbv zeta in H.
  destruct (Z.leb_spec limit
              (Z.of_nat (length (window (when r) (stamps s (who r))))));
    [lia|exact H].
Qed.

(** A step at or after [t1] adds at most one reading to the window of [t1],
    and only for the sender. *)
Lemma recent_step s r u t1 :
  t1 <= when r ->
  (length (window t1 (stamps (step s r).1 u))
   <= length (window t1 (stamps s u))
      + (if String.eqb (who r) u then 1 else 0))%nat.
Proof.
  intros Hlo. destruct (String.eqb_spec (who r) u) as [<-|Hne].
  - pose proof (Hself s r) as H. cbv zeta in H.
    pose proof (window_window_le t1 (when r) (stamps s (who r))).
    destruct (limit <=? _) in H; destruct H as [_ ->]; [lia|].
    unfold window at 1. rewrite List.filter_app, length_app.
    pose proof (List.filter_length_le (fun t => t1 - t <? seconds 60) [when r]).
    simpl in *. fold (window t1 (window (when r) (stamps s (who r)))). lia.
  - destruct (Hother s r u ltac:(congruence)) as [->|[-> _]]; simpl; lia.
Qed.

Lemma fresh_run reqs s u t1 :
  Forall (fun q => t1 <= when q) reqs ->
  Z.of_nat (length (window t1 (stamps s u)) + issued u reqs) <= limit ->
  Forall2 (fun q ok => who q = u -> ok = true) reqs (run s reqs).2.
Proof.
  intros Hreqs. revert s.
  induction Hreqs as [|r reqs Hlo Hreqs IH]; intros s Hroom; simpl.
  - constructor.
  - pose proof (recent_step s r u t1 Hlo) as Hstep.
    assert (Hok : who r = u -> (step s r).2 = true).
    { intros <-. apply admits_below_limit.
      pose proof (window_mono t1 (when r) (stamps s (who r)) Hlo).
      unfold RateGate.issued in Hroom. simpl in Hroom.
      rewrite String.eqb_refl in Hroom. simpl in Hroom. lia. }
    destruct (step s r) as [s1 ok] eqn:E1. specialize (IH s1).
    destruct (run s1 reqs) as [s2 oks] eqn:E2. simpl in *.
    constructor; [exact Hok|]. apply IH.
    unfold RateGate.issued in *. simpl in Hroom.
    destruct (String.eqb (who r) u); simpl in *; lia.
Qed.

Lemma admitted_all reqs oks u :
  Forall2 (fun q ok => who q = u -> ok = true) reqs oks ->
  admitted u reqs oks = issued u reqs.
Proof.
  unfold RateGate.admitted, RateGate.issued.
  induction 1 as [|q ok reqs oks Hq _ IH]; simpl; [reflexivity|].
  destruct (String.eqb_spec (who q) u) as [Heq|Hne]; simpl; [|exact IH].
  rewrite (Hq Heq). simpl. now rewrite IH.
Qed.

Lemma idle_window t1 l :
  Forall (fun x => seconds 60 <= t1 - x) l -> window t1 l = [].
Proof.
  intros Hidle. apply filter_none. intros x Hx.
  rewrite List.Forall_forall in Hidle. specialize (Hidle x Hx).
  apply Z.ltb_ge. lia.
Qed.

(** The burst: a sender idle for 60 seconds issues [limit] requests; all
    are admitted, and one more within 60 seconds of the first is rejected. *)
Lemma burst s reqs r t1 :
  Forall (fun x => seconds 60 <= t1 - x) (stamps s (who r)) ->
  Forall (fun q => t1 <= when q <= when r) reqs ->
  Z.of_nat (issued (who r) reqs) = limit ->
  Forall2 (fun q ok => who q = who r -> ok = true) reqs (run s reqs).2 /\
  (when r - t1 < seconds 60 -> (step (run s reqs).1 r).2 = false).
Proof.
  intros Hidle Hreqs Hcount.
  assert (Hall : Forall2 (fun q ok => who q = who r -> ok = true) reqs (run s reqs).2).
  { apply fresh_run with (t1 := t1).
    - eapply List.Forall_impl; [|exact Hreqs]. intros q Hq. simpl in Hq. lia.
    - rewrite (idle_window t1 _ Hidle). simpl. lia. }
  split; [exact Hall|]. intros Hnear.
  apply capped with (t1 := t1); try assumption.
  rewrite (admitted_all _ _ _ Hall). lia.
Qed.

Lemma burst_capped : caps_bursts stamps who when step limit.
Proof. exact burst. Qed.

Lemma rolling : rolls_forward stamps who when step limit.
Proof.
  intros s r Hpos Hidle. pose proof (idle_window (when r) _ Hidle) as Hw.
  destruct (admits_below_limit s r) as [Hok Hst].
  - rewrite Hw. simpl. lia.
  - split; [exact Hok|]. now rewrite Hst, Hw.
Qed.

End trace.

End RateGateFacts.

Module SecurityFacts.

Import RateGate RateGateFacts Security.

Lemma stamps_insert_eq (m : gmap string (list Z)) u l :
  stamps_of (<[u := l]> m) u = l.
Proof. unfold stamps_of. now rewrite lookup_insert_eq. Qed.

Lemma stamps_insert_ne (m : gmap string (list Z)) u v l :
  u <> v -> stamps_of (<[u := l]> m) v = stamps_of m v.
Proof. intros Hne. unfold stamps_of. now rewrite lookup_insert_ne. Qed.

Lemma py_max_ge t v : t <= py_max t v /\ Forall (fun x => x <= py_max t v) v.
Proof.
  unfold py_max. revert t. induction v as [|y v IH]; intros t; simpl.
  - split; [lia|constructor].
  - destruct (IH (Z.max t y)) as [Hm Hall]. split; [lia|].
    constructor; [lia|exact Hall].
Qed.

(** A list that holds the current reading is not stale. *)
Lemma stale_current now l : stale now (l ++ [now]) = false.
Proof.
  destruct (l ++ [now]) as [|t v] eqn:E.
  - now destruct l.
  - simpl. apply Z.ltb_ge.
    assert (Hin : In now (t :: v)) by (rewrite <- E; apply in_app_iff; simpl; tauto).
    destruct (py_max_ge t v) as [Ht Hv]. rewrite List.Forall_forall in Hv.
    assert (now <= py_max t v) by (destruct Hin as [->|Hin]; auto).
    unfold seconds, TICKS_PER_SECOND. lia.
Qed.

(** Every reading of a stale list is more than 300 seconds old. *)
Lemma stale_old now l :
  stale now l = true -> Forall (fun x => seconds 300 < now - x) l.
Proof.
  destruct l as [|t v]; simpl; intros H; [constructor|].
  apply Z.ltb_lt in H. destruct (py_max_ge t v) as [Ht Hv].
  constructor; [lia|]. eapply List.Forall_impl; [|exact Hv].
  intros x Hx. simpl in Hx. lia.
Qed.

Lemma stamps_sweep now (m : gmap string (list Z)) u :
  (stale now (stamps_of m u) = false /\ stamps_of (sweep now m) u = stamps_of m u)
  \/ (stale now (stamps_of m u) = true /\ stamps_of (sweep now m) u = []).
Proof.
  unfold stamps_of, sweep.
  destruct (m !! u) as [l|] eqn:E; simpl.
  - destruct (stale now l) eqn:Hs; [right|left]; split; try reflexivity.
    + rewrite map_lookup_filter_None_2; [reflexivity|].
      right. intros x Hx. simpl. congruence.
    + erewrite map_lookup_filter_Some_2; [reflexivity|eassumption|exact Hs].
  - right. split; [reflexivity|].
    rewrite map_lookup_filter_None_2; [reflexivity|]. now left.
Qed.

Lemma admitted_iff res :
  admitted res = false <-> snd res = Some RATE_LIMITED.
Proof.
  unfold admitted. destruct (snd res) as [e|]; [|split; discriminate].
  rewrite negb_false_iff, String.eqb_eq. split; congruence.
Qed.

(** What [check] does to the timestamps, by cases on the pruned length. *)
Lemma check_stamps cfg s now user message :
  let pruned := window now (stamps s user) in
  let out := check cfg s now user message in
  if rate_limit_per_minute cfg <=? Z.of_nat (length pruned) then
    out.2 = (None, Some RATE_LIMITED) /\
    stamps out.1 user = pruned /\
    _check_count out.1 = _check_count s /\
    (forall v, v <> user -> stamps out.1 v = stamps s v)
  else
    admitted out.2 = true /\
    stamps out.1 user = pruned ++ [now] /\
    _check_count out.1 = _check_count s + 1 /\
    (forall v, v <> user ->
       stamps out.1 v = stamps s v \/
       (stamps out.1 v = [] /\ stale now (stamps s v) = true)).
Proof.
  intros pruned out. unfold out, check, stamps. fold (stamps s user). fold pruned.
  destruct (rate_limit_per_minute cfg <=? Z.of_nat (length pruned)).
  - simpl. repeat split; [apply stamps_insert_eq|].
    intros v Hv. now apply stamps_insert_ne.
  - set (r2 := <[user := pruned ++ [now]]> (<[user := pruned]> (_requests s))).
    set (n := _check_count s + 1).
    set (r3 := if n mod 100 =? 0 then sweep now r2 else r2).
    assert (Hself : stamps_of r3 user = pruned ++ [now]).
    { unfold r3. destruct (n mod 100 =? 0); [|apply stamps_insert_eq].
      destruct (stamps_sweep now r2 user) as [[_ ->]|[Hs _]];
        [apply stamps_insert_eq|].
      unfold r2 in Hs. rewrite stamps_insert_eq, stale_current in Hs.
      discriminate. }
    assert (Hoth : forall v, v <> user ->
              stamps_of r3 v = stamps_of (_requests s) v \/
              (stamps_of r3 v = [] /\ stale now (stamps_of (_requests s) v) = true)).
    { intros v Hv.
      assert (Hr2 : stamps_of r2 v = stamps_of (_requests s) v).
      { unfold r2. rewrite !stamps_insert_ne by congruence. reflexivity. }
      unfold r3. destruct (n mod 100 =? 0); [|now left].
      destruct (stamps_sweep now r2 v) as [[_ ->]|[Hs ->]]; [now left|].
      right. now rewrite <- Hr2. }
    destruct (String.eqb message "" || String.eqb (strip message) "");
      [|destruct (max_input_length cfg <? str_len message)];
      simpl; repeat split; auto.
Qed.

Lemma step_prunes_then_gates cfg :
  prunes_then_gates stamps sender clock (step cfg) (rate_limit_per_minute cfg).
Proof.
  intros s r pruned. unfold step.
  pose proof (check_stamps cfg s (clock r) (sender r) (text r)) as H.
  cbv zeta in H. fold pruned in H.
  destruct (check cfg s (clock r) (sender r) (text r)) as [s' res]. simpl in *.
  destruct (rate_limit_per_minute cfg <=? Z.of_nat (length pruned)).
  - destruct H as (-> & Hst & _). split; [reflexivity|exact Hst].
  - destruct H as (Hok & Hst & _). split; assumption.
Qed.

Lemma step_spares_others cfg : spares_others stamps sender clock (step cfg).
Proof.
  intros s r u Hne. unfold step.
  pose proof (check_stamps cfg s (clock r) (sender r) (text r)) as H.
  cbv zeta in H.
  destruct (check cfg s (clock r) (sender r) (text r)) as [s' res]. simpl in *.
  destruct (rate_limit_per_minute cfg <=? _).
  - destruct H as (_ & _ & _ & Hoth). left. now apply Hoth.
  - destruct H as (_ & _ & _ & Hoth).
    destruct (Hoth u Hne) as [Hsame|[Hnil Hs]]; [now left|right].
    split; [exact Hnil|]. now apply stale_old.
Qed.

End SecurityFacts.

Module PriceMonitorFacts.

Import RateGate RateGateFacts PriceMonitor.

Lemma check_rate_limit_stamps limit rl now user :
  let pruned := window now (stamps_of rl user) in
  let out := check_rate_limit limit rl now user in
  (if limit <=? Z.of_nat (length pruned) then
     out.2 = Some RATE_LIMITED /\ stamps_of out.1 user = pruned
   else out.2 = None /\ stamps_of out.1 user = pruned ++ [now]) /\
  (forall v, v <> user -> stamps_of out.1 v = stamps_of rl v).
Proof.
  intros pruned out. unfold out, check_rate_limit. fold pruned.
  destruct (limit <=? Z.of_nat (length pruned)); simpl.
  - split; [split; [reflexivity|apply SecurityFacts.stamps_insert_eq]|].
    intros v Hv. now apply SecurityFacts.stamps_insert_ne.
  - split; [split; [reflexivity|apply SecurityFacts.stamps_insert_eq]|].
    intros v Hv. rewrite !SecurityFacts.stamps_insert_ne by congruence. reflexivity.
Qed.

Lemma call_prunes_then_gates limit :
  prunes_then_gates stamps_of fst snd (step limit) limit.
Proof.
  intros s r pruned. unfold step.
  destruct (check_rate_limit_stamps limit s r.2 r.1) as [H _]. fold pruned in H.
  destruct (check_rate_limit limit s r.2 r.1) as [rl err]. simpl in *.
  destruct (limit <=? Z.of_nat (length pruned)); destruct H as [-> ->]; auto.
Qed.

Lemma call_spares_others limit : spares_others stamps_of fst snd (step limit).
Proof.
  intros s r u Hne. unfold step.
  destruct (check_rate_limit_stamps limit s r.2 r.1) as [_ H].
  destruct (check_rate_limit limit s r.2 r.1) as [rl err]. simpl in *.
  left. now apply H.
Qed.

End PriceMonitorFacts.


Module RateLimitSpec.

Import RateGate.

(** C4.  For every sender, the check of data-agent.py's [Security] and
    price-monitor-agent.py's [check_rate_limit] first prune the sender's
    timestamps to those less than 60 seconds old; at [limit] or more pruned
    timestamps they return the rate-limit error and record nothing; below it
    they append the clock reading and go on (to the message checks, or to
    return no error).  Hence a sender with no timestamp in the last 60
    seconds who issues [limit] requests has them admitted and has one more
    request within 60 seconds of the first rejected, whatever other senders
    do in between; and once the sender's timestamps are all 60 seconds old,
    the next request is admitted. *)
Theorem rate_gate (cfg : Security.Business) (limit' : Z) :
  let limit := Security.rate_limit_per_minute cfg in
  (forall s now user message,
     let pruned := window now (Security.stamps s user) in
     let out := Security.check cfg s now user message in
     if limit <=? Z.of_nat (length pruned) then
       out.2 = (None, Some RATE_LIMITED) /\ Security.stamps out.1 user = pruned
     else
       out.2.2 <> Some RATE_LIMITED /\
       Security.stamps out.1 user = pruned ++ [now] /\
       (strip message <> "" ->
        str_len message <= Security.max_input_length cfg ->
        out.2 = (Some (strip message), None))) /\
  (forall rl now user,
     let pruned := window now (stamps_of rl user) in
     let out := PriceMonitor.check_rate_limit limit' rl now user in
     if limit' <=? Z.of_nat (length pruned) then
       out.2 = Some RATE_LIMITED /\ stamps_of out.1 user = pruned
     else out.2 = None /\ stamps_of out.1 user = pruned ++ [now]) /\
  caps_bursts Security.stamps Security.sender Security.clock
    (Security.step cfg) limit /\
  rolls_forward Security.stamps Security.sender Security.clock
    (Security.step cfg) limit /\
  caps_bursts stamps_of fst snd (PriceMonitor.step limit') limit' /\
  rolls_forward stamps_of fst snd (PriceMonitor.step limit') limit'.
Proof.
  intros limit. repeat apply conj.
  - intros s now user message pruned out.
    pose proof (SecurityFacts.check_stamps cfg s now user message) as H.
    cbv zeta in H. fold pruned out limit in H.
    destruct (limit <=? Z.of_nat (length pruned)) eqn:Hfull.
    + destruct H as (Hres & Hst & _). split; assumption.
    + destruct H as (Hok & Hst & _). repeat split; [|exact Hst|].
      * intros Hrl. apply (proj2 (SecurityFacts.admitted_iff out.2)) in Hrl.
        congruence.
      * intros Hblank Hlen. unfold out, Security.check.
        fold (Security.stamps s user). fold pruned. fold limit. rewrite Hfull.
        assert (Hne : message <> "").
        { intros ->. now apply Hblank. }
        apply String.eqb_neq in Hne, Hblank. rewrite Hne, Hblank. simpl.
        destruct (Z.ltb_spec (Security.max_input_length cfg) (str_len message));
          [lia|reflexivity].
  - intros rl now user.
    exact (proj1 (PriceMonitorFacts.check_rate_limit_stamps limit' rl now user)).
  - apply RateGateFacts.burst_capped.
    + apply SecurityFacts.step_prunes_then_gates.
    + apply SecurityFacts.step_spares_others.
  - apply RateGateFacts.rolling. apply SecurityFacts.step_prunes_then_gates.
  - apply RateGateFacts.burst_capped.
    + apply PriceMonitorFacts.call_prunes_then_gates.
    + apply PriceMonitorFacts.call_spares_others.
  - apply RateGateFacts.rolling. apply PriceMonitorFacts.call_prunes_then_gates.
Qed.

(** The burst on the shipped configuration: twenty requests in twenty
    seconds pass, the twenty-first at 30 seconds is rejected, and a request
    at 80 seconds, when the window has rolled past them all, passes. *)
Example burst_of_twenty :
  let run := RateGate.run (Security.step Security.BUSINESS) in
  let s := (run Security.init Samples.burst_reqs).1 in
  (run Security.init Samples.burst_reqs).2 = repeat true 40 /\
  (Security.check Security.BUSINESS s (seconds 30) "agent1qalice" "price").2
  = (None, Some RATE_LIMITED) /\
  (Security.check Security.BUSINESS s (seconds 80) "agent1qalice" "  price ").2
  = (Some "price", None).
Proof. vm_compute. repeat split; reflexivity. Qed.

End RateLimitSpec.

(** ** The daily quota of tweet-agent.py *)

Module TweetAgentFacts.

Import TweetAgent.

Lemma length_append (a b : string) :
  String.length (a +:+ b) = (String.length a + String.length b)%nat.
Proof. induction a as [|c a IH]; simpl; [reflexivity|now rewrite IH]. Qed.

Lemma append_inj_r (a b x y : string) :
  String.length x = String.length y -> a +:+ x = b +:+ y -> a = b /\ x = y.
Proof.
  revert b. induction a as [|c a IH]; intros [|c' b] Hlen H.
  - change (x = y) in H. auto.
  - exfalso. change (x = String c' (b +:+ y)) in H. subst x.
    simpl in Hlen. rewrite length_append in Hlen. lia.
  - exfalso. change (String c (a +:+ x) = y) in H. subst y.
    simpl in Hlen. rewrite length_append in Hlen. lia.
  - change (String c (a +:+ x) = String c' (b +:+ y)) in H.
    injection H as -> H. destruct (IH b Hlen H) as [-> ->]. auto.
Qed.

Lemma append_inj_l (a x y : string) : a +:+ x = a +:+ y -> x = y.
Proof.
  induction a as [|c a IH]; intros H.
  - exact H.
  - change (String c (a +:+ x) = String c (a +:+ y)) in H.
    injection H as H. auto.
Qed.

(** The storage key determines the sender and the day, for days written
    with the same number of characters, as ISO dates are. *)
Lemma quota_key_inj u day v day' :
  String.length day = String.length day' ->
  quota_key u day = quota_key v day' -> u = v /\ day = day'.
Proof.
  unfold quota_key. intros Hlen H. apply append_inj_l in H.
  apply append_inj_r in H as [-> H].
  - apply append_inj_l in H. auto.
  - change (S (String.length day) = S (String.length day')). lia.
Qed.

(** For one sender the key changes with the day, whatever its form. *)
Lemma quota_key_day u day day' :
  quota_key u day = quota_key u day' -> day = day'.
Proof.
  unfold quota_key. intros H. apply append_inj_l in H.
  apply append_inj_l in H. now apply append_inj_l in H.
Qed.

(** One check, by cases on the counter. *)
Lemma check_free cfg ctx day u :
  let out := check_daily_quota cfg ctx day u "free" in
  if free_tweets_per_day cfg <=? count ctx u day then
    out.1 = ctx /\ out.2.1 = false /\ out.2.2 <> None
  else
    out.1 = <[quota_key u day := count ctx u day + 1]> ctx /\ out.2 = (true, None).
Proof.
  unfold check_daily_quota, count. simpl.
  destruct (free_tweets_per_day cfg <=? _get ctx (quota_key u day) 0); simpl; auto.
Qed.

(** A check touches no counter but its own. *)
Lemma check_other cfg ctx day u tier k :
  k <> quota_key u day ->
  (check_daily_quota cfg ctx day u tier).1 !! k = ctx !! k.
Proof.
  intros Hne. unfold check_daily_quota.
  destruct (_ <=? _); [destruct (String.eqb tier "free"); reflexivity|].
  unfold _set. simpl. now rewrite lookup_insert_ne.
Qed.

Lemma count_insert ctx u day n :
  count (<[quota_key u day := n]> ctx) u day = n.
Proof. unfold count, _get. now rewrite lookup_insert_eq. Qed.

Lemma run_cons cfg ctx r reqs :
  let out := check_daily_quota cfg ctx (today r) (sender r) (tier r) in
  (run cfg ctx (r :: reqs)).2 = out.2.1 :: (run cfg out.1 reqs).2.
Proof.
  simpl. destruct (check_daily_quota _ _ _ _ _) as [ctx1 [ok msg]].
  simpl. destruct (run cfg ctx1 reqs). reflexivity.
Qed.

(** The verdicts on one sender's requests of one day, from any counter. *)
Lemma verdicts_from cfg reqs ctx u day :
  Forall (fun r => String.length (today r) = String.length day) reqs ->
  Forall (fun r => is_for u day r = true -> tier r = "free") reqs ->
  let N := free_tweets_per_day cfg in
  verdicts_for u day reqs (run cfg ctx reqs).2 =
  map (fun k => count ctx u day + Z.of_nat k <? N)
      (seq 0 (length (List.filter (is_for u day) reqs))).
Proof.
  intros Hlen Hfree N. revert ctx. unfold verdicts_for.
  induction reqs as [|r reqs IH]; intros ctx; simpl; [reflexivity|].
  inversion Hlen as [|? ? Hl Hlen']; subst.
  inversion Hfree as [|? ? Hf Hfree']; subst.
  specialize (IH Hlen' Hfree').
  destruct (check_daily_quota cfg ctx (today r) (sender r) (tier r))
    as [ctx1 [ok msg]] eqn:E.
  specialize (IH ctx1). destruct (run cfg ctx1 reqs) as [ctx2 oks] eqn:E2.
  simpl in *. destruct (is_for u day r) eqn:Hr; simpl.
  - unfold is_for in Hr. apply andb_true_iff in Hr as [Hu Hd].
    apply String.eqb_eq in Hu, Hd. rewrite (Hf eq_refl), Hu, Hd in E.
    pose proof (check_free cfg ctx day u) as H. cbv zeta in H. rewrite E in H.
    simpl in H. fold N in H. rewrite IH.
    destruct (Z.leb_spec N (count ctx u day)) as [Hfull|Hroom].
    + destruct H as (-> & -> & _). rewrite <- seq_shift, List.map_map.
      f_equal; [symmetry; apply Z.ltb_ge; lia|].
      apply map_ext. intros k.
      transitivity false; [apply Z.ltb_ge|symmetry; apply Z.ltb_ge]; lia.
    + destruct H as (-> & [= -> _]). rewrite count_insert.
      rewrite <- seq_shift, List.map_map.
      f_equal; [symmetry; apply Z.ltb_lt; lia|].
      apply map_ext. intros k. f_equal. lia.
  - rewrite IH. apply map_ext. intros k. f_equal. f_equal.
    unfold count, _get. f_equal.
    replace ctx1 with (check_daily_quota cfg ctx (today r) (sender r) (tier r)).1
      by now rewrite E.
    apply check_other. intros Hkey. symmetry in Hkey.
    apply quota_key_inj in Hkey as [Hu Hd]; [|assumption].
    unfold is_for in Hr. rewrite Hu, Hd, !String.eqb_refl in Hr. discriminate.
Qed.

(** C5.  For a free-tier sender and the configured limit [N], over any
    sequence of quota checks (of any senders, days and tiers) that starts
    before the sender's counter for a day exists, the sender's [k]-th
    request of that day is allowed exactly when [k <= N]: the first [N]
    are allowed and the [(N+1)]-th is rejected.  The counter is kept per
    sender and day: in particular [N + 1] requests on one day followed by a
    request on another day, whose counter does not exist yet, are answered
    [N] times yes, once no, and yes again. *)
Theorem daily_quota cfg ctx u day :
  let N := free_tweets_per_day cfg in
  0 < N ->
  ctx !! quota_key u day = None ->
  (forall reqs,
     Forall (fun r => String.length (today r) = String.length day) reqs ->
     Forall (fun r => is_for u day r = true -> tier r = "free") reqs ->
     verdicts_for u day reqs (run cfg ctx reqs).2 =
     map (fun k => Z.of_nat k <? N)
         (seq 0 (length (List.filter (is_for u day) reqs)))) /\
  (forall day',
     day' <> day -> ctx !! quota_key u day' = None ->
     let req d := {| today := d; sender := u; tier := "free" |} in
     (run cfg ctx (repeat (req day) (Z.to_nat N + 1) ++ [req day'])).2 =
     repeat true (Z.to_nat N) ++ [false; true]).
Proof.
  intros N Hpos Hfresh. split.
  - intros reqs Hlen Hfree. rewrite verdicts_from by assumption.
    apply map_ext. intros k. unfold count, _get. now rewrite Hfresh.
  - intros day' Hday Hfresh' req.
    assert (Hgo : forall n c ctx0 rest,
              ctx0 !! quota_key u day = Some c \/ (ctx0 !! quota_key u day = None /\ c = 0) ->
              c + Z.of_nat n = N ->
              exists ctx1,
                (run cfg ctx0 (repeat (req day) n ++ rest)).2 =
                repeat true n ++ (run cfg ctx1 rest).2 /\
                count ctx1 u day = N /\
                ctx1 !! quota_key u day' = ctx0 !! quota_key u day').
    { induction n as [|n IH]; intros c ctx0 rest Hc Hsum.
      - exists ctx0. repeat split. unfold count, _get.
        destruct Hc as [->|[-> ->]]; simpl; lia.
      - change (repeat (req day) (S n) ++ rest)
          with (req day :: (repeat (req day) n ++ rest)).
        rewrite run_cons. simpl today. simpl sender. simpl tier.
        pose proof (check_free cfg ctx0 day u) as H. cbv zeta in H.
        assert (Hcount : count ctx0 u day = c).
        { unfold count, _get. destruct Hc as [->|[-> ->]]; reflexivity. }
        rewrite Hcount in H. fold N in H.
        destruct (Z.leb_spec N c); [lia|]. destruct H as [-> ->].
        destruct (IH (c + 1) (<[quota_key u day := c + 1]> ctx0) rest)
          as (ctx1 & Hrun & Hcnt & Hoth).
        + left. apply lookup_insert_eq.
        + lia.
        + exists ctx1. rewrite Hrun. repeat split; try assumption.
          rewrite Hoth. apply lookup_insert_ne. intros Hk.
          apply quota_key_day in Hk. congruence. }
    rewrite repeat_app, <- app_assoc.
    destruct (Hgo (Z.to_nat N) 0 ctx (repeat (req day) 1 ++ [req day']))
      as (ctx1 & -> & Hcnt & Hoth).
    + right. auto.
    + lia.
    + f_equal. change (repeat (req day) 1 ++ [req day']) with [req day; req day'].
      rewrite !run_cons. simpl today. simpl sender. simpl tier.
      pose proof (check_free cfg ctx1 day u) as H. cbv zeta in H.
      rewrite Hcnt in H. fold N in H. rewrite Z.leb_refl in H.
      destruct H as (-> & -> & _).
      pose proof (check_free cfg ctx1 day' u) as H. cbv zeta in H.
      assert (Hc' : count ctx1 u day' = 0).
      { unfold count, _get. now rewrite Hoth, Hfresh'. }
      rewrite Hc' in H. fold N in H.
      destruct (Z.leb_spec N 0); [lia|]. destruct H as [_ ->]. reflexivity.
Qed.

Lemma daily_quota_witness :
  0 < free_tweets_per_day BUSINESS /\
  (∅ : gmap string Z) !! quota_key "agent1qalice" "2025-03-01" = None /\
  verdicts_for "agent1qalice" "2025-03-01" Samples.quota_reqs
    (run BUSINESS ∅ Samples.quota_reqs).2 = [true; true; true; false; false].
Proof.
  split; [reflexivity|]. split; [reflexivity|].
  destruct (daily_quota BUSINESS ∅ "agent1qalice" "2025-03-01") as [H _];
    [reflexivity|reflexivity|].
  rewrite H; [reflexivity| |].
  - repeat constructor.
  - repeat constructor; vm_compute; discriminate.
Defined.

End TweetAgentFacts.

(** ** The alert sweep of trading-agent.py *)

Module TradingAgentFacts.

Import TradingAgent.

Lemma met_iff a p :
  met a p = true <->
  (condition a = "above" /\ (threshold a <= p)%Q) \/
  (condition a = "below" /\ (p <= threshold a)%Q).
Proof.
  unfold met. rewrite <- !Qle_bool_iff.
  destruct (String.eqb_spec (condition a) "above") as [Ha|Ha];
    destruct (String.eqb_spec (condition a) "below") as [Hb|Hb];
    destruct (Qle_bool (threshold a) p); destruct (Qle_bool p (threshold a));
    simpl; split; intros H; try tauto; try discriminate;
    try (destruct H as [[H1 H2]|[H1 H2]]; congruence).
Qed.

(** Positions paired with a list are the list's positions. *)
Lemma in_combine_seq {A} (l : list A) k i (a : A) :
  In (i, a) (combine (seq k (length l)) l) <-> (k <= i)%nat /\ l !! (i - k)%nat = Some a.
Proof.
  revert k. induction l as [|x l IH]; intros k; simpl.
  - split; [tauto|]. intros [_ H]. discriminate.
  - rewrite IH. split.
    + intros [[= <- <-]|[Hle H]].
      * split; [lia|]. now rewrite Nat.sub_diag.
      * split; [lia|]. replace (i - k)%nat with (S (i - S k)) by lia. exact H.
    + intros [Hle H]. destruct (i - k)%nat as [|j] eqn:E.
      * left. injection H as <-. f_equal. lia.
      * right. split; [lia|]. replace (i - S k)%nat with j by lia. exact H.
Qed.

Lemma NoDup_fst_combine_seq {A} (l : list A) k :
  List.NoDup (map fst (combine (seq k (length l)) l)).
Proof.
  revert k. induction l as [|x l IH]; intros k; simpl; constructor; [|apply IH].
  intros Hin. apply in_map_iff in Hin as [[i a] [Hfst Hin]]. simpl in Hfst. subst i.
  apply in_combine_seq in Hin as [Hle _]. lia.
Qed.

Lemma NoDup_fst_filter {A B} (f : A * B -> bool) (l : list (A * B)) :
  List.NoDup (map fst l) -> List.NoDup (map fst (List.filter f l)).
Proof.
  induction l as [|x l IH]; simpl; [constructor|].
  intros Hnd. apply List.NoDup_cons_iff in Hnd as [Hx Hnd].
  destruct (f x); simpl; [|now apply IH].
  constructor; [|now apply IH].
  intros Hin. apply Hx. apply in_map_iff in Hin as [y [Hfst Hin]].
  apply filter_In in Hin as [Hin _]. apply in_map_iff. eauto.
Qed.

(** The sweep considers the alerts that are active and not triggered. *)
Lemma in_active_alerts l i a :
  In (i, a) (active_alerts l) <->
  l !! i = Some a /\ active a = true /\ triggered a = false.
Proof.
  unfold active_alerts. rewrite filter_In, in_combine_seq, Nat.sub_0_r. simpl.
  rewrite andb_true_iff, negb_true_iff. split; [tauto|]. intros H.
  split; [split; [lia|tauto]|tauto].
Qed.

Lemma NoDup_active_alerts l : List.NoDup (map fst (active_alerts l)).
Proof. apply NoDup_fst_filter, NoDup_fst_combine_seq. Qed.

Lemma get_alerts_save ctx w l : get_alerts (save_alerts ctx w l) w = l.
Proof. unfold get_alerts, save_alerts. simpl. now rewrite lookup_insert_eq. Qed.

Lemma get_alerts_save_ne ctx w o l :
  o <> w -> get_alerts (save_alerts ctx w l) o = get_alerts ctx o.
Proof.
  intros Hne. unfold get_alerts, save_alerts. simpl.
  now rewrite lookup_insert_ne by congruence.
Qed.

(** Every notification of the inner loop is for its owner and for an alert
    on its list that fired. *)
Lemma check_owner_out f w todo ctx l n :
  In n (check_owner f w todo ctx l).2 ->
  to n = w /\ In (pos n, alert n) todo /\ fires f w (pos n) (alert n) = Some (current n).
Proof.
  revert ctx l. induction todo as [|[i a] todo IH]; intros ctx l; simpl; [tauto|].
  destruct (fires f w i a) as [p|] eqn:Hf.
  - destruct (check_owner f w todo _ _) as [ctx' out] eqn:E. simpl.
    intros [<-|Hin]; simpl; [auto|].
    specialize (IH (record_stat (save_alerts ctx w (<[i:=set_triggered a]> l))
                      "alerts_triggered") (<[i:=set_triggered a]> l)).
    rewrite E in IH. destruct (IH Hin) as (H1 & H2 & H3). auto.
  - intros Hin. destruct (IH ctx l Hin) as (H1 & H2 & H3). auto.
Qed.

(** The inner loop leaves the lists of the other owners alone. *)
Lemma check_owner_others f w todo ctx l o :
  o <> w -> get_alerts (check_owner f w todo ctx l).1 o = get_alerts ctx o.
Proof.
  intros Hne. revert ctx l. induction todo as [|[i a] todo IH]; intros ctx l;
    simpl; [reflexivity|].
  destruct (fires f w i a) as [p|]; [|apply IH].
  specialize (IH (record_stat (save_alerts ctx w (<[i:=set_triggered a]> l))
                    "alerts_triggered") (<[i:=set_triggered a]> l)).
  destruct (check_owner f w todo _ _) as [ctx' out]. simpl in *.
  rewrite IH. unfold record_stat, get_alerts. simpl.
  now rewrite lookup_insert_ne by congruence.
Qed.

(** What the inner loop stores for its owner is the list it worked on. *)
Lemma check_owner_saved f w todo ctx l :
  get_alerts ctx w = l ->
  get_alerts (check_owner f w todo ctx l).1 w = flagged f w todo l.
Proof.
  revert ctx l. induction todo as [|[i a] todo IH]; intros ctx l Hl; simpl;
    [exact Hl|].
  destruct (fires f w i a) as [p|]; [|now apply IH].
  specialize (IH (record_stat (save_alerts ctx w (<[i:=set_triggered a]> l))
                    "alerts_triggered") (<[i:=set_triggered a]> l)).
  destruct (check_owner f w todo _ _) as [ctx' out]. simpl in *.
  apply IH. unfold record_stat, get_alerts. simpl. now rewrite lookup_insert_eq.
Qed.

(** The loop never clears a flag. *)
Lemma flagged_keeps f w todo l j x :
  l !! j = Some x -> triggered x = true ->
  exists x', flagged f w todo l !! j = Some x' /\ triggered x' = true.
Proof.
  revert l x. induction todo as [|[i a] todo IH]; intros l x Hj Hx; simpl; [eauto|].
  destruct (fires f w i a) as [p|]; [|eauto].
  destruct (decide (i = j)) as [->|Hne].
  - apply (IH _ (set_triggered a)); [|reflexivity].
    apply list_lookup_insert_eq. eapply lookup_lt_Some; eauto.
  - apply (IH _ x); [|assumption]. now rewrite list_lookup_insert_ne.
Qed.

(** An alert that fires has its flag set. *)
Lemma flagged_sets f w todo l i a p :
  In (i, a) todo -> fires f w i a = Some p -> (i < length l)%nat ->
  exists x', flagged f w todo l !! i = Some x' /\ triggered x' = true.
Proof.
  revert l. induction todo as [|[j b] todo IH]; intros l Hin Hf Hi; simpl; [destruct Hin|].
  destruct Hin as [[= -> ->]|Hin].
  - rewrite Hf. apply (flagged_keeps _ _ _ _ _ (set_triggered a)); [|reflexivity].
    now apply list_lookup_insert_eq.
  - destruct (fires f w j b); [|now apply IH].
    apply IH; [assumption|assumption|now rewrite length_insert].
Qed.

(** Nothing is sent about a position that does not fire. *)
Lemma check_owner_silent f w todo ctx l o i :
  (forall a, In (i, a) todo -> o = w -> fires f w i a = None) ->
  about o i (check_owner f w todo ctx l).2 = [].
Proof.
  intros Hno. unfold about. apply RateGateFacts.filter_none. intros n Hn.
  apply check_owner_out in Hn as (Hto & Hin & Hf).
  destruct (String.eqb_spec (to n) o) as [Ho|Ho]; [|reflexivity].
  destruct (Nat.eqb_spec (pos n) i) as [Hi|Hi]; [|reflexivity].
  subst i. rewrite Hno in Hf; [discriminate|exact Hin|congruence].
Qed.

(** One notification is sent about a position that fires. *)
Lemma check_owner_once f w todo ctx l i a p :
  List.NoDup (map fst todo) -> In (i, a) todo -> fires f w i a = Some p ->
  about w i (check_owner f w todo ctx l).2 =
  [{| to := w; pos := i; alert := a; current := p |}].
Proof.
  revert ctx l. induction todo as [|[j b] todo IH]; intros ctx l Hnd Hin Hf;
    simpl in *; [destruct Hin|].
  apply List.NoDup_cons_iff in Hnd as [Hj Hnd].
  destruct Hin as [[= -> ->]|Hin].
  - rewrite Hf.
    pose proof (check_owner_silent f w todo
                  (record_stat (save_alerts ctx w (<[i:=set_triggered a]> l))
                     "alerts_triggered") (<[i:=set_triggered a]> l) w i) as Hrest.
    destruct (check_owner f w todo _ _) as [ctx' out]. simpl in *.
    unfold about in *. simpl. rewrite String.eqb_refl, Nat.eqb_refl. simpl.
    rewrite Hrest; [reflexivity|].
    intros a' Hin' _. exfalso. apply Hj. apply in_map_iff. now exists (i, a').
  - assert (Hne : j <> i).
    { intros ->. apply Hj. apply in_map_iff. now exists (i, a). }
    destruct (fires f w j b) as [q|]; [|now apply IH].
    specialize (IH (record_stat (save_alerts ctx w (<[j:=set_triggered b]> l))
                      "alerts_triggered") (<[j:=set_triggered b]> l) Hnd Hin Hf).
    destruct (check_owner f w todo _ _) as [ctx' out]. simpl in *.
    unfold about in *. simpl. rewrite String.eqb_refl. simpl.
    destruct (Nat.eqb_spec j i); [contradiction|exact IH].
Qed.

Lemma about_app o i out1 out2 :
  about o i (out1 ++ out2) = about o i out1 ++ about o i out2.
Proof. apply List.filter_app. Qed.

(** One owner's turn: the entry of another owner, or a flagged entry. *)
Lemma owner_turn_flagged f w ctx o i a :
  entry ctx o i = Some a -> triggered a = true ->
  let out := check_owner f w (active_alerts (get_alerts ctx w)) ctx (get_alerts ctx w) in
  about o i out.2 = [] /\
  exists a', entry out.1 o i = Some a' /\ triggered a' = true.
Proof.
  intros He Ht out. unfold entry in *. split.
  - apply check_owner_silent. intros b Hb ->.
    apply in_active_alerts in Hb as (Hb & _ & Hb'). congruence.
  - destruct (decide (o = w)) as [->|Hne].
    + unfold out. rewrite check_owner_saved by reflexivity.
      eapply flagged_keeps; eassumption.
    + unfold out. rewrite check_owner_others by assumption. eauto.
Qed.

Lemma owner_turn_other f w ctx o i :
  o <> w ->
  let out := check_owner f w (active_alerts (get_alerts ctx w)) ctx (get_alerts ctx w) in
  about o i out.2 = [] /\ entry out.1 o i = entry ctx o i.
Proof.
  intros Hne out. split.
  - apply check_owner_silent. intros b _ ->. contradiction.
  - unfold entry, out. now rewrite check_owner_others.
Qed.

Lemma owner_turn_fires f ctx o i a p :
  entry ctx o i = Some a -> active a = true -> triggered a = false ->
  fires f o i a = Some p ->
  let out := check_owner f o (active_alerts (get_alerts ctx o)) ctx (get_alerts ctx o) in
  about o i out.2 = [{| to := o; pos := i; alert := a; current := p |}] /\
  exists a', entry out.1 o i = Some a' /\ triggered a' = true.
Proof.
  intros He Ha Ht Hf out. unfold entry in *.
  assert (Hin : In (i, a) (active_alerts (get_alerts ctx o))).
  { apply in_active_alerts. auto. }
  split.
  - apply check_owner_once; [apply NoDup_active_alerts|exact Hin|exact Hf].
  - unfold out. rewrite check_owner_saved by reflexivity.
    eapply flagged_sets; [exact Hin|exact Hf|]. eapply lookup_lt_Some; eauto.
Qed.

(** The rest of a sweep sends nothing about a flagged entry. *)
Lemma check_owners_flagged f owners ctx o i a :
  entry ctx o i = Some a -> triggered a = true ->
  about o i (check_owners f owners ctx).2 = [] /\
  exists a', entry (check_owners f owners ctx).1 o i = Some a' /\ triggered a' = true.
Proof.
  revert ctx a. induction owners as [|w owners IH]; intros ctx a He Ht; simpl; [eauto|].
  destruct (owner_turn_flagged f w ctx o i a He Ht) as (Hout & a1 & He1 & Ht1).
  destruct (check_owner f w _ ctx _) as [ctx1 out1]. simpl in *.
  destruct (IH ctx1 a1 He1 Ht1) as (Hout2 & a2 & He2 & Ht2).
  destruct (check_owners f owners ctx1) as [ctx2 out2]. simpl in *.
  rewrite about_app, Hout, Hout2. eauto.
Qed.

Lemma check_owners_fires f owners ctx o i a p :
  In o owners ->
  entry ctx o i = Some a -> active a = true -> triggered a = false ->
  fires f o i a = Some p ->
  about o i (check_owners f owners ctx).2 =
  [{| to := o; pos := i; alert := a; current := p |}] /\
  exists a', entry (check_owners f owners ctx).1 o i = Some a' /\ triggered a' = true.
Proof.
  revert ctx. induction owners as [|w owners IH]; intros ctx Ho He Ha Ht Hf;
    simpl; [destruct Ho|].
  destruct (decide (o = w)) as [<-|Hne].
  - destruct (owner_turn_fires f ctx o i a p He Ha Ht Hf) as (Hout & a1 & He1 & Ht1).
    destruct (check_owner f o _ ctx _) as [ctx1 out1]. simpl in *.
    destruct (check_owners_flagged f owners ctx1 o i a1 He1 Ht1) as (Hout2 & Hflag).
    destruct (check_owners f owners ctx1) as [ctx2 out2]. simpl in *.
    rewrite about_app, Hout, Hout2. auto.
  - destruct Ho as [->|Ho]; [contradiction|].
    destruct (owner_turn_other f w ctx o i Hne) as (Hout & He1).
    destruct (check_owner f w _ ctx _) as [ctx1 out1]. simpl in *.
    rewrite <- He1 in He. specialize (IH ctx1 Ho He Ha Ht Hf).
    destruct (check_owners f owners ctx1) as [ctx2 out2]. simpl in *.
    rewrite about_app, Hout. exact IH.
Qed.

Lemma entry_record_stat ctx key o i : entry (record_stat ctx key) o i = entry ctx o i.
Proof. reflexivity. Qed.

Lemma check_alerts_flagged f ctx o i a :
  entry ctx o i = Some a -> triggered a = true ->
  about o i (check_alerts f ctx).2 = [] /\
  exists a', entry (check_alerts f ctx).1 o i = Some a' /\ triggered a' = true.
Proof.
  intros He Ht. unfold check_alerts. destruct (alert_owners ctx) as [|w owners]; [eauto|].
  apply (check_owners_flagged f (w :: owners) (record_stat ctx "checks_run") o i a);
    assumption.
Qed.

(** Every notification of a sweep is about an alert that was stored active
    and not triggered, and whose condition the quoted price meets. *)
Lemma check_owners_out f owners ctx n :
  In n (check_owners f owners ctx).2 ->
  active (alert n) = true /\ triggered (alert n) = false /\
  f (to n) (pos n) (token (alert n)) = Price (current n) /\
  met (alert n) (current n) = true.
Proof.
  revert ctx. induction owners as [|w owners IH]; intros ctx; simpl; [tauto|].
  pose proof (check_owner_out f w (active_alerts (get_alerts ctx w)) ctx
                (get_alerts ctx w) n) as Hinner.
  destruct (check_owner f w _ ctx _) as [ctx1 out1]. simpl in *.
  specialize (IH ctx1). destruct (check_owners f owners ctx1) as [ctx2 out2].
  simpl in *. rewrite in_app_iff. intros [Hn|Hn]; [|auto].
  destruct (Hinner Hn) as (Hto & Hin & Hf).
  apply in_active_alerts in Hin as (_ & Ha & Ht).
  unfold fires in Hf. rewrite Hto.
  destruct (f w (pos n) (token (alert n))) as [|q|]; try discriminate.
  destruct (met (alert n) q) eqn:Hm; [|discriminate].
  injection Hf as <-. auto.
Qed.

(** Creating and removing alerts never clears a flag. *)
Lemma create_alert_flagged cfg ctx sender tok cond thr tier now o i a :
  entry ctx o i = Some a ->
  entry (create_alert cfg ctx sender tok cond thr tier now).1 o i = Some a.
Proof.
  intros He. unfold create_alert.
  destruct (_ <=? _); [destruct (String.eqb tier "free"); exact He|].
  simpl. unfold entry, register_alert_owner in *.
  set (ctx' := save_alerts ctx sender _).
  assert (H : get_alerts ctx' o !! i = Some a).
  { unfold ctx'. destruct (decide (o = sender)) as [->|Hne].
    - rewrite get_alerts_save. now apply lookup_app_l_Some.
    - now rewrite get_alerts_save_ne. }
  destruct (existsb _ _); exact H.
Qed.

Lemma remove_first_flag alert_id l l' i a :
  remove_first alert_id l = Some l' -> l !! i = Some a ->
  exists a', l' !! i = Some a' /\ triggered a' = triggered a.
Proof.
  revert l' i. induction l as [|x l IH]; intros l' i; simpl; [discriminate|].
  destruct ((id x =? alert_id) && active x).
  - intros [= <-]. destruct i as [|i]; simpl; [|eauto].
    intros [= <-]. eauto.
  - destruct (remove_first alert_id l) as [l1|]; [|discriminate].
    intros [= <-]. destruct i as [|i]; simpl; [eauto|].
    apply IH. reflexivity.
Qed.

Lemma remove_alert_flagged ctx sender alert_id o i a :
  entry ctx o i = Some a -> triggered a = true ->
  exists a', entry (remove_alert ctx sender alert_id).1 o i = Some a' /\
             triggered a' = true.
Proof.
  intros He Ht. unfold remove_alert.
  destruct (remove_first alert_id (get_alerts ctx sender)) as [l'|] eqn:E; [|eauto].
  simpl. unfold entry in *. destruct (decide (o = sender)) as [->|Hne].
  - rewrite get_alerts_save.
    destruct (remove_first_flag _ _ _ _ _ E He) as (a' & H1 & H2).
    exists a'. split; [exact H1|congruence].
  - rewrite get_alerts_save_ne by assumption. eauto.
Qed.

(** No later operation sends anything about a flagged entry. *)
Lemma run_flagged cfg ops ctx o i a :
  entry ctx o i = Some a -> triggered a = true ->
  about o i (run cfg ctx ops).2 = [].
Proof.
  revert ctx a. induction ops as [|op ops IH]; intros ctx a He Ht; simpl;
    [reflexivity|].
  assert (Hstep : about o i (step cfg ctx op).2 = [] /\
                  exists a', entry (step cfg ctx op).1 o i = Some a' /\
                             triggered a' = true).
  { destruct op as [f|sender tok cond thr tier now|sender alert_id]; simpl.
    - now apply check_alerts_flagged with (a := a).
    - split; [reflexivity|]. exists a. split; [|exact Ht].
      now apply create_alert_flagged.
    - split; [reflexivity|]. now apply remove_alert_flagged with (a := a). }
  destruct Hstep as (Hout & a1 & He1 & Ht1).
  destruct (step cfg ctx op) as [ctx1 out1]. simpl in *.
  specialize (IH ctx1 a1 He1 Ht1).
  destruct (run cfg ctx1 ops) as [ctx2 out2]. simpl in *.
  now rewrite about_app, Hout, IH.
Qed.

(** C6.  When a sweep asks the price for a stored alert that is active and
    not triggered, and the price meets the alert's condition (at or above
    the threshold of an ['above'] alert, at or below that of a ['below']
    alert), the sweep produces exactly one notification about that entry
    and leaves its [triggered] flag set; whatever follows (sweeps on any
    prices, alerts created, alerts removed) produces no notification about
    it.  Every notification of a sweep is about an alert that was active
    and not triggered. *)
Theorem alert_fires_once cfg f ctx o i a p ops :
  In o (alert_owners ctx) ->
  entry ctx o i = Some a -> active a = true -> triggered a = false ->
  f o i (token a) = Price p ->
  (condition a = "above" /\ (threshold a <= p)%Q) \/
  (condition a = "below" /\ (p <= threshold a)%Q) ->
  let swept := check_alerts f ctx in
  about o i swept.2 = [{| to := o; pos := i; alert := a; current := p |}] /\
  (exists a', entry swept.1 o i = Some a' /\ triggered a' = true) /\
  about o i (run cfg swept.1 ops).2 = [] /\
  (forall n, In n swept.2 -> active (alert n) = true /\ triggered (alert n) = false).
Proof.
  intros Ho He Ha Ht Hf Hmet swept.
  assert (Hfires : fires f o i a = Some p).
  { unfold fires. rewrite Hf. apply met_iff in Hmet. now rewrite Hmet. }
  assert (Hsweep : about o i swept.2 =
                   [{| to := o; pos := i; alert := a; current := p |}] /\
                   exists a', entry swept.1 o i = Some a' /\ triggered a' = true).
  { unfold swept, check_alerts. destruct (alert_owners ctx) as [|w owners] eqn:E;
      [destruct Ho|].
    apply check_owners_fires; assumption. }
  destruct Hsweep as (Hout & a' & He' & Ht'). repeat split.
  - exact Hout.
  - eauto.
  - now apply run_flagged with (a := a').
  - unfold swept, check_alerts in H. destruct (alert_owners ctx); [destruct H|].
    now apply check_owners_out in H.
  - unfold swept, check_alerts in H. destruct (alert_owners ctx); [destruct H|].
    now apply check_owners_out in H.
Qed.

Lemma alert_fires_once_witness :
  let ctx := Samples.watch_ctx in
  let a := Samples.watch_alert in
  let later := [Sweep (Samples.quotes 11); Sweep (Samples.quotes 12);
                Remove "agent1qalice" 1; Sweep (Samples.quotes 13)] in
  In "agent1qalice" (alert_owners ctx) /\
  entry ctx "agent1qalice" 0 = Some a /\
  active a = true /\ triggered a = false /\
  (check_alerts (Samples.quotes 8) ctx).2 = [] /\
  about "agent1qalice" 0 (check_alerts (Samples.quotes 11) ctx).2 =
  [{| to := "agent1qalice"; pos := 0; alert := a; current := 11 |}] /\
  about "agent1qalice" 0
    (run BUSINESS (check_alerts (Samples.quotes 11) ctx).1 later).2 = [].
Proof.
  intros ctx a later.
  assert (Ho : In "agent1qalice" (alert_owners ctx)) by (left; reflexivity).
  assert (He : entry ctx "agent1qalice" 0 = Some a) by reflexivity.
  assert (Hm : (condition a = "above" /\ (threshold a <= 11)%Q) \/
               (condition a = "below" /\ (11 <= threshold a)%Q)).
  { left. split; [reflexivity|]. apply Qle_bool_iff. reflexivity. }
  destruct (alert_fires_once BUSINESS (Samples.quotes 11) ctx "agent1qalice" 0 a 11
              later Ho He eq_refl eq_refl eq_refl Hm) as (H1 & _ & H3 & _).
  repeat split; try assumption. 
Defined.

End TradingAgentFacts.

(** ** The scoring engine of genesis/analyst.py *)

Module AnalystFacts.

Import Analyst.

Lemma dict_get_agree (t1 t2 : list (string * json)) k d1 d2 :
  PyDict.getitem t1 k = PyDict.getitem t2 k -> d1 = d2 ->
  dict_get t1 k d1 = dict_get t2 k d2.
Proof. unfold dict_get. now intros -> ->. Qed.

(** C7 (as amended).  Two calls of [score_token] on tokens with identical
    input metrics return the same grade, total and scores, or fail alike,
    provided the token's age in whole days is the same at both calls; the
    clock enters the result through that age only. *)
Theorem score_token_same_age B now1 now2 token1 token2 :
  Forall (fun k => PyDict.getitem token1 k = PyDict.getitem token2 k) METRIC_KEYS ->
  age_days B now1 (created_of token1) = age_days B now2 (created_of token2) ->
  outcome (score_token B now1 token1) = outcome (score_token B now2 token2).
Proof.
  intros Hkeys Hage. unfold METRIC_KEYS in Hkeys.
  repeat match goal with
         | H : Forall _ (_ :: _) |- _ =>
             let Hk := fresh "Hk" in
             apply List.Forall_cons_iff in H as [Hk H]
         end.
  unfold score_token. unfold created_of in Hage.
  rewrite (dict_get_agree token1 token2 "holders" _ _ Hk
             (dict_get_agree token1 token2 "holderCount" _ _ Hk0 eq_refl)).
  rewrite (dict_get_agree token1 token2 "volume24h" _ _ Hk1
             (dict_get_agree token1 token2 "volume" _ _ Hk2 eq_refl)).
  rewrite (dict_get_agree token1 token2 "liquidity" _ _ Hk3
             (dict_get_agree token1 token2 "totalLiquidity" _ _ Hk4 eq_refl)).
  rewrite (dict_get_agree token1 token2 "price" _ _ Hk5
             (dict_get_agree token1 token2 "currentPrice" _ _ Hk6 eq_refl)).
  rewrite Hage.
  destruct (py_int B _) as [h|]; [|reflexivity].
  destruct (py_float B _) as [x|]; [|reflexivity].
  destruct (py_float B _) as [y|]; [|reflexivity].
  destruct (py_float B _) as [z|]; [|reflexivity].
  unfold outcome.
  cbn [fmap option_fmap option_map mbind option_bind grade total scores].
  reflexivity.
Qed.

Lemma score_token_same_age_witness :
  Forall (fun k => PyDict.getitem Samples.scored_token k
                   = PyDict.getitem Samples.renamed_token k) METRIC_KEYS /\
  age_days Samples.plain_builtins Samples.noon_jan_1 (created_of Samples.scored_token)
  = age_days Samples.plain_builtins Samples.evening_jan_1
      (created_of Samples.renamed_token) /\
  outcome (score_token Samples.plain_builtins Samples.noon_jan_1 Samples.scored_token)
  = outcome (score_token Samples.plain_builtins Samples.evening_jan_1
               Samples.renamed_token).
Proof.
  assert (H1 : Forall (fun k => PyDict.getitem Samples.scored_token k
                   = PyDict.getitem Samples.renamed_token k) METRIC_KEYS).
  { repeat constructor. }
  assert (H2 : age_days Samples.plain_builtins Samples.noon_jan_1
                 (created_of Samples.scored_token)
               = age_days Samples.plain_builtins Samples.evening_jan_1
                   (created_of Samples.renamed_token)).
  { vm_compute. reflexivity. }
  split; [exact H1|]. split; [exact H2|].
  exact (score_token_same_age Samples.plain_builtins Samples.noon_jan_1
           Samples.evening_jan_1 Samples.scored_token Samples.renamed_token H1 H2).
Defined.

(** C7, as stated, fails: the same token scored on the day of its creation
    and two months later gets the totals 55 and 65 and the grades C and B. *)
Lemma score_token_changes_with_time :
  let first := score_token Samples.plain_builtins Samples.noon_jan_1
                 Samples.scored_token in
  let second := score_token Samples.plain_builtins Samples.mar_1
                  Samples.scored_token in
  grade <$> first = Some "C" /\ grade <$> second = Some "B" /\
  (fun r => Qred (total r)) <$> first = Some 55%Q /\
  (fun r => Qred (total r)) <$> second = Some 65%Q.
Proof. vm_compute. repeat split; reflexivity. Qed.

End AnalystFacts.

(** ** The tier lookup and the token list of data-agent.py *)

Module DataAgentFacts.

Import DataAgent.

Lemma try_tier_no_object cfg r : no_object r -> try_tier cfg r = None.
Proof.
  destruct r as [|code [|data]]; simpl; [reflexivity| |].
  - intros _. now destruct (code =? 200).
  - destruct (Z.eqb_spec code 200) as [->|]; [|reflexivity].
    destruct data; simpl; try reflexivity. intros H. now contradiction H.
Qed.

Lemma try_tokens_no_object r : no_object r -> try_tokens r = None.
Proof.
  destruct r as [|code [|data]]; simpl; [reflexivity| |].
  - intros _. now destruct (code =? 200).
  - destruct (Z.eqb_spec code 200) as [->|]; [|reflexivity].
    destruct data; simpl; try reflexivity. intros H. now contradiction H.
Qed.

(** On a cache miss the tier lookup returns what its [try] block gives,
    and ["free"] when that gives nothing. *)
Lemma check_token_holdings_miss cfg r user cache now now1 now2 :
  not_none (Cache.get cache ("tier:" +:+ user) now).1 = None ->
  (check_token_holdings cfg r user cache now now1 now2).1 =
  JStr (if String.eqb (TOKEN_ADDRESS cfg) "" then "free"
        else default "free" (try_tier cfg r)).
Proof.
  intros Hmiss. unfold check_token_holdings.
  destruct (String.eqb (TOKEN_ADDRESS cfg) ""); [reflexivity|].
  destruct (Cache.get cache ("tier:" +:+ user) now) as [cached cache1].
  simpl in Hmiss. rewrite Hmiss. now destruct (try_tier cfg r).
Qed.

Lemma get_all_tokens_miss r cache now now1 now2 :
  not_none (Cache.get cache "all_tokens" now).1 = None ->
  (get_all_tokens r cache now now1 now2).1 = default (JArr []) (try_tokens r).
Proof.
  intros Hmiss. unfold get_all_tokens.
  destruct (Cache.get cache "all_tokens" now) as [cached cache1].
  simpl in Hmiss. rewrite Hmiss. now destruct (try_tokens r).
Qed.

(** C9 (as amended).  Whenever the upstream call is made (the cache has
    no live entry) and delivers no JSON object (it raises, or the status
    is not 200, or the body does not parse or is not an object), the tier
    lookup returns ["free"] and the token list is empty.  On an object
    body the token list is empty when ["success"] is missing or falsy; the
    tier lookup reads ["balance"] only, and returns ["premium"] exactly
    when that is a number at or above the threshold, ["free"] otherwise.
    Both functions return a value in every case. *)
Theorem upstream_failure_defaults cfg r user cache now now1 now2 :
  let tier := (check_token_holdings cfg r user cache now now1 now2).1 in
  let tokens := (get_all_tokens r cache now now1 now2).1 in
  (not_none (Cache.get cache ("tier:" +:+ user) now).1 = None ->
   (no_object r -> tier = JStr "free") /\
   (forall fields,
      r = Response 200 (Parsed (JObj fields)) ->
      TOKEN_ADDRESS cfg <> "" ->
      tier = JStr (if py_ge (dict_get fields "balance" (JInt 0))
                         (premium_token_threshold cfg)
                   is Some true then "premium" else "free"))) /\
  (not_none (Cache.get cache "all_tokens" now).1 = None ->
   (no_object r -> tokens = JArr []) /\
   (forall fields,
      r = Response 200 (Parsed (JObj fields)) -> unsuccessful fields ->
      tokens = JArr [])).
Proof.
  intros tier tokens. split; intros Hmiss.
  - unfold tier. rewrite check_token_holdings_miss by assumption. split.
    + intros Hr. rewrite (try_tier_no_object cfg r Hr).
      now destruct (String.eqb (TOKEN_ADDRESS cfg) "").
    + intros fields -> Haddr. apply String.eqb_neq in Haddr. rewrite Haddr.
      simpl. now destruct (py_ge _ _) as [[|]|].
  - unfold tokens. rewrite get_all_tokens_miss by assumption. split.
    + intros Hr. now rewrite (try_tokens_no_object r Hr).
    + intros fields -> Hfail. simpl. unfold unsuccessful in Hfail.
      now rewrite Hfail.
Qed.

(** C9, as stated, fails for the tier lookup: a 200 response whose body
    reports failure and carries a balance of 5000 makes it return
    ["premium"], while the token list on the same body is empty. *)
Lemma unsuccessful_body_premium :
  let r := Response 200 (Parsed (JObj Samples.failure_with_balance)) in
  unsuccessful Samples.failure_with_balance /\
  (check_token_holdings Samples.data_cfg r "agent1qalice" (Cache.init 1000) 0 0 0).1
  = JStr "premium" /\
  (get_all_tokens r (Cache.init 1000) 0 0 0).1 = JArr [].
Proof. vm_compute. repeat split; reflexivity. Qed.

End DataAgentFacts.

(** ** The welcome gift of gifter-agent.py *)

Module GifterFacts.

Import Gifter.

Lemma has_claimed_iff ctx sender :
  has_claimed_welcome ctx sender = true <-> is_Some (welcome_claims ctx !! sender).
Proof. unfold has_claimed_welcome. apply bool_decide_eq_true. Qed.

(** A claim never removes a sender from the record of claims. *)
Lemma claim_keeps_record w ctx sender0 text0 sender :
  is_Some (welcome_claims ctx !! sender) ->
  is_Some (welcome_claims (storage (claim_welcome w ctx sender0 text0)) !! sender).
Proof.
  intros Hc. unfold claim_welcome.
  destruct (has_claimed_welcome ctx sender0); [exact Hc|].
  destruct (find_evm text0); [|exact Hc].
  destruct (_ <=? _); [exact Hc|].
  destruct (negb _); [exact Hc|].
  destruct (fet_result w); [|exact Hc].
  assert (H : is_Some (<[sender0 := now_recorded w]> (welcome_claims ctx) !! sender)).
  { destruct (decide (sender0 = sender)) as [->|Hne].
    - rewrite lookup_insert_eq. eauto.
    - now rewrite lookup_insert_ne. }
  destruct (bnb_result w); exact H.
Qed.

Lemma run_keeps_record claims ctx sender :
  is_Some (welcome_claims ctx !! sender) ->
  is_Some (welcome_claims (run ctx claims) !! sender).
Proof.
  revert ctx. induction claims as [|m claims IH]; intros ctx Hc; simpl; [exact Hc|].
  apply IH. now apply claim_keeps_record.
Qed.

(** A sender on record is turned away before anything is sent. *)
Lemma claim_again w ctx sender text :
  is_Some (welcome_claims ctx !! sender) ->
  claim_welcome w ctx sender text =
  {| storage := ctx; replies := [AlreadyClaimed]; transfers := [] |}.
Proof.
  intros Hc. unfold claim_welcome.
  now rewrite (proj2 (has_claimed_iff ctx sender) Hc).
Qed.

(** C8.  When a welcome claim reaches the transfers, the FET transfer
    succeeds and the BNB transfer fails, the only transfer made is the FET
    one (nothing reverses it), the sender is recorded as having claimed,
    the day's claim counter goes up by one, and the reply reports the BNB
    failure; any later claim of that sender, after any further claims, is
    answered "already claimed" and sends nothing. *)
Theorem partial_claim_is_recorded w ctx sender text evm fet_hash error :
  has_claimed_welcome ctx sender = false ->
  find_evm text = Some evm ->
  get_daily_claim_count ctx (today_checked w) < MAX_CLAIMS_PER_DAY ->
  deduct_treasury w WELCOME_FET WELCOME_BNB = true ->
  fet_result w = TxSent fet_hash ->
  bnb_result w = TxFailed error ->
  let out := claim_welcome w ctx sender text in
  transfers out = [FetTransfer evm WELCOME_FET fet_hash] /\
  replies out = [BnbFailed error fet_hash] /\
  welcome_claims (storage out) !! sender = Some (now_recorded w) /\
  has_claimed_welcome (storage out) sender = true /\
  get_daily_claim_count (storage out) (today_counted w)
  = get_daily_claim_count ctx (today_counted w) + 1 /\
  (forall claims w' text',
     let later := run (storage out) claims in
     claim_welcome w' later sender text' =
     {| storage := later; replies := [AlreadyClaimed]; transfers := [] |}).
Proof.
  intros Hnew Hevm Hcount Hfunds Hfet Hbnb out.
  assert (Hout : out =
    {| storage := increment_daily_claims
                    (record_welcome_claim ctx sender (now_recorded w))
                    (today_counted w);
       replies := [BnbFailed error fet_hash];
       transfers := [FetTransfer evm WELCOME_FET fet_hash] |}).
  { unfold out, claim_welcome. rewrite Hnew, Hevm, Hfunds, Hfet, Hbnb.
    destruct (Z.leb_spec MAX_CLAIMS_PER_DAY
                (get_daily_claim_count ctx (today_checked w))); [lia|].
    reflexivity. }
  assert (Hrec : welcome_claims (storage out) !! sender = Some (now_recorded w)).
  { rewrite Hout. simpl. apply lookup_insert_eq. }
  split; [now rewrite Hout|]. split; [now rewrite Hout|].
  split; [exact Hrec|]. split; [|split].
  - apply has_claimed_iff. rewrite Hrec. eauto.
  - rewrite Hout. unfold get_daily_claim_count, increment_daily_claims. simpl.
    now rewrite lookup_insert_eq.
  - intros claims w' text' later. apply claim_again. apply run_keeps_record.
    rewrite Hrec. eauto.
Qed.

Lemma partial_claim_is_recorded_witness :
  let w := Samples.half_paid in
  let ctx := Samples.no_claims in
  let out := claim_welcome w ctx "agent1qalice" Samples.claim_text in
  has_claimed_welcome ctx "agent1qalice" = false /\
  find_evm Samples.claim_text = Some "0x1234567890abcdef1234567890ABCDEF12345678" /\
  get_daily_claim_count ctx (today_checked w) < MAX_CLAIMS_PER_DAY /\
  deduct_treasury w WELCOME_FET WELCOME_BNB = true /\
  transfers out =
  [FetTransfer "0x1234567890abcdef1234567890ABCDEF12345678" WELCOME_FET "0xfe7"] /\
  has_claimed_welcome (storage out) "agent1qalice" = true /\
  claim_welcome Samples.all_paid (storage out) "agent1qalice" Samples.claim_text =
  {| storage := storage out; replies := [AlreadyClaimed]; transfers := [] |}.
Proof.
  intros w ctx out.
  assert (H1 : has_claimed_welcome ctx "agent1qalice" = false) by reflexivity.
  assert (H2 : find_evm Samples.claim_text
               = Some "0x1234567890abcdef1234567890ABCDEF12345678")
    by reflexivity.
  assert (H3 : get_daily_claim_count ctx (today_checked w) < MAX_CLAIMS_PER_DAY)
    by reflexivity.
  assert (H4 : deduct_treasury w WELCOME_FET WELCOME_BNB = true) by reflexivity.
  destruct (partial_claim_is_recorded w ctx "agent1qalice" Samples.claim_text
              _ "0xfe7" "insufficient funds for gas" H1 H2 H3 H4 eq_refl eq_refl)
    as (Ht & _ & _ & Hc & _ & Hlater).
  split; [exact H1|]. split; [exact H2|]. split; [exact H3|].
  split; [exact H4|]. split; [exact Ht|]. split; [exact Hc|].
  exact (Hlater [] Samples.all_paid Samples.claim_text).
Defined.

End GifterFacts.


(** ** Edges of the TTL cache *)

Module CacheEdges.

Import PyDict PyDictFacts Cache CacheFacts.

Section edges.
Context {V : Type}.
Implicit Types (c : Cache.t V) (d : dict (@entry V)) (k key : string).

Lemma length_delitem_in d k :
  In k (keys d) -> length d = S (length (delitem d k)).
Proof.
  induction d as [|[k' e] d IH]; simpl; [tauto|].
  destruct (String.eqb_spec k' k) as [->|Hne]; [reflexivity|].
  intros [Heq|Hin]; [contradiction|]. simpl. now rewrite <- IH.
Qed.

Lemma no_expired_live d now :
  wf d -> expired d now = [] ->
  List.filter (fun kv => now <? expires_of kv) d = d.
Proof.
  intros Hwf He. rewrite <- purge_filter by assumption. now rewrite He.
Qed.

(** X1.  A capacity below ten bounds nothing: [max_size // 10] is zero, so
    a [set] of a new key on a cache at or over its capacity, with no
    expired entry to purge, drops nothing and the count grows by one. *)
Theorem small_capacity_overflows c key value ttl now now' :
  wf (_data c) -> 0 <= _max_size c < 10 ->
  _max_size c <= len (_data c) ->
  expired (_data c) now = [] ->
  ~ In key (keys (_data c)) ->
  len (_data (set c key value ttl now now')) = len (_data c) + 1 /\
  forall k, In k (keys (_data c)) -> In k (keys (_data (set c key value ttl now now'))).
Proof.
  intros Hwf Hm Hfull Hnone Hnew.
  assert (Hroom : make_room (_max_size c) (_data c) now = _data c).
  { pose proof (make_room_cases (_max_size c) (_data c) now Hwf ltac:(lia)) as Hc.
    cbv zeta in Hc. rewrite (no_expired_live _ _ Hwf Hnone) in Hc.
    destruct Hc as [(H1 & _)|[(_ & H2 & _)|(_ & _ & -> & _)]]; try lia.
    replace (_max_size c / 10) with 0 by (symmetry; apply Z.div_small; lia).
    reflexivity. }
  unfold set. simpl. rewrite Hroom. split.
  - unfold len. rewrite length_setitem_notin by assumption. lia.
  - intros k Hk. apply in_keys_setitem. now right.
Qed.

(** X2.  [get] expires lazily: reading a key whose entry has expired
    returns absent and deletes that entry alone, while a read that hits,
    or that finds no entry, leaves the cache as it was. *)
Theorem get_expires_lazily c key now :
  wf (_data c) ->
  let out := get c key now in
  (forall value expires,
     getitem (_data c) key = Some (value, expires) -> expires <= now ->
     out.1 = None /\
     getitem (_data out.2) key = None /\
     len (_data out.2) = len (_data c) - 1 /\
     (forall k, k <> key -> getitem (_data out.2) k = getitem (_data c) k)) /\
  (forall value expires,
     getitem (_data c) key = Some (value, expires) -> now < expires ->
     out = (Some value, c)) /\
  (getitem (_data c) key = None -> out = (None, c)).
Proof.
  intros Hwf out. unfold out, get. repeat split.
  - rewrite H. destruct (Z.ltb_spec now expires); [lia|reflexivity].
  - rewrite H. destruct (Z.ltb_spec now expires); [lia|]. simpl.
    now apply getitem_delitem_eq.
  - rewrite H. destruct (Z.ltb_spec now expires); [lia|]. simpl.
    unfold len. rewrite (length_delitem_in (_data c) key); [lia|].
    eapply getitem_Some_key; eassumption.
  - intros k Hk. rewrite H. destruct (Z.ltb_spec now expires); [lia|]. simpl.
    now apply getitem_delitem_ne.
  - intros value expires Hget Hlive. rewrite Hget.
    destruct (Z.ltb_spec now expires); [reflexivity|lia].
  - intros Hget. now rewrite Hget.
Qed.

(** X3.  A [set] never makes another key read a value it did not hold:
    whatever [get] returns for a different key after the [set], it
    returned before it at the same clock reading. *)
Theorem set_spares_other_keys c key value ttl now now' k t x :
  wf (_data c) -> k <> key ->
  (get (set c key value ttl now now') k t).1 = Some x ->
  (get c k t).1 = Some x.
Proof.
  intros Hwf Hne. unfold get.
  destruct (getitem (_data (set c key value ttl now now')) k) as [[v e]|] eqn:E;
    [|discriminate].
  unfold set in E. simpl in E. rewrite getitem_setitem_ne in E by congruence.
  apply getitem_make_room_inv in E; [|assumption]. rewrite E.
  now destruct (t <? e).
Qed.

(** X4.  A time to live of zero or less stores an entry that is never
    served: it is in the cache, and [get] at the reading of the [set] or
    any later one returns absent. *)
Theorem nonpositive_ttl_never_served c key value ttl now now' t :
  ttl <= 0 -> now' <= t ->
  getitem (_data (set c key value ttl now now')) key
  = Some (value, now' + seconds ttl) /\
  (get (set c key value ttl now now') key t).1 = None.
Proof.
  intros Httl Ht.
  assert (H : getitem (_data (set c key value ttl now now')) key
              = Some (value, now' + seconds ttl)) by apply getitem_setitem_eq.
  split; [exact H|]. unfold get. rewrite H.
  destruct (Z.ltb_spec t (now' + seconds ttl)); [|reflexivity].
  unfold seconds, TICKS_PER_SECOND in *. lia.
Qed.

End edges.

Lemma small_capacity_overflows_witness :
  let c := {| _data := [("a", (1, 50)); ("b", (2, 60)); ("c", (3, 70))];
              _max_size := 3 |} in
  wf (_data c) /\ 0 <= _max_size c < 10 /\ _max_size c <= len (_data c) /\
  expired (_data c) 10 = [] /\ ~ In "d" (keys (_data c)) /\
  len (_data (set c "d" 4 300 10 10)) = 4.
Proof.
  intros c.
  assert (Hwf : wf (_data c)) by (repeat constructor; simpl; intuition discriminate).
  assert (Hm : 0 <= _max_size c < 10) by (simpl; lia).
  assert (Hfull : _max_size c <= len (_data c)) by (vm_compute; discriminate).
  assert (Hnone : expired (_data c) 10 = []) by reflexivity.
  assert (Hnew : ~ In "d" (keys (_data c))) by (simpl; intuition discriminate).
  split; [exact Hwf|]. split; [exact Hm|]. split; [exact Hfull|].
  split; [exact Hnone|]. split; [exact Hnew|].
  exact (proj1 (small_capacity_overflows c "d" 4 300 10 10 Hwf Hm Hfull Hnone Hnew)).
Defined.

Lemma get_expires_lazily_witness :
  let c := Samples.ten_cache in
  wf (_data c) /\
  (get c "c" 20).1 = None /\ len (_data (get c "c" 20).2) = 9 /\
  get c "c" 19 = (Some 3, c).
Proof.
  intros c.
  assert (Hwf : wf (_data c)) by (repeat constructor; simpl; intuition discriminate).
  destruct (get_expires_lazily c "c" 20 Hwf) as (Hexp & _).
  destruct (Hexp 3 20 eq_refl ltac:(lia)) as (H1 & _ & H3 & _).
  destruct (get_expires_lazily c "c" 19 Hwf) as (_ & Hlive & _).
  split; [exact Hwf|]. split; [exact H1|]. split; [exact H3|].
  exact (Hlive 3 20 eq_refl ltac:(lia)).
Defined.

Lemma set_spares_other_keys_witness :
  let c := Samples.ten_cache in
  wf (_data c) /\ "a" <> "k" /\
  (get (set c "k" 11 300 10 10) "a" 15).1 = Some 1 /\
  (get c "a" 15).1 = Some 1.
Proof.
  intros c.
  assert (Hwf : wf (_data c)) by (repeat constructor; simpl; intuition discriminate).
  assert (Hne : "a" <> "k") by discriminate.
  assert (H : (get (set c "k" 11 300 10 10) "a" 15).1 = Some 1) by reflexivity.
  split; [exact Hwf|]. split; [exact Hne|]. split; [exact H|].
  exact (set_spares_other_keys c "k" 11 300 10 10 "a" 15 1 Hwf Hne H).
Defined.

Lemma nonpositive_ttl_never_served_witness :
  0 <= 0 /\ 5 <= 5 /\ (get (set (@init Z 1000) "k" 1 0 5 5) "k" 5).1 = None.
Proof.
  split; [lia|]. split; [lia|].
  exact (proj2 (nonpositive_ttl_never_served (@init Z 1000) "k" 1 0 5 5 5
                  ltac:(lia) ltac:(lia))).
Defined.

End CacheEdges.


(** ** More on the rate gates *)

Module TextFacts.

Import Text.

Lemma lstrip_first s c : first_char (lstrip s) = Some c -> is_space c = false.
Proof.
  induction s as [|a s IH]; simpl; [discriminate|].
  destruct (is_space a) eqn:Ha; [exact IH|]. simpl. now intros [= <-].
Qed.

Lemma rstrip_cons a s :
  rstrip (String a s) =
  match rstrip s with
  | EmptyString => if is_space a then EmptyString else String a EmptyString
  | r => String a r
  end.
Proof. reflexivity. Qed.

Lemma rstrip_first s c :
  first_char s = Some c -> is_space c = false -> first_char (rstrip s) = Some c.
Proof.
  destruct s as [|a s]; [discriminate|].
  intros H Ha. change (Some a = Some c) in H. injection H as <-.
  rewrite rstrip_cons.
  destruct (rstrip s); [now rewrite Ha|reflexivity].
Qed.

Lemma rstrip_first_inv s c :
  first_char (rstrip s) = Some c -> first_char s = Some c.
Proof.
  destruct s as [|a s]; [discriminate|]. rewrite rstrip_cons.
  destruct (rstrip s); [destruct (is_space a)|]; simpl; congruence.
Qed.

Lemma rstrip_last s c : last_char (rstrip s) = Some c -> is_space c = false.
Proof.
  induction s as [|a s IH]; [discriminate|]. rewrite rstrip_cons.
  destruct (rstrip s) as [|b r] eqn:E.
  - destruct (is_space a) eqn:Ha; simpl; [discriminate|]. now intros [= <-].
  - intros H. apply IH. exact H.
Qed.

(** What [strip] returns has no character to strip at either end. *)
Lemma strip_trimmed s : trimmed (strip s).
Proof.
  unfold trimmed, strip. split; intros c H.
  - apply rstrip_first_inv in H. now apply lstrip_first in H.
  - now apply rstrip_last in H.
Qed.

Lemma length_lstrip s : (String.length (lstrip s) <= String.length s)%nat.
Proof.
  induction s as [|a s IH]; simpl; [lia|].
  destruct (is_space a); simpl; lia.
Qed.

Lemma length_rstrip s : (String.length (rstrip s) <= String.length s)%nat.
Proof.
  induction s as [|a s IH]; [simpl; lia|]. rewrite rstrip_cons.
  destruct (rstrip s); [destruct (is_space a)|]; simpl in *; lia.
Qed.

Lemma length_strip s : (String.length (strip s) <= String.length s)%nat.
Proof.
  unfold strip. pose proof (length_rstrip (lstrip s)). pose proof (length_lstrip s).
  lia.
Qed.

End TextFacts.

Module RateGateBounds.

Import RateGate RateGateFacts.

Section bound.
Context {State Req : Type}.
Variables (stamps : State -> string -> list Z)
          (who : Req -> string) (when : Req -> Z)
          (step : State -> Req -> State * bool)
          (limit : Z).
Hypothesis Hself : prunes_then_gates stamps who when step limit.
Hypothesis Hother : spares_others stamps who when step.
Hypothesis Hlimit : 0 <= limit.

Local Abbreviation within_limit := (RateGateBound.within_limit stamps limit).

Lemma within_limit_step s r : within_limit s -> within_limit (step s r).1.
Proof.
  intros Hs u. destruct (String.eqb_spec u (who r)) as [->|Hne].
  - pose proof (Hself s r) as H. cbv zeta in H.
    pose proof (length_window_le (when r) (stamps s (who r))) as Hw.
    specialize (Hs (who r)).
    destruct (Z.leb_spec limit
                (Z.of_nat (length (window (when r) (stamps s (who r))))));
      destruct H as [_ ->]; [lia|].
    rewrite length_app. simpl. lia.
  - destruct (Hother s r u Hne) as [->|[-> _]]; [apply Hs|simpl; lia].
Qed.

Lemma within_limit_run reqs s : within_limit s -> within_limit (run step s reqs).1.
Proof.
  revert s. induction reqs as [|r reqs IH]; intros s Hs; simpl; [exact Hs|].
  pose proof (within_limit_step s r Hs) as H1.
  destruct (step s r) as [s1 ok]. specialize (IH s1 H1).
  now destruct (run step s1 reqs) as [s2 oks].
Qed.

End bound.

End RateGateBounds.

Module SecurityMore.

Import RateGate Security SecurityFacts Text TextFacts.

(** X5.  What [Security.check] returns as the clean message is the message
    stripped: it is not empty, neither of its ends is a whitespace
    character, and the message it came from is within the length limit,
    which is checked before stripping. *)
Theorem check_returns_stripped cfg s now user message clean :
  (check cfg s now user message).2 = (Some clean, None) ->
  clean = strip message /\ clean <> "" /\ trimmed clean /\
  str_len message <= max_input_length cfg /\
  str_len clean <= str_len message.
Proof.
  unfold check.
  destruct (_ <=? _); [discriminate|].
  destruct (String.eqb_spec message "") as [|Hne]; [discriminate|].
  destruct (String.eqb_spec (strip message) "") as [|Hblank]; [discriminate|].
  simpl. destruct (Z.ltb_spec (max_input_length cfg) (str_len message));
    [discriminate|].
  simpl. intros [= <-]. repeat split; try assumption.
  - intros c. apply strip_trimmed.
  - intros c. apply strip_trimmed.
  - unfold str_len. pose proof (length_strip message). lia.
Qed.

Lemma check_returns_stripped_witness :
  (check BUSINESS init 0 "agent1qalice" "  price of FET ").2
  = (Some "price of FET", None) /\
  trimmed "price of FET".
Proof.
  assert (H : (check BUSINESS init 0 "agent1qalice" "  price of FET ").2
              = (Some "price of FET", None)) by reflexivity.
  split; [exact H|].
  exact (proj1 (proj2 (proj2 (check_returns_stripped BUSINESS init 0
                                "agent1qalice" "  price of FET " _ H)))).
Defined.

(** X6.  A message that passes the rate limit uses up one of the sender's
    slots even when it is then turned down: the reading is recorded and
    the check counted before the message is looked at, so a blank message
    is answered "Empty message." and an over-long one "Message too long",
    each with the timestamp stored. *)
Theorem rejected_message_uses_a_slot cfg s now user message :
  Z.of_nat (length (window now (stamps s user))) < rate_limit_per_minute cfg ->
  let out := check cfg s now user message in
  stamps out.1 user = window now (stamps s user) ++ [now] /\
  _check_count out.1 = _check_count s + 1 /\
  (strip message = "" -> out.2 = (None, Some "Empty message.")) /\
  (strip message <> "" -> max_input_length cfg < str_len message ->
   out.2 = (None, Some ("Message too long (max "
                        +:+ str_of_Z (max_input_length cfg) +:+ " chars)."))).
Proof.
  intros Hroom out.
  pose proof (check_stamps cfg s now user message) as H. cbv zeta in H.
  destruct (Z.leb_spec (rate_limit_per_minute cfg)
              (Z.of_nat (length (window now (stamps s user))))) as [|_]; [lia|].
  destruct H as (_ & Hst & Hcnt & _). fold out in Hst, Hcnt.
  split; [exact Hst|]. split; [exact Hcnt|].
  unfold out, check. fold (stamps s user).
  destruct (Z.leb_spec (rate_limit_per_minute cfg)
              (Z.of_nat (length (window now (stamps s user))))) as [|_]; [lia|].
  split.
  - intros Hblank. rewrite Hblank. simpl. now rewrite orb_true_r.
  - intros Hblank Hlong.
    assert (Hne : message <> "") by (intros ->; now apply Hblank).
    apply String.eqb_neq in Hne, Hblank. rewrite Hne, Hblank. simpl.
    destruct (Z.ltb_spec (max_input_length cfg) (str_len message)); [reflexivity|lia].
Qed.

Lemma rejected_message_uses_a_slot_witness :
  Z.of_nat (length (window 0 (stamps init "agent1qalice")))
  < rate_limit_per_minute BUSINESS /\
  stamps (check BUSINESS init 0 "agent1qalice" "   ").1 "agent1qalice" = [0] /\
  (check BUSINESS init 0 "agent1qalice" "   ").2 = (None, Some "Empty message.").
Proof.
  assert (H : Z.of_nat (length (window 0 (stamps init "agent1qalice")))
              < rate_limit_per_minute BUSINESS) by reflexivity.
  destruct (rejected_message_uses_a_slot BUSINESS init 0 "agent1qalice" "   " H)
    as (H1 & _ & H3 & _).
  split; [exact H|]. split; [exact H1|]. exact (H3 eq_refl).
Defined.

(** X7.  Neither gate ever holds more than [limit] timestamps for a
    sender: from the empty state, over any sequence of requests, every
    sender's list stays within the per-minute limit. *)
Theorem tracking_is_bounded cfg limit' reqs calls u :
  0 <= rate_limit_per_minute cfg -> 0 <= limit' ->
  Z.of_nat (length (stamps (run (step cfg) init reqs).1 u))
  <= rate_limit_per_minute cfg /\
  Z.of_nat (length (stamps_of (run (PriceMonitor.step limit') ∅ calls).1 u))
  <= limit'.
Proof.
  intros Hl Hl'. split.
  - apply (RateGateBounds.within_limit_run stamps sender clock (step cfg)
             (rate_limit_per_minute cfg)
             (step_prunes_then_gates cfg) (step_spares_others cfg) Hl).
    intros v. unfold stamps, stamps_of, init. simpl. rewrite lookup_empty. simpl. lia.
  - apply (RateGateBounds.within_limit_run stamps_of fst snd
             (PriceMonitor.step limit') limit'
             (PriceMonitorFacts.call_prunes_then_gates limit')
             (PriceMonitorFacts.call_spares_others limit') Hl').
    intros v. unfold stamps_of. rewrite lookup_empty. simpl. lia.
Qed.

Lemma tracking_is_bounded_witness :
  0 <= rate_limit_per_minute BUSINESS /\ 0 <= 20 /\
  Z.of_nat (length (stamps (run (step BUSINESS) init Samples.burst_reqs).1
                      "agent1qalice")) <= 20.
Proof.
  split; [discriminate|]. split; [discriminate|].
  exact (proj1 (tracking_is_bounded BUSINESS 20 Samples.burst_reqs []
                  "agent1qalice" ltac:(discriminate) ltac:(discriminate))).
Defined.

(** The state a check leaves, whatever it answers. *)
Lemma check_state cfg s now user message :
  let pruned := window now (stamps_of (_requests s) user) in
  let r1 := <[user := pruned]> (_requests s) in
  let r2 := <[user := pruned ++ [now]]> r1 in
  let n := _check_count s + 1 in
  let out := check cfg s now user message in
  if rate_limit_per_minute cfg <=? Z.of_nat (length pruned) then
    out.1 = {| _requests := r1; _check_count := _check_count s |} /\
    admitted out.2 = false
  else
    out.1 = {| _requests := if n mod 100 =? 0 then sweep now r2 else r2;
               _check_count := n |} /\
    admitted out.2 = true.
Proof.
  intros pruned r1 r2 n out. unfold out, check. fold pruned r1 r2 n.
  destruct (rate_limit_per_minute cfg <=? Z.of_nat (length pruned)); [now split|].
  destruct (_ || _); [|destruct (_ <? _)]; now split.
Qed.

(** X8.  The hundredth passing check sweeps: when a check passes the rate
    limit and brings the count to a multiple of 100, no sender is left
    whose list is empty or whose newest timestamp is more than 300 seconds
    old.  Any other check forgets no sender. *)
Theorem sweep_on_every_hundredth cfg s now user message :
  let out := check cfg s now user message in
  (admitted out.2 = true -> (_check_count s + 1) mod 100 = 0 ->
   forall u l, _requests out.1 !! u = Some l -> stale now l = false) /\
  (admitted out.2 = false \/ (_check_count s + 1) mod 100 <> 0 ->
   forall u, is_Some (_requests s !! u) -> is_Some (_requests out.1 !! u)).
Proof.
  intros out. pose proof (check_state cfg s now user message) as H.
  cbv zeta in H. fold out in H.
  set (pruned := window now (stamps_of (_requests s) user)) in *.
  assert (Hkeep : forall (l1 : list Z) u,
            is_Some (_requests s !! u) ->
            is_Some (<[user := l1]> (_requests s) !! u)).
  { intros l1 u Hu. destruct (decide (user = u)) as [->|Hne].
    - rewrite lookup_insert_eq. eauto.
    - now rewrite lookup_insert_ne. }
  destruct (rate_limit_per_minute cfg <=? Z.of_nat (length pruned)).
  - destruct H as [-> Hadm]. split; [congruence|].
    intros _ u Hu. simpl. now apply Hkeep.
  - destruct H as [-> Hadm]. simpl.
    destruct (Z.eqb_spec ((_check_count s + 1) mod 100) 0) as [Hm|Hm].
    + split.
      * intros _ _ u l Hl. unfold sweep in Hl.
        now apply map_lookup_filter_Some in Hl as [_ Hs].
      * intros [Hrej|Hne]; [congruence|contradiction].
    + split; [intros _ Hm'; contradiction|].
      intros _ u Hu. rewrite insert_insert_eq. now apply Hkeep.
Qed.

(** The sweep on a state one check short of a hundred. *)
Example sweep_forgets_the_idle :
  let out := check BUSINESS Samples.before_sweep (seconds 1000) "agent1qalice" "help" in
  _requests out.1 !! "agent1qold" = None /\
  _requests out.1 !! "agent1qnew" = Some [seconds 990] /\
  _requests out.1 !! "agent1qalice" = Some [seconds 1000].
Proof. vm_compute. repeat split; reflexivity. Qed.

End SecurityMore.


(** ** The health counters of data-agent.py *)

Module HealthFacts.

Import Health.

Lemma run_counts outcomes h :
  _requests (run h outcomes) = _requests h + Z.of_nat (length outcomes) /\
  _errors (run h outcomes) = _errors h + failures outcomes /\
  _start (run h outcomes) = _start h.
Proof.
  revert h. induction outcomes as [|b outcomes IH]; intros h; simpl.
  - unfold failures. simpl. repeat split; lia.
  - destruct (IH (record h b)) as (H1 & H2 & H3). unfold run in *.
    rewrite H1, H2, H3. unfold failures in *. simpl.
    destruct b; simpl; repeat split; lia.
Qed.

Lemma failures_le outcomes : 0 <= failures outcomes <= Z.of_nat (length outcomes).
Proof.
  unfold failures. pose proof (List.filter_length_le negb outcomes). lia.
Qed.

(** The rate is below ten exactly when fewer than a tenth failed. *)
Lemma rate_below_ten e r :
  0 < r -> (Qle_bool 10 (inject_Z e / inject_Z r * 100) = false <-> 10 * e < r).
Proof.
  intros Hr. destruct r as [|p|p]; try lia.
  rewrite <- not_true_iff_false, Qle_bool_iff.
  unfold Qle, Qdiv, Qmult, Qinv, inject_Z. simpl. lia.
Qed.

(** X9.  After any sequence of recorded outcomes the failure count is the
    number of failed ones and never exceeds the request count, and the
    reported status is "healthy" exactly when there were no requests or
    fewer than one in ten failed. *)
Theorem health_reflects_outcomes start outcomes now :
  let h := run (init start) outcomes in
  _requests h = Z.of_nat (length outcomes) /\
  _errors h = failures outcomes /\
  0 <= _errors h <= _requests h /\
  (status (status_of h now) = "healthy" <->
   outcomes = [] \/ 10 * failures outcomes < Z.of_nat (length outcomes)).
Proof.
  intros h. destruct (run_counts outcomes (init start)) as (H1 & H2 & _).
  fold h in H1, H2. simpl in H1, H2. pose proof (failures_le outcomes) as Hle.
  split; [exact H1|]. split; [exact H2|]. split; [lia|].
  unfold status_of, error_rate. simpl. rewrite H1, H2.
  destruct outcomes as [|b outcomes].
  - simpl. split; [now left|reflexivity].
  - destruct (Z.eqb_spec (Z.of_nat (length (b :: outcomes))) 0) as [H0|_];
      [simpl in H0; lia|].
    pose proof (rate_below_ten (failures (b :: outcomes))
                  (Z.of_nat (length (b :: outcomes))) ltac:(simpl; lia)) as Hrate.
    destruct (Qle_bool 10 _).
    + split; [discriminate|]. intros [Hnil|Hlt]; [discriminate|].
      apply Hrate in Hlt. discriminate.
    + split; [|reflexivity]. intros _. right. now apply Hrate.
Qed.

(** Nine successes and one failure is the first degraded mix. *)
Example one_in_ten_degrades :
  status (status_of (run (init 0) (false :: repeat true 9)) 0) = "degraded" /\
  status (status_of (run (init 0) (false :: repeat true 10)) 0) = "healthy".
Proof. split; reflexivity. Qed.

End HealthFacts.


(** ** The windows kept in storage *)

Module StoredWindowFacts.

Import RateGate RateGateFacts StoredWindow.

Lemma since_recent span t1 now l :
  now - t1 < span -> since t1 (recent span now l) = since t1 l.
Proof.
  intros Hnear. unfold since, recent. rewrite PyDictFacts.filter_filter.
  f_equal. apply List.filter_ext. intros x.
  destruct (Z.leb_spec t1 x); [|now rewrite andb_false_r].
  rewrite andb_true_r. apply Z.ltb_lt. lia.
Qed.

Section trace.
Context {State Req : Type}.
Variables (stamps : State -> string -> list Z)
          (who : Req -> string) (when : Req -> Z) (counts : Req -> bool)
          (step : State -> Req -> State * bool)
          (span limit : Z).
Hypothesis Hgate : gates stamps who when counts step span limit.
Hypothesis Hfree : passes_uncounted stamps counts step.

Local Abbreviation allowed := (allowed who counts).

Lemma stored_since_step s r u t1 :
  t1 <= when r -> when r - t1 < span ->
  (since t1 (stamps s u)
   + (if counts r && String.eqb (who r) u && (step s r).2 then 1 else 0)
   <= since t1 (stamps (step s r).1 u))%nat.
Proof.
  intros Hlo Hhi. destruct (counts r) eqn:Hc; simpl.
  - pose proof (Hgate s r Hc) as H. cbv zeta in H.
    destruct (limit <=? _) in H.
    + destruct H as [-> H]. rewrite H, andb_false_r. lia.
    + destruct H as (-> & Hst & Hoth). rewrite andb_true_r.
      destruct (String.eqb_spec (who r) u) as [<-|Hne].
      * rewrite Hst. unfold since at 2. rewrite List.filter_app, length_app. simpl.
        destruct (Z.leb_spec t1 (when r)); [|lia]. simpl.
        fold (since t1 (recent span (when r) (stamps s (who r)))).
        rewrite since_recent by assumption. lia.
      * rewrite Hoth by congruence. lia.
  - destruct (Hfree s r Hc) as [_ H]. rewrite H. lia.
Qed.

Lemma stored_since_run reqs s u t1 t :
  Forall (fun q => t1 <= when q <= t) reqs -> t - t1 < span ->
  (since t1 (stamps s u) + allowed u reqs (run step s reqs).2
   <= since t1 (stamps (run step s reqs).1 u))%nat.
Proof.
  intros Hreqs Hnear. revert s.
  induction Hreqs as [|r reqs [Hlo Hhi] Hreqs IH]; intros s; simpl.
  - unfold StoredWindow.allowed. simpl. lia.
  - pose proof (stored_since_step s r u t1 Hlo ltac:(lia)) as Hstep.
    destruct (step s r) as [s1 ok] eqn:E1. specialize (IH s1).
    destruct (run step s1 reqs) as [s2 oks] eqn:E2. simpl in *.
    unfold StoredWindow.allowed in *. simpl.
    destruct (counts r && String.eqb (who r) u && ok); simpl; lia.
Qed.

(** Once [limit] counted requests of a sender were allowed within one
    span, the sender's next counted request in that span is refused. *)
Lemma stored_cap s reqs r t1 :
  counts r = true ->
  Forall (fun q => t1 <= when q <= when r) reqs ->
  when r - t1 < span ->
  limit <= Z.of_nat (allowed (who r) reqs (run step s reqs).2) ->
  (step (run step s reqs).1 r).2 = false.
Proof.
  intros Hc Hreqs Hnear Hfull.
  pose proof (stored_since_run reqs s (who r) t1 (when r) Hreqs Hnear) as Hsince.
  pose proof (Hgate (run step s reqs).1 r Hc) as H. cbv zeta in H.
  assert (Hwin : (since t1 (stamps (run step s reqs).1 (who r))
                  <= length (recent span (when r)
                               (stamps (run step s reqs).1 (who r))))%nat).
  { rewrite <- (since_recent span t1 (when r) _ Hnear).
    apply List.filter_length_le. }
  destruct (Z.leb_spec limit
              (Z.of_nat (length (recent span (when r)
                                   (stamps (run step s reqs).1 (who r))))));
    [tauto|lia].
Qed.

(** No list grows past [limit]. *)
Lemma stored_bound_step s r :
  0 <= limit ->
  (forall u, Z.of_nat (length (stamps s u)) <= limit) ->
  forall u, Z.of_nat (length (stamps (step s r).1 u)) <= limit.
Proof.
  intros Hl Hs u. destruct (counts r) eqn:Hc.
  - pose proof (Hgate s r Hc) as H. cbv zeta in H.
    destruct (Z.leb_spec limit
                (Z.of_nat (length (recent span (when r) (stamps s (who r)))))).
    + destruct H as [_ H]. rewrite H. apply Hs.
    + destruct H as (_ & Hst & Hoth).
      destruct (String.eqb_spec u (who r)) as [->|Hne].
      * rewrite Hst, length_app. simpl. lia.
      * rewrite Hoth by assumption. apply Hs.
  - destruct (Hfree s r Hc) as [_ H]. rewrite H. apply Hs.
Qed.

Lemma stored_bound_run reqs s :
  0 <= limit ->
  (forall u, Z.of_nat (length (stamps s u)) <= limit) ->
  forall u, Z.of_nat (length (stamps (run step s reqs).1 u)) <= limit.
Proof.
  intros Hl. revert s. induction reqs as [|r reqs IH]; intros s Hs; simpl; [exact Hs|].
  pose proof (stored_bound_step s r Hl Hs) as H1.
  destruct (step s r) as [s1 ok]. specialize (IH s1 H1).
  now destruct (run step s1 reqs) as [s2 oks].
Qed.

End trace.

End StoredWindowFacts.

Module DataAgentQuotaFacts.

Import RateGate StoredWindow StoredWindowFacts DataAgentQuota.

Lemma hourly_filter now l :
  List.filter (fun t => now - HOUR <? t) l = recent HOUR now l.
Proof.
  unfold recent. apply List.filter_ext. intros t.
  destruct (Z.ltb_spec (now - HOUR) t); symmetry; [apply Z.ltb_lt|apply Z.ltb_ge]; lia.
Qed.

Lemma hourly_gates cfg :
  gates stamps_of key_of clock counted (step cfg) HOUR (free_queries_per_hour cfg).
Proof.
  intros s r Hc pruned. unfold counted in Hc. apply negb_true_iff in Hc.
  unfold step, check_hourly_quota. rewrite Hc. rewrite hourly_filter.
  fold (stamps_of s ("hourly_" +:+ sender r)). fold (key_of r). fold pruned.
  destruct (free_queries_per_hour cfg <=? Z.of_nat (length pruned)); simpl.
  - split; [reflexivity|]. intros u. reflexivity.
  - split; [reflexivity|]. split.
    + apply SecurityFacts.stamps_insert_eq.
    + intros u Hu. apply SecurityFacts.stamps_insert_ne. congruence.
Qed.

Lemma hourly_passes_uncounted cfg : passes_uncounted stamps_of counted (step cfg).
Proof.
  intros s r Hc. unfold counted in Hc. apply negb_false_iff in Hc.
  unfold step, check_hourly_quota. rewrite Hc. simpl. split; reflexivity.
Qed.

(** X10.  The hourly quota of the free tier: a premium check is always
    allowed and writes nothing; a refused check writes nothing either; and
    once [free_queries_per_hour] free checks of a sender were allowed
    within one hour, the sender's next free check in that hour is refused,
    whatever other checks came in between. *)
Theorem hourly_quota_caps cfg ctx reqs r t1 :
  let limit := free_queries_per_hour cfg in
  (forall now sender,
     check_hourly_quota cfg ctx now sender "premium" = (ctx, (true, None))) /\
  (forall now sender tier,
     (check_hourly_quota cfg ctx now sender tier).2.1 = false ->
     (check_hourly_quota cfg ctx now sender tier).1 = ctx) /\
  (tier r <> "premium" ->
   Forall (fun q => t1 <= clock q <= clock r) reqs ->
   clock r - t1 < HOUR ->
   limit <= Z.of_nat (allowed key_of counted (key_of r) reqs
                        (run (step cfg) ctx reqs).2) ->
   (check_hourly_quota cfg (run (step cfg) ctx reqs).1 (clock r) (sender r)
      (tier r)).2.1 = false).
Proof.
  intros limit. split; [reflexivity|]. split.
  - intros now sender tier. unfold check_hourly_quota.
    destruct (String.eqb tier "premium"); [discriminate|].
    destruct (_ <=? _); [reflexivity|discriminate].
  - intros Htier Hreqs Hnear Hfull.
    apply (stored_cap stamps_of key_of clock counted (step cfg) HOUR limit
             (hourly_gates cfg) (hourly_passes_uncounted cfg) ctx reqs r t1);
      try assumption.
    unfold counted. apply negb_true_iff. now apply String.eqb_neq.
Qed.

(** Five free queries in ten minutes pass, the sixth is refused, and one
    an hour after the first passes again. *)
Example hourly_five_then_refused :
  let ctx := (run (step BUSINESS) ∅ Samples.hourly_reqs).1 in
  (run (step BUSINESS) ∅ Samples.hourly_reqs).2 = repeat true 6 /\
  (step BUSINESS ctx (Samples.hourly_next 300)).2 = false /\
  (step BUSINESS ctx (Samples.hourly_next 3600)).2 = true.
Proof. vm_compute. repeat split; reflexivity. Qed.

End DataAgentQuotaFacts.

Module GifterGateFacts.

Import RateGate StoredWindow StoredWindowFacts GifterGate.

Lemma rate_gates limit :
  gates stamps_of key_of snd (fun _ => true) (step limit) (seconds 60) limit.
Proof.
  intros s r _ pruned. unfold step, check_rate_limit.
  fold (stamps_of s ("rl_" +:+ r.1)). fold (key_of r).
  change (List.filter (fun t => r.2 - t <? seconds 60) (stamps_of s (key_of r)))
    with pruned.
  destruct (limit <=? Z.of_nat (length pruned)); simpl.
  - split; [reflexivity|]. intros u. reflexivity.
  - split; [reflexivity|]. split.
    + apply SecurityFacts.stamps_insert_eq.
    + intros u Hu. apply SecurityFacts.stamps_insert_ne. congruence.
Qed.

Lemma rate_passes_uncounted limit :
  passes_uncounted stamps_of (fun _ : string * Z => true) (step limit).
Proof. intros s r Hc. discriminate. Qed.

(** X11.  The gifter's rate limit: a refused call writes nothing; no
    sender's stored list ever holds more than [limit] readings; and once
    [limit] calls of a sender were allowed within 60 seconds, the sender's
    next call in those 60 seconds is refused. *)
Theorem gifter_rate_limit_caps limit reqs r t1 u :
  0 <= limit ->
  (forall ctx now sender,
     (check_rate_limit limit ctx now sender).2 = false ->
     (check_rate_limit limit ctx now sender).1 = ctx) /\
  Z.of_nat (length (stamps_of (run (step limit) ∅ reqs).1 u)) <= limit /\
  (Forall (fun q => t1 <= q.2 <= r.2) reqs ->
   r.2 - t1 < seconds 60 ->
   limit <= Z.of_nat (allowed key_of (fun _ => true) (key_of r) reqs
                        (run (step limit) ∅ reqs).2) ->
   (check_rate_limit limit (run (step limit) ∅ reqs).1 r.2 r.1).2 = false).
Proof.
  intros Hl. split; [|split].
  - intros ctx now sender. unfold check_rate_limit.
    destruct (_ <=? _); [reflexivity|discriminate].
  - apply (stored_bound_run stamps_of key_of snd (fun _ => true) (step limit)
             (seconds 60) limit (rate_gates limit) (rate_passes_uncounted limit)
             reqs ∅ Hl).
    intros v. unfold stamps_of. rewrite lookup_empty. simpl. lia.
  - intros Hreqs Hnear Hfull.
    apply (stored_cap stamps_of key_of snd (fun _ => true) (step limit)
             (seconds 60) limit (rate_gates limit) (rate_passes_uncounted limit)
             ∅ reqs r t1); auto.
Qed.

Lemma gifter_rate_limit_caps_witness :
  let reqs := map (fun i => ("agent1qalice", seconds (Z.of_nat i))) (seq 0 10) in
  0 <= RATE_LIMIT_PER_MINUTE /\
  (run (step RATE_LIMIT_PER_MINUTE) ∅ reqs).2 = repeat true 10 /\
  (check_rate_limit RATE_LIMIT_PER_MINUTE
     (run (step RATE_LIMIT_PER_MINUTE) ∅ reqs).1 (seconds 30) "agent1qalice").2
  = false.
Proof.
  intros reqs.
  assert (Hl : 0 <= RATE_LIMIT_PER_MINUTE) by discriminate.
  split; [exact Hl|]. split; [reflexivity|].
  destruct (gifter_rate_limit_caps RATE_LIMIT_PER_MINUTE reqs
              ("agent1qalice", seconds 30) 0 "rl_agent1qalice" Hl) as (_ & _ & H).
  apply H.
  - repeat constructor; vm_compute; discriminate.
  - reflexivity.
  - vm_compute. discriminate.
Defined.

End GifterGateFacts.


(** ** What the alert store of trading-agent.py keeps *)

Module TradingInvariantsFacts.

Import TradingAgent TradingAgentFacts TradingInvariants.

Lemma flags_only_refl a : flags_only a a.
Proof. now left. Qed.

Lemma flags_only_trans a b c : flags_only a b -> flags_only b c -> flags_only a c.
Proof. intros [-> | ->] [-> | ->]; unfold flags_only; auto. Qed.

Lemma Forall2_same {A} (R : A -> A -> Prop) (l : list A) :
  (forall a, R a a) -> Forall2 R l l.
Proof. intros H. induction l; constructor; auto. Qed.

Lemma Forall2_compose {A} (R : A -> A -> Prop) (l1 l2 l3 : list A) :
  (forall a b c, R a b -> R b c -> R a c) ->
  Forall2 R l1 l2 -> Forall2 R l2 l3 -> Forall2 R l1 l3.
Proof.
  intros Ht H12. revert l3. induction H12 as [|a b l1 l2 Hab H12 IH]; intros l3 H23.
  - inversion H23. constructor.
  - inversion H23 as [|? c ? l3' Hbc H23']; subst. constructor; eauto.
Qed.

(** The inner loop changes nothing but flags. *)
Lemma flagged_flags_only f w todo l0 l :
  (forall i a, In (i, a) todo -> l0 !! i = Some a) ->
  Forall2 flags_only l0 l -> Forall2 flags_only l0 (flagged f w todo l).
Proof.
  revert l. induction todo as [|[i a] todo IH]; intros l Htodo H; simpl; [exact H|].
  assert (Htodo' : forall j b, In (j, b) todo -> l0 !! j = Some b).
  { intros j b Hin. apply Htodo. now right. }
  destruct (fires f w i a); [|now apply IH].
  apply IH; [assumption|].
  rewrite <- (list_insert_id l0 i a) by (apply Htodo; now left).
  apply Forall2_insert; [exact H|now right].
Qed.

Lemma check_owner_owners f w todo ctx l :
  alert_owners (check_owner f w todo ctx l).1 = alert_owners ctx.
Proof.
  revert ctx l. induction todo as [|[i a] todo IH]; intros ctx l; simpl; [reflexivity|].
  destruct (fires f w i a); [|apply IH].
  specialize (IH (record_stat (save_alerts ctx w (<[i:=set_triggered a]> l))
                    "alerts_triggered") (<[i:=set_triggered a]> l)).
  destruct (check_owner f w todo _ _) as [ctx' out]. exact IH.
Qed.

Lemma owner_turn_flags f w ctx o :
  let out := check_owner f w (active_alerts (get_alerts ctx w)) ctx (get_alerts ctx w) in
  Forall2 flags_only (get_alerts ctx o) (get_alerts out.1 o).
Proof.
  intros out. unfold out. destruct (decide (o = w)) as [->|Hne].
  - rewrite check_owner_saved by reflexivity.
    apply flagged_flags_only.
    + intros i a Hin. now apply in_active_alerts in Hin.
    + apply Forall2_same, flags_only_refl.
  - rewrite check_owner_others by assumption.
    apply Forall2_same, flags_only_refl.
Qed.

Lemma check_owners_flags f owners ctx o :
  alert_owners (check_owners f owners ctx).1 = alert_owners ctx /\
  Forall2 flags_only (get_alerts ctx o) (get_alerts (check_owners f owners ctx).1 o).
Proof.
  revert ctx. induction owners as [|w owners IH]; intros ctx; simpl.
  - split; [reflexivity|]. apply Forall2_same, flags_only_refl.
  - pose proof (owner_turn_flags f w ctx o) as H1.
    pose proof (check_owner_owners f w (active_alerts (get_alerts ctx w)) ctx
                  (get_alerts ctx w)) as Ho.
    cbv zeta in H1.
    destruct (check_owner f w _ ctx _) as [ctx1 out1]. simpl in *.
    destruct (IH ctx1) as [Ho2 H2].
    destruct (check_owners f owners ctx1) as [ctx2 out2]. simpl in *.
    split; [congruence|].
    eapply Forall2_compose; [apply flags_only_trans|exact H1|exact H2].
Qed.

(** X12.  A sweep changes nothing in the stored alerts but [triggered]
    flags, and those it only sets: the owners and the length of every list
    stay, and every alert keeps its id, token, condition, threshold and
    [active] flag, so an alert that has fired is still listed as active. *)
Theorem sweep_only_sets_flags f ctx o :
  let ctx' := (check_alerts f ctx).1 in
  alert_owners ctx' = alert_owners ctx /\
  Forall2 flags_only (get_alerts ctx o) (get_alerts ctx' o) /\
  forall i a, entry ctx o i = Some a ->
    exists a', entry ctx' o i = Some a' /\
      id a' = id a /\ token a' = token a /\ condition a' = condition a /\
      threshold a' = threshold a /\ active a' = active a /\
      (triggered a = true -> triggered a' = true).
Proof.
  intros ctx'.
  assert (H : alert_owners ctx' = alert_owners ctx /\
              Forall2 flags_only (get_alerts ctx o) (get_alerts ctx' o)).
  { unfold ctx', check_alerts. destruct (alert_owners ctx) as [|w owners] eqn:E.
    - simpl. split; [exact E|]. apply Forall2_same, flags_only_refl.
    - destruct (check_owners_flags f (w :: owners) (record_stat ctx "checks_run") o)
        as [H1 H2]. split; [|exact H2]. rewrite H1. exact E. }
  destruct H as [Ho Hf]. split; [exact Ho|]. split; [exact Hf|].
  intros i a He. unfold entry in *.
  destruct (Forall2_lookup_l _ _ _ _ _ Hf He) as (a' & He' & [-> | ->]).
  - exists a. auto 10.
  - exists (set_triggered a). simpl. auto 10.
Qed.

Lemma get_alerts_register ctx s o :
  get_alerts (register_alert_owner ctx s) o = get_alerts ctx o.
Proof. unfold register_alert_owner. now destruct (existsb _ _). Qed.

Lemma register_owners ctx s :
  List.NoDup (alert_owners ctx) ->
  List.NoDup (alert_owners (register_alert_owner ctx s)) /\
  In s (alert_owners (register_alert_owner ctx s)) /\
  (forall o, In o (alert_owners ctx) ->
             In o (alert_owners (register_alert_owner ctx s))).
Proof.
  intros Hnd. unfold register_alert_owner.
  destruct (existsb (String.eqb s) (alert_owners ctx)) eqn:E.
  - split; [exact Hnd|]. split; [|auto].
    apply existsb_exists in E as [x [Hx Heq]]. apply String.eqb_eq in Heq. now subst.
  - simpl. split; [|split].
    + apply List.NoDup_app; [exact Hnd|repeat constructor; simpl; tauto|].
      intros x Hx [<-|[]].
      assert (existsb (String.eqb s) (alert_owners ctx) = true); [|congruence].
      apply existsb_exists. exists s. split; [exact Hx|apply String.eqb_refl].
    + apply in_app_iff. right. now left.
    + intros o Ho. apply in_app_iff. now left.
Qed.

Lemma numbered_snoc l a :
  numbered l -> id a = Z.of_nat (length l) + 1 -> numbered (l ++ [a]).
Proof.
  intros Hl Ha i b Hi. destruct (decide (i < length l)%nat) as [Hlt|Hge].
  - rewrite lookup_app_l in Hi by assumption. now apply Hl.
  - rewrite lookup_app_r in Hi by lia.
    destruct (i - length l)%nat as [|n] eqn:E; simpl in Hi; [|now destruct n].
    injection Hi as <-. rewrite Ha. f_equal. lia.
Qed.

(** What the loop of [remove_alert] does when it finds the alert. *)
Lemma remove_first_found x l l' :
  remove_first x l = Some l' ->
  exists n a, l !! n = Some a /\ id a = x /\ active a = true /\
              l' = <[n := deactivate a]> l.
Proof.
  revert l'. induction l as [|b l IH]; intros l'; simpl; [discriminate|].
  destruct ((id b =? x) && active b) eqn:E.
  - intros [= <-]. apply andb_true_iff in E as [Hid Hact].
    apply Z.eqb_eq in Hid. exists 0%nat, b. auto.
  - destruct (remove_first x l) as [l1|]; [|discriminate]. intros [= <-].
    destruct (IH l1 eq_refl) as (n & a & Hn & Hid & Hact & ->).
    exists (S n), a. auto.
Qed.

Lemma remove_first_none x l :
  (forall a, In a l -> id a = x -> active a = false) -> remove_first x l = None.
Proof.
  induction l as [|b l IH]; intros H; simpl; [reflexivity|].
  destruct (Z.eqb_spec (id b) x) as [Hid|Hid]; simpl.
  - rewrite (H b (or_introl eq_refl) Hid). simpl.
    rewrite IH; [reflexivity|]. intros a Ha. apply H. now right.
  - rewrite IH; [reflexivity|]. intros a Ha. apply H. now right.
Qed.

Lemma numbered_insert l n a b :
  numbered l -> l !! n = Some a -> id b = id a -> numbered (<[n := b]> l).
Proof.
  intros Hl Hn Hid i c Hi. destruct (decide (n = i)) as [->|Hne].
  - rewrite list_lookup_insert_eq in Hi by (eapply lookup_lt_Some; eauto).
    injection Hi as <-. rewrite Hid. now apply Hl.
  - rewrite list_lookup_insert_ne in Hi by assumption. now apply Hl.
Qed.

Lemma numbered_flags l l' : numbered l -> Forall2 flags_only l l' -> numbered l'.
Proof.
  intros Hl Hf i a' Hi.
  assert (Hlen := Forall2_length _ _ _ Hf).
  destruct (l !! i) as [a|] eqn:E.
  - pose proof (Forall2_lookup_lr _ _ _ _ _ _ Hf E Hi) as [-> | ->];
      [|simpl]; now apply Hl.
  - apply lookup_ge_None in E. apply lookup_lt_Some in Hi. lia.
Qed.

Lemma consistent_step cfg ctx op : consistent ctx -> consistent (step cfg ctx op).1.
Proof.
  intros [Hnd Hall].
  destruct op as [f|sender tok cond thr tier now|sender x]; simpl.
  - split.
    + rewrite (proj1 (sweep_only_sets_flags f ctx "")). exact Hnd.
    + intros o. destruct (sweep_only_sets_flags f ctx o) as (Ho & Hf & _).
      destruct (Hall o) as [Hnum Hown]. split.
      * eapply numbered_flags; eassumption.
      * intros Hne. rewrite Ho. apply Hown. intros Hnil.
        apply Forall2_length in Hf. rewrite Hnil in Hf. apply Hne.
        destruct (get_alerts _ o); [reflexivity|discriminate].
  - unfold create_alert. destruct (_ <=? _).
    + destruct (String.eqb tier "free"); split; assumption.
    + simpl. set (l := get_alerts ctx sender). set (a := Build_Alert _ _ _ _ _ _ _).
      destruct (register_owners (save_alerts ctx sender (l ++ [a])) sender Hnd)
        as (Hnd' & Hin & Hsub).
      split; [exact Hnd'|]. intros o. rewrite get_alerts_register.
      destruct (decide (o = sender)) as [->|Hne].
      * rewrite get_alerts_save. split; [|intros _; exact Hin].
        apply numbered_snoc; [apply Hall|reflexivity].
      * rewrite get_alerts_save_ne by assumption.
        destruct (Hall o) as [Hnum Hown]. split; [exact Hnum|].
        intros H. apply Hsub. simpl. now apply Hown.
  - unfold remove_alert.
    destruct (remove_first x (get_alerts ctx sender)) as [l'|] eqn:E;
      [|split; assumption].
    simpl. split; [exact Hnd|]. intros o.
    destruct (decide (o = sender)) as [->|Hne].
    + rewrite get_alerts_save.
      apply remove_first_found in E as (n & a & Hn & Hid & Hact & ->).
      destruct (Hall sender) as [Hnum Hown]. split.
      * eapply numbered_insert; eauto.
      * intros _. simpl. apply Hown. intros Hnil. rewrite Hnil in Hn. discriminate.
    + rewrite get_alerts_save_ne by assumption. apply Hall.
Qed.

Lemma consistent_run cfg ops ctx : consistent ctx -> consistent (run cfg ctx ops).1.
Proof.
  revert ctx. induction ops as [|op ops IH]; intros ctx Hc; simpl; [exact Hc|].
  pose proof (consistent_step cfg ctx op Hc) as H1.
  destruct (step cfg ctx op) as [ctx1 out1]. specialize (IH ctx1 H1).
  now destruct (run cfg ctx1 ops) as [ctx2 out2].
Qed.

Lemma consistent_empty : consistent Samples.empty_storage.
Proof.
  split; [constructor|]. intros o. unfold get_alerts. simpl. rewrite lookup_empty.
  split; [intros i a H; discriminate|]. intros H. now contradiction H.
Qed.

(** X13.  In every storage built from the empty one by creating alerts,
    removing alerts and sweeping, the alert at position [i] of a sender's
    list carries the id [i + 1], so ids are unique per sender; every
    sender with an alert is on the owners list, and on it once, so a sweep
    visits each stored alert exactly once. *)
Theorem alert_store_is_consistent cfg ops o :
  let ctx := (run cfg Samples.empty_storage ops).1 in
  List.NoDup (alert_owners ctx) /\
  (forall i a, entry ctx o i = Some a -> id a = Z.of_nat i + 1) /\
  (forall i j a b, entry ctx o i = Some a -> entry ctx o j = Some b ->
                   id a = id b -> i = j) /\
  (get_alerts ctx o <> [] -> In o (alert_owners ctx)).
Proof.
  intros ctx.
  destruct (consistent_run cfg ops Samples.empty_storage consistent_empty)
    as [Hnd Hall]. fold ctx in Hnd, Hall.
  destruct (Hall o) as [Hnum Hown].
  split; [exact Hnd|]. split; [exact Hnum|]. split; [|exact Hown].
  intros i j a b Hi Hj Hid. apply Hnum in Hi, Hj. lia.
Qed.

Lemma step_length cfg ctx op o :
  (length (get_alerts ctx o) <= length (get_alerts (step cfg ctx op).1 o))%nat.
Proof.
  destruct op as [f|sender tok cond thr tier now|sender x]; simpl.
  - destruct (sweep_only_sets_flags f ctx o) as (_ & Hf & _).
    apply Forall2_length in Hf. lia.
  - unfold create_alert. destruct (_ <=? _).
    + destruct (String.eqb tier "free"); simpl; lia.
    + simpl. rewrite get_alerts_register.
      destruct (decide (o = sender)) as [->|Hne].
      * rewrite get_alerts_save, length_app. lia.
      * rewrite get_alerts_save_ne by assumption. lia.
  - unfold remove_alert.
    destruct (remove_first x (get_alerts ctx sender)) as [l'|] eqn:E; simpl; [|lia].
    destruct (decide (o = sender)) as [->|Hne].
    + rewrite get_alerts_save.
      apply remove_first_found in E as (n & a & _ & _ & _ & ->).
      rewrite length_insert. lia.
    + rewrite get_alerts_save_ne by assumption. lia.
Qed.

Lemma run_length cfg ops ctx o :
  (length (get_alerts ctx o) <= length (get_alerts (run cfg ctx ops).1 o))%nat.
Proof.
  revert ctx. induction ops as [|op ops IH]; intros ctx; simpl; [lia|].
  pose proof (step_length cfg ctx op o) as H1.
  destruct (step cfg ctx op) as [ctx1 out1]. specialize (IH ctx1).
  destruct (run cfg ctx1 ops) as [ctx2 out2]. simpl in *. lia.
Qed.

(** X14.  Removing an alert frees no slot: the limit of [create_alert]
    counts every alert ever stored for the sender, removed and triggered
    ones included, so once a sender has reached the limit of a tier every
    later [create_alert] at that tier is refused, whatever was removed or
    swept in between. *)
Theorem removed_alerts_still_count cfg ctx ops sender tok cond thr tier now :
  max_alerts cfg tier <= Z.of_nat (length (get_alerts ctx sender)) ->
  let later := (run cfg ctx ops).1 in
  create_alert cfg later sender tok cond thr tier now =
  (later, (false, if String.eqb tier "free" then FreeTierLimit
                  else AlertLimitReached (max_alerts cfg tier))).
Proof.
  intros Hfull later. pose proof (run_length cfg ops ctx sender) as Hlen.
  fold later in Hlen. unfold create_alert. fold (max_alerts cfg tier).
  destruct (Z.leb_spec (max_alerts cfg tier)
              (Z.of_nat (length (get_alerts later sender)))); [|lia].
  now destruct (String.eqb tier "free").
Qed.

Lemma removed_alerts_still_count_witness :
  let ctx := Samples.watch_ctx in
  max_alerts BUSINESS "free" <= Z.of_nat (length (get_alerts ctx "agent1qalice")) /\
  (remove_alert ctx "agent1qalice" 1).2 = (true, AlertRemoved 1) /\
  (create_alert BUSINESS (remove_alert ctx "agent1qalice" 1).1
     "agent1qalice" "FET" "below" 5 "free" "2025-03-02T09:00:00").2
  = (false, FreeTierLimit).
Proof.
  intros ctx.
  assert (H : max_alerts BUSINESS "free"
              <= Z.of_nat (length (get_alerts ctx "agent1qalice")))
    by (vm_compute; discriminate).
  split; [exact H|]. split; [reflexivity|].
  pose proof (removed_alerts_still_count BUSINESS ctx [Remove "agent1qalice" 1]
                "agent1qalice" "FET" "below" 5 "free" "2025-03-02T09:00:00" H) as Hc.
  cbv zeta in Hc. simpl run in Hc. simpl fst in Hc.
  exact (f_equal snd Hc).
Defined.

(** X15.  In a storage built from the empty one, a successful
    [remove_alert] deactivates exactly the alert with that id, which sits
    at position [id - 1], and leaves every other alert as it was; removing
    the same id again is answered "not found". *)
Theorem remove_alert_once cfg ops sender x :
  let ctx := (run cfg Samples.empty_storage ops).1 in
  let out := remove_alert ctx sender x in
  out.2.1 = true ->
  (exists a, entry ctx sender (Z.to_nat (x - 1)) = Some a /\ id a = x /\
             active a = true /\
             get_alerts out.1 sender
             = <[Z.to_nat (x - 1) := deactivate a]> (get_alerts ctx sender)) /\
  (forall o, o <> sender -> get_alerts out.1 o = get_alerts ctx o) /\
  remove_alert out.1 sender x = (out.1, (false, AlertNotFound x)).
Proof.
  intros ctx out Hok.
  destruct (consistent_run cfg ops Samples.empty_storage consistent_empty)
    as [_ Hall]. fold ctx in Hall. destruct (Hall sender) as [Hnum _].
  unfold out, remove_alert in *.
  destruct (remove_first x (get_alerts ctx sender)) as [l'|] eqn:E; [|discriminate].
  simpl. apply remove_first_found in E as (n & a & Hn & Hid & Hact & ->).
  assert (Hx : Z.to_nat (x - 1) = n).
  { apply Hnum in Hn. lia. }
  rewrite Hx. split; [|split].
  - exists a. rewrite get_alerts_save. unfold entry. auto.
  - intros o Hne. now apply get_alerts_save_ne.
  - rewrite get_alerts_save. rewrite remove_first_none; [reflexivity|].
    intros b Hb Hidb. apply list_elem_of_In, list_elem_of_lookup in Hb as [j Hj].
    assert (Hnum' : numbered (<[n := deactivate a]> (get_alerts ctx sender))).
    { eapply numbered_insert; eauto. }
    pose proof (Hnum' j b Hj) as Hjb. pose proof (Hnum n a Hn) as Hna.
    assert (j = n) by lia. subst j.
    rewrite list_lookup_insert_eq in Hj by (eapply lookup_lt_Some; eauto).
    now injection Hj as <-.
Qed.

Lemma remove_alert_once_witness :
  let ops := [Create "agent1qalice" "FET" "above" 10 "premium" "2025-03-01T09:00:00";
              Create "agent1qalice" "GIFT" "below" 2 "premium" "2025-03-01T09:05:00"] in
  let ctx := (run BUSINESS Samples.empty_storage ops).1 in
  (remove_alert ctx "agent1qalice" 2).2.1 = true /\
  (remove_alert (remove_alert ctx "agent1qalice" 2).1 "agent1qalice" 2).2
  = (false, AlertNotFound 2).
Proof.
  intros ops ctx.
  assert (H : (remove_alert ctx "agent1qalice" 2).2.1 = true) by reflexivity.
  split; [exact H|].
  destruct (remove_alert_once BUSINESS ops "agent1qalice" 2 H) as (_ & _ & Hr).
  exact (f_equal snd Hr).
Defined.

End TradingInvariantsFacts.


(** ** What the gifter pays out over many claims *)

Module GifterLedgerFacts.

Import Gifter GifterFacts GifterLedger.

Lemma paid_to_app u ps qs : paid_to u (ps ++ qs) = paid_to u ps ++ paid_to u qs.
Proof. unfold paid_to. now rewrite List.filter_app, map_app. Qed.

Lemma paid_to_other u v ts : v <> u -> paid_to u (map (pair v) ts) = [].
Proof.
  intros Hne. unfold paid_to. induction ts as [|t ts IH]; simpl; [reflexivity|].
  destruct (String.eqb_spec v u); [contradiction|exact IH].
Qed.

Lemma paid_to_own u ts : paid_to u (map (pair u) ts) = ts.
Proof.
  unfold paid_to. induction ts as [|t ts IH]; simpl; [reflexivity|].
  rewrite String.eqb_refl. simpl. now rewrite IH.
Qed.

(** A claim that sends anything puts its sender on record. *)
Lemma paid_is_recorded w ctx sender text :
  transfers (claim_welcome w ctx sender text) <> [] ->
  is_Some (welcome_claims (storage (claim_welcome w ctx sender text)) !! sender).
Proof.
  unfold claim_welcome.
  destruct (has_claimed_welcome ctx sender); [now intros []|].
  destruct (find_evm text); [|now intros []].
  destruct (_ <=? _); [now intros []|].
  destruct (negb _); [now intros []|].
  destruct (fet_result w); [|now intros []].
  intros _. destruct (bnb_result w); simpl; rewrite lookup_insert_eq; eauto.
Qed.

(** What one claim sends. *)
Lemma claim_sends w ctx sender text :
  let ts := transfers (claim_welcome w ctx sender text) in
  ts = [] \/
  exists a h, find_evm text = Some a /\
    (ts = [FetTransfer a WELCOME_FET h] \/
     exists h', ts = [FetTransfer a WELCOME_FET h; BnbTransfer a WELCOME_BNB h']).
Proof.
  unfold claim_welcome.
  destruct (has_claimed_welcome ctx sender); [now left|].
  destruct (find_evm text) as [a|]; [|now left].
  destruct (_ <=? _); [now left|].
  destruct (negb _); [now left|].
  destruct (fet_result w) as [h|]; [|now left].
  right. exists a, h. split; [reflexivity|].
  destruct (bnb_result w) as [h'|]; simpl; eauto.
Qed.

Lemma recorded_is_unpaid claims ctx u :
  is_Some (welcome_claims ctx !! u) -> paid_to u (payments ctx claims) = [].
Proof.
  revert ctx. induction claims as [|m claims IH]; intros ctx Hc; [reflexivity|].
  simpl. rewrite paid_to_app.
  rewrite IH by now apply claim_keeps_record.
  destruct (decide (sender m = u)) as [->|Hne].
  - now rewrite claim_again.
  - now rewrite paid_to_other.
Qed.

(** X16.  One welcome gift per sender: over any sequence of claims, from
    any storage, the transfers caused by one sender's claims are none, or
    one transfer of [WELCOME_FET], or that and one of [WELCOME_BNB] to the
    same address; a sender already on record causes none.  A claim whose
    BNB transfer failed is not made up for by a later one. *)
Theorem one_welcome_gift_per_sender ctx claims u :
  let got := paid_to u (payments ctx claims) in
  (is_Some (welcome_claims ctx !! u) -> got = []) /\
  (got = [] \/
   exists a h,
     got = [FetTransfer a WELCOME_FET h] \/
     exists h', got = [FetTransfer a WELCOME_FET h; BnbTransfer a WELCOME_BNB h']).
Proof.
  intros got. split; [apply recorded_is_unpaid|]. unfold got. clear got.
  revert ctx. induction claims as [|m claims IH]; intros ctx; [now left|].
  simpl. rewrite paid_to_app.
  destruct (decide (sender m = u)) as [<-|Hne].
  - rewrite paid_to_own.
    pose proof (paid_is_recorded (world m) ctx (sender m) (text m)) as Hrec.
    destruct (claim_sends (world m) ctx (sender m) (text m)) as [Hno|(a & h & _ & Hts)].
    + rewrite Hno. apply IH.
    + assert (Hne : transfers (claim_welcome (world m) ctx (sender m) (text m)) <> []).
      { destruct Hts as [-> | [h' ->]]; discriminate. }
      rewrite (recorded_is_unpaid claims _ _ (Hrec Hne)), app_nil_r.
      right. exists a, h. exact Hts.
  - rewrite paid_to_other by assumption. apply IH.
Qed.

Lemma substring_all s : substring 0 (String.length s) s = s.
Proof. induction s as [|c s IH]; simpl; [reflexivity|now rewrite IH]. Qed.

Lemma substring_split n s :
  s = substring 0 n s +:+ substring n (String.length s - n) s.
Proof.
  revert s. induction n as [|n IH]; intros [|c s]; try reflexivity.
  - change (String c s = substring 0 (String.length (String c s)) (String c s)).
    now rewrite substring_all.
  - change (String c s = String c (substring 0 n s
                                     +:+ substring n (String.length s - n) s)).
    now rewrite <- IH.
Qed.

Lemma all_hex_length n s : all_hex n s = true -> (n <= String.length s)%nat.
Proof.
  revert s. induction n as [|n IH]; intros [|c s]; simpl; try lia; try discriminate.
  intros H. apply andb_true_iff in H as [_ H]. apply IH in H. lia.
Qed.

Lemma length_substring_from n m s :
  (String.length (substring n m s) <= String.length s - n)%nat.
Proof.
  revert m s. induction n as [|n IH]; intros m s.
  - revert s. induction m as [|m IHm]; intros [|c s]; simpl; try lia.
    specialize (IHm s). lia.
  - destruct s as [|c s]; simpl; [lia|apply IH].
Qed.

Lemma length_substring_0 m s :
  (m <= String.length s)%nat -> String.length (substring 0 m s) = m.
Proof.
  revert s. induction m as [|m IH]; intros [|c s]; simpl; try lia; try reflexivity.
  intros H. rewrite IH; lia.
Qed.

Lemma substring_substring n m k s :
  (n + m <= k)%nat -> substring n m (substring 0 k s) = substring n m s.
Proof.
  revert m k s. induction n as [|n IH]; intros m k s Hk.
  - revert k s Hk. induction m as [|m IHm]; intros k s Hk.
    + now destruct (substring 0 k s), s.
    + destruct k as [|k]; [lia|]. destruct s as [|c s]; [reflexivity|].
      simpl. rewrite IHm by lia. reflexivity.
  - destruct k as [|k]; [lia|]. destruct s as [|c s]; [reflexivity|].
    simpl. apply IH. lia.
Qed.

Lemma prefix_substring p k s :
  (String.length p <= k)%nat ->
  String.prefix p (substring 0 k s) = String.prefix p s.
Proof.
  revert k s. induction p as [|a p IH]; intros k s Hk.
  - now destruct (substring 0 k s), s.
  - simpl in Hk. destruct k as [|k]; [lia|]. destruct s as [|c s]; [reflexivity|].
    simpl. destruct (Ascii.ascii_dec a c); [|reflexivity]. apply IH. lia.
Qed.

Lemma occurs_in_cons a c text : occurs_in a text -> occurs_in a (String c text).
Proof. intros (p & q & ->). now exists (String c p), q. Qed.

Lemma evm_at s :
  String.prefix "0x" s = true -> all_hex 40 (substring 2 40 s) = true ->
  well_formed (substring 0 42 s) /\ occurs_in (substring 0 42 s) s.
Proof.
  intros Hp Hh.
  assert (Hlen : (42 <= String.length s)%nat).
  { pose proof (all_hex_length _ _ Hh) as H1.
    pose proof (length_substring_from 2 40 s) as H2. lia. }
  split; [split; [|split]|].
  - now apply length_substring_0.
  - rewrite prefix_substring; [exact Hp|simpl; lia].
  - rewrite substring_substring by lia. exact Hh.
  - exists "", (substring 42 (String.length s - 42) s).
    change (s = substring 0 42 s +:+ substring 42 (String.length s - 42) s).
    apply substring_split.
Qed.

(** What [re.search] finds is an address, and a piece of the text. *)
Lemma find_evm_found text a :
  find_evm text = Some a -> well_formed a /\ occurs_in a text.
Proof.
  induction text as [|c text IH]; [discriminate|].
  unfold find_evm; fold find_evm.
  destruct (String.prefix "0x" (String c text)
            && all_hex 40 (substring 2 40 (String c text))) eqn:E.
  - apply andb_true_iff in E as [Hp Hh]. intros H.
    assert (Ha : a = substring 0 42 (String c text)) by congruence.
    rewrite Ha. now apply evm_at.
  - intros H. destruct (IH H) as [Hw Ho]. split; [exact Hw|].
    now apply occurs_in_cons.
Qed.

(** X17.  Whatever a welcome claim sends goes to the address that
    [re.search] finds in the message: a string of ["0x"] and forty
    hexadecimal digits that occurs in the text of the claim, and the same
    one for the FET and the BNB transfer.  The guard of [send_fet] and
    [send_bnb] against an invalid recipient never turns such an address
    down. *)
Theorem gift_goes_to_the_wallet_in_the_message w ctx sender text t :
  In t (transfers (claim_welcome w ctx sender text)) ->
  find_evm text = Some (recipient t) /\
  well_formed (recipient t) /\ occurs_in (recipient t) text /\
  invalid_recipient (recipient t) = false.
Proof.
  intros Hin.
  destruct (claim_sends w ctx sender text) as [Hno|(a & h & Hf & Hts)].
  - rewrite Hno in Hin. destruct Hin.
  - assert (Hr : recipient t = a).
    { destruct Hts as [Hts | [h' Hts]]; rewrite Hts in Hin; simpl in Hin;
        intuition (subst; reflexivity). }
    rewrite Hr. split; [exact Hf|].
    destruct (find_evm_found _ _ Hf) as [Hw Ho].
    split; [exact Hw|]. split; [exact Ho|].
    destruct Hw as (Hlen & Hp & _). unfold invalid_recipient, str_len.
    rewrite Hp, Hlen. reflexivity.
Qed.

Lemma gift_goes_to_the_wallet_in_the_message_witness :
  let t := FetTransfer "0x1234567890abcdef1234567890ABCDEF12345678" WELCOME_FET "0xfe8" in
  In t (transfers (claim_welcome Samples.all_paid Samples.no_claims "agent1qalice"
                     Samples.claim_text)) /\
  occurs_in (recipient t) Samples.claim_text.
Proof.
  intros t.
  assert (H : In t (transfers (claim_welcome Samples.all_paid Samples.no_claims
                                 "agent1qalice" Samples.claim_text)))
    by (left; reflexivity).
  split; [exact H|].
  exact (proj1 (proj2 (proj2 (gift_goes_to_the_wallet_in_the_message _ _ _ _ _ H)))).
Defined.

Lemma daily_key_inj d d' : "daily_" +:+ d = "daily_" +:+ d' -> d = d'.
Proof. apply TweetAgentFacts.append_inj_l. Qed.

Lemma daily_count_step w ctx sender text d :
  let r := claim_welcome w ctx sender text in
  get_daily_claim_count (storage r) d
  = get_daily_claim_count ctx d
    + match transfers r with
      | [] => 0
      | _ :: _ => if String.eqb (today_counted w) d then 1 else 0
      end.
Proof.
  unfold claim_welcome.
  destruct (has_claimed_welcome ctx sender); [simpl; lia|].
  destruct (find_evm text); [|simpl; lia].
  destruct (_ <=? _); [simpl; lia|].
  destruct (negb _); [simpl; lia|].
  destruct (fet_result w); [|simpl; lia].
  assert (H : get_daily_claim_count
                (increment_daily_claims
                   (record_welcome_claim ctx sender (now_recorded w))
                   (today_counted w)) d
              = get_daily_claim_count ctx d
                + (if String.eqb (today_counted w) d then 1 else 0)).
  { unfold get_daily_claim_count, increment_daily_claims. simpl.
    destruct (String.eqb_spec (today_counted w) d) as [->|Hne].
    - now rewrite lookup_insert_eq.
    - rewrite lookup_insert_ne; [lia|]. intros H. now apply daily_key_inj in H. }
  destruct (bnb_result w); exact H.
Qed.

Lemma paid_below_cap w ctx sender text :
  transfers (claim_welcome w ctx sender text) <> [] ->
  get_daily_claim_count ctx (today_checked w) < MAX_CLAIMS_PER_DAY.
Proof.
  unfold claim_welcome.
  destruct (has_claimed_welcome ctx sender); [now intros []|].
  destruct (find_evm text); [|now intros []].
  destruct (Z.leb_spec MAX_CLAIMS_PER_DAY (get_daily_claim_count ctx (today_checked w)));
    [now intros []|]. intros _. assumption.
Qed.

(** X18.  The day's counter counts the gifts: after any sequence of claims
    the counter of a day has grown by the number of claims that were paid
    on it, a claim whose BNB transfer failed included; and when every
    claim reads the same day at its limit check and at its count, no day
    that starts within the limit ever sees more than [MAX_CLAIMS_PER_DAY]
    gifts. *)
Theorem daily_gifts_are_capped claims ctx d :
  get_daily_claim_count (run ctx claims) d
  = get_daily_claim_count ctx d + gifts_on d ctx claims /\
  (Forall (fun m => today_checked (world m) = today_counted (world m)) claims ->
   get_daily_claim_count ctx d <= MAX_CLAIMS_PER_DAY ->
   get_daily_claim_count ctx d + gifts_on d ctx claims <= MAX_CLAIMS_PER_DAY).
Proof.
  revert ctx. induction claims as [|m claims IH]; intros ctx.
  - simpl. split; [lia|]. intros _ H. lia.
  - simpl. destruct (IH (storage (claim_welcome (world m) ctx (sender m) (text m))))
      as [IH1 IH2].
    pose proof (daily_count_step (world m) ctx (sender m) (text m) d) as Hs.
    cbv zeta in Hs. split.
    { change (run ctx (m :: claims))
        with (run (storage (claim_welcome (world m) ctx (sender m) (text m))) claims).
      rewrite IH1, Hs. lia. }
    intros Hall Hle. inversion Hall as [|? ? Hm Hall']; subst.
    rewrite Hs in IH2. specialize (IH2 Hall').
    assert (get_daily_claim_count ctx d
            + match transfers (claim_welcome (world m) ctx (sender m) (text m)) with
              | [] => 0
              | _ :: _ => if String.eqb (today_counted (world m)) d then 1 else 0
              end <= MAX_CLAIMS_PER_DAY); [|lia].
    pose proof (paid_below_cap (world m) ctx (sender m) (text m)) as Hp.
    destruct (transfers (claim_welcome (world m) ctx (sender m) (text m)));
      [lia|].
    destruct (String.eqb_spec (today_counted (world m)) d) as [<-|]; [|lia].
    rewrite Hm in Hp. specialize (Hp ltac:(discriminate)). lia.
Qed.

End GifterLedgerFacts.


(** ** Referrals and builder rewards of the gifter *)

Module GifterRewardsFacts.

Import Gifter GifterRewards.

Lemma referral_count_step w ctx sender text u :
  let r := referral w ctx sender text in
  get_referral_count (r_storage r) u
  = get_referral_count ctx u
    + (if String.eqb sender u then Z.of_nat (length (r_transfers r)) else 0).
Proof.
  unfold referral.
  destruct (find_agent text) as [referred|]; [|simpl; destruct (String.eqb _ _); lia].
  destruct (find_evm text) as [a|]; [|simpl; destruct (String.eqb _ _); lia].
  destruct (String.eqb referred sender); [simpl; destruct (String.eqb _ _); lia|].
  destruct (_ <=? _); [simpl; destruct (String.eqb _ _); lia|].
  destruct (negb _); [simpl; destruct (String.eqb _ _); lia|].
  destruct (fet_result w); [|simpl; destruct (String.eqb _ _); lia].
  simpl. unfold get_referral_count. simpl.
  destruct (String.eqb_spec sender u) as [->|Hne].
  - rewrite lookup_insert_eq. simpl. lia.
  - rewrite lookup_insert_ne by assumption. lia.
Qed.

Lemma referral_paid w ctx sender text :
  r_transfers (referral w ctx sender text) <> [] ->
  get_referral_count ctx sender < MAX_REFERRALS_PER_AGENT /\
  length (r_transfers (referral w ctx sender text)) = 1%nat /\
  exists referred, find_agent text = Some referred /\ referred <> sender /\
                   r_notified (referral w ctx sender text) = Some referred.
Proof.
  unfold referral.
  destruct (find_agent text) as [referred|]; [|now intros []].
  destruct (find_evm text) as [a|]; [|now intros []].
  destruct (String.eqb_spec referred sender); [now intros []|].
  destruct (Z.leb_spec MAX_REFERRALS_PER_AGENT (get_referral_count ctx sender));
    [now intros []|].
  destruct (negb _); [now intros []|].
  destruct (fet_result w); [|now intros []].
  intros _. simpl. eauto 10.
Qed.

Lemma referral_unpaid w ctx sender text :
  r_transfers (referral w ctx sender text) = [] ->
  r_storage (referral w ctx sender text) = ctx /\
  r_notified (referral w ctx sender text) = None.
Proof.
  unfold referral.
  destruct (find_agent text) as [referred|]; [|now intros _].
  destruct (find_evm text) as [a|]; [|now intros _].
  destruct (String.eqb referred sender); [now intros _|].
  destruct (_ <=? _); [now intros _|].
  destruct (negb _); [now intros _|].
  destruct (fet_result w); [discriminate|now intros _].
Qed.

(** X19.  Referral rewards: a sender's referral count is its earlier count
    plus the rewards paid to it, so from a count within the limit no
    sender is ever paid more than [MAX_REFERRALS_PER_AGENT] rewards; a
    reward is paid only for a message that names an agent other than the
    sender, and then that agent is notified; a message that pays nothing
    writes nothing.  Whether the named agent was referred before plays no
    part: what is sent and answered is the same in two storages that
    agree on the sender's count. *)
Theorem referral_rewards_are_capped ms ctx u :
  get_referral_count (refer_all ctx ms) u = get_referral_count ctx u + rewards u ctx ms /\
  (get_referral_count ctx u <= MAX_REFERRALS_PER_AGENT ->
   get_referral_count ctx u + rewards u ctx ms <= MAX_REFERRALS_PER_AGENT) /\
  (forall m, r_transfers (refer ctx m) <> [] ->
     exists referred, find_agent (m_text m) = Some referred /\
                      referred <> m_sender m /\
                      r_notified (refer ctx m) = Some referred) /\
  (forall m, r_transfers (refer ctx m) = [] -> r_storage (refer ctx m) = ctx) /\
  (forall m ctx', get_referral_count ctx' (m_sender m) = get_referral_count ctx (m_sender m) ->
     r_transfers (refer ctx' m) = r_transfers (refer ctx m) /\
     r_notified (refer ctx' m) = r_notified (refer ctx m)).
Proof.
  split; [|split; [|split; [|split]]].
  - revert ctx. induction ms as [|m ms IH]; intros ctx; simpl; [lia|].
    change (refer_all ctx (m :: ms)) with (refer_all (r_storage (refer ctx m)) ms).
    rewrite IH. unfold refer at 1.
    pose proof (referral_count_step (m_world m) ctx (m_sender m) (m_text m) u) as H.
    cbv zeta in H. rewrite H. unfold refer. lia.
  - revert ctx. induction ms as [|m ms IH]; intros ctx Hle; simpl; [lia|].
    pose proof (referral_count_step (m_world m) ctx (m_sender m) (m_text m) u) as H.
    cbv zeta in H. fold (refer ctx m) in H.
    assert (Hle' : get_referral_count (r_storage (refer ctx m)) u
                   <= MAX_REFERRALS_PER_AGENT).
    { rewrite H. destruct (String.eqb_spec (m_sender m) u) as [<-|]; [|lia].
      destruct (r_transfers (refer ctx m)) eqn:E; [simpl; lia|].
      destruct (referral_paid (m_world m) ctx (m_sender m) (m_text m)) as (Hlt & Hone & _).
      { fold (refer ctx m). rewrite E. discriminate. }
      fold (refer ctx m) in Hone. rewrite E in Hone. rewrite Hone. lia. }
    specialize (IH _ Hle'). rewrite H in IH. lia.
  - intros m Hp. destruct (referral_paid _ _ _ _ Hp) as (_ & _ & H). exact H.
  - intros m Hu. now apply referral_unpaid.
  - intros m ctx' Hc. unfold refer, referral. rewrite Hc.
    destruct (find_agent (m_text m)) as [referred|]; [|auto].
    destruct (find_evm (m_text m)) as [a|]; [|auto].
    destruct (String.eqb referred (m_sender m)); [auto|].
    destruct (_ <=? _); [auto|].
    destruct (negb _); [auto|].
    destruct (fet_result (m_world m)); auto.
Qed.

Lemma referral_rewards_are_capped_witness :
  let ms := [Samples.referral_msg; Samples.referral_msg] in
  get_referral_count Samples.no_referrals "agent1qalice" <= MAX_REFERRALS_PER_AGENT /\
  rewards "agent1qalice" Samples.no_referrals ms = 2 /\
  get_referral_count Samples.no_referrals "agent1qalice"
  + rewards "agent1qalice" Samples.no_referrals ms <= MAX_REFERRALS_PER_AGENT.
Proof.
  intros ms.
  assert (H : get_referral_count Samples.no_referrals "agent1qalice"
              <= MAX_REFERRALS_PER_AGENT) by (vm_compute; discriminate).
  split; [exact H|]. split; [vm_compute; reflexivity|].
  exact (proj1 (proj2 (referral_rewards_are_capped ms Samples.no_referrals
                         "agent1qalice")) H).
Defined.

(** One builder claim either pays nothing and writes nothing, or pays one
    reward, a week or more after the sender's last, and records it. *)
Lemma build_cases m builders :
  let out := build builders m in
  (out.2 = [] /\ out.1.1 = builders) \/
  (exists a h, out.2 = [FetTransfer a BUILDER_FET h] /\ find_evm (b_text m) = Some a) /\
  out.1.1 = <[b_sender m := b_now_recorded (b_world m)]> builders /\
  has_token (b_world m) = Some true /\
  (forall last_dt, builders !! b_sender m = Some last_dt ->
                   last_dt + WEEK <= now_checked (b_world m)).
Proof.
  unfold build, builder_reward.
  destruct (find_evm (b_text m)) as [a|]; [|now left].
  destruct (has_token (b_world m)) as [[|]|]; [|now left|now left].
  destruct (builders !! b_sender m) as [last_dt|] eqn:E.
  - destruct (Z.ltb_spec (now_checked (b_world m) - last_dt) WEEK); [now left|].
    destruct (negb _); [now left|].
    destruct (b_fet_result (b_world m)) as [h|]; [|now left].
    right. simpl. split; [eauto|]. split; [reflexivity|]. split; [reflexivity|].
    intros ? [= <-]. lia.
  - destruct (negb _); [now left|].
    destruct (b_fet_result (b_world m)) as [h|]; [|now left].
    right. simpl. split; [eauto|]. split; [reflexivity|]. split; [reflexivity|].
    discriminate.
Qed.

Lemma spaced_cons a l :
  spaced l -> (forall b, head l = Some b -> a + WEEK <= b) -> spaced (a :: l).
Proof.
  intros Hl Hh [|i] x y Hx Hy; simpl in *.
  - injection Hx as <-. apply Hh. now destruct l.
  - eapply Hl; eassumption.
Qed.

(** The first reward of a sequence comes a week or more after the claim
    on record. *)
Lemma first_reward_after_cooldown ms builders u last_dt t :
  Forall (fun m => now_checked (b_world m) <= b_now_recorded (b_world m)) ms ->
  builders !! u = Some last_dt ->
  head (paid_times u builders ms) = Some t -> last_dt + WEEK <= t.
Proof.
  intros Hclock. revert builders.
  induction Hclock as [|m ms Hm Hclock IH]; intros builders Hl Hh; [discriminate|].
  simpl in Hh.
  destruct (build_cases m builders) as [[Hno Hst]|((a & h & Hts & _) & Hst & _ & Hweek)].
  - rewrite Hno, Hst in Hh. destruct (String.eqb _ _); simpl in Hh; eauto.
  - rewrite Hts, Hst in Hh.
    destruct (String.eqb_spec (b_sender m) u) as [Heq|Hne]; simpl in Hh.
    + injection Hh as <-. subst u. specialize (Hweek _ Hl). lia.
    + eapply IH; [|exact Hh]. now rewrite lookup_insert_ne.
Qed.

(** X20.  Builder rewards are weekly: when the clock does not run
    backwards between the cooldown check of a claim and its record, the
    rewards paid to one sender over any sequence of claims are recorded at
    least seven days apart, and the first of them at least seven days
    after the claim on record before the sequence.  A reward is paid only
    to a sender whose token could be verified. *)
Theorem builder_rewards_are_weekly ms builders u :
  Forall (fun m => now_checked (b_world m) <= b_now_recorded (b_world m)) ms ->
  spaced (paid_times u builders ms) /\
  (forall last_dt t, builders !! u = Some last_dt ->
     head (paid_times u builders ms) = Some t -> last_dt + WEEK <= t) /\
  (forall m, (build builders m).2 <> [] -> has_token (b_world m) = Some true).
Proof.
  intros Hclock. split; [|split].
  - revert builders. induction Hclock as [|m ms Hm Hclock IH]; intros builders.
    { intros i a b H. destruct i; discriminate. }
    simpl.
    destruct (build_cases m builders) as [[Hno Hst]|((a & h & Hts & _) & Hst & _)].
    + rewrite Hno, Hst. destruct (String.eqb _ _); simpl; apply IH.
    + rewrite Hts, Hst.
      destruct (String.eqb_spec (b_sender m) u) as [Heq|Hne]; simpl; [|apply IH].
      apply spaced_cons; [apply IH|]. intros b Hb.
      eapply first_reward_after_cooldown; [exact Hclock| |exact Hb].
      subst u. apply lookup_insert_eq.
  - intros last_dt t. now apply first_reward_after_cooldown.
  - intros m Hp.
    destruct (build_cases m builders) as [[Hno _]|(_ & _ & Ht & _)];
      [contradiction|exact Ht].
Qed.

Lemma builder_rewards_are_weekly_witness :
  let ms := [Samples.builder_msg 0; Samples.builder_msg (seconds 86400);
             Samples.builder_msg (seconds (8 * 86400))] in
  Forall (fun m => now_checked (b_world m) <= b_now_recorded (b_world m)) ms /\
  paid_times "agent1qalice" ∅ ms = [1; seconds (8 * 86400) + 1] /\
  spaced (paid_times "agent1qalice" ∅ ms).
Proof.
  intros ms.
  assert (H : Forall (fun m => now_checked (b_world m) <= b_now_recorded (b_world m)) ms).
  { repeat constructor; simpl; lia. }
  split; [exact H|]. split; [vm_compute; reflexivity|].
  exact (proj1 (builder_rewards_are_weekly ms ∅ "agent1qalice" H)).
Defined.

End GifterRewardsFacts.


(** ** The ranges of a scoring of analyst.py *)

Module AnalystBandsFacts.

Import Analyst AnalystBands.

Ltac qlra :=
  unfold Qdiv in *; change (/ 10)%Q with (1 # 10)%Q in *;
  change (inject_Z 1) with 1%Q in *; lra.

Lemma Qle_bool_false x y : Qle_bool x y = false -> (y < x)%Q.
Proof.
  intros H. apply Qnot_le_lt. intros Hle. apply Qle_bool_iff in Hle. congruence.
Qed.

(** Rounding to one decimal moves a number by a twentieth at most. *)
Lemma round1_near x : (x - 0.05 <= round1 x <= x + 0.05)%Q.
Proof.
  unfold round1.
  pose proof (Qfloor_le (x * 10)) as Hlo.
  pose proof (Qlt_floor (x * 10)) as Hhi.
  remember (Qfloor (x * 10)) as lo eqn:Elo.
  rewrite inject_Z_plus in Hhi.
  destruct (Qle_bool (x * 10 - inject_Z lo) 0.5) eqn:E1.
  - apply Qle_bool_iff in E1.
    destruct (Qle_bool 0.5 (x * 10 - inject_Z lo)) eqn:E2.
    + apply Qle_bool_iff in E2. destruct (Z.even lo).
      * qlra.
      * rewrite inject_Z_plus. qlra.
    + qlra.
  - apply Qle_bool_false in E1. rewrite inject_Z_plus. qlra.
Qed.

(** It never crosses a number of tenths. *)
Lemma round1_lower k x : (inject_Z k / 10 <= x -> inject_Z k / 10 <= round1 x)%Q.
Proof.
  intros H.
  assert (Hk : (k <= Qfloor (x * 10))%Z).
  { rewrite <- (Qfloor_Z k). apply Qfloor_resp_le. qlra. }
  unfold round1. remember (Qfloor (x * 10)) as lo eqn:Elo.
  assert (Hn : forall n, (lo <= n)%Z -> (inject_Z k / 10 <= inject_Z n / 10)%Q).
  { intros n Hn. assert (inject_Z k <= inject_Z n)%Q by (rewrite <- Zle_Qle; lia). qlra. }
  destruct (Qle_bool _ _); [destruct (Qle_bool _ _); [destruct (Z.even lo)|]|];
    apply Hn; lia.
Qed.

Lemma round1_upper k x : (x <= inject_Z k / 10 -> round1 x <= inject_Z k / 10)%Q.
Proof.
  intros H.
  assert (Hk : (Qfloor (x * 10) <= k)%Z).
  { rewrite <- (Qfloor_Z k). apply Qfloor_resp_le. qlra. }
  unfold round1.
  pose proof (Qfloor_le (x * 10)) as Hlo.
  remember (Qfloor (x * 10)) as lo eqn:Elo.
  assert (Hn : forall n, (n <= k)%Z -> (inject_Z n / 10 <= inject_Z k / 10)%Q).
  { intros n Hn. assert (inject_Z n <= inject_Z k)%Q by (rewrite <- Zle_Qle; lia). qlra. }
  destruct (Z.eq_dec lo k) as [->|Hne].
  - assert (E2 : Qle_bool 0.5 (x * 10 - inject_Z k) = false).
    { destruct (Qle_bool 0.5 (x * 10 - inject_Z k)) eqn:E; [|reflexivity].
      apply Qle_bool_iff in E. qlra. }
    assert (E1 : Qle_bool (x * 10 - inject_Z k) 0.5 = true).
    { apply Qle_bool_iff. qlra. }
    rewrite E1, E2. qlra.
  - destruct (Qle_bool _ _); [destruct (Qle_bool _ _); [destruct (Z.even lo)|]|];
      apply Hn; lia.
Qed.

Lemma round1_between lo hi x :
  (inject_Z lo / 10 <= x <= inject_Z hi / 10)%Q ->
  (inject_Z lo / 10 <= round1 x <= inject_Z hi / 10)%Q.
Proof. intros [H1 H2]. split; [now apply round1_lower|now apply round1_upper]. Qed.

Lemma round1_clamp lo hi a b x :
  (a == inject_Z lo / 10)%Q -> (b == inject_Z hi / 10)%Q ->
  (a <= x <= b)%Q -> (a <= round1 x <= b)%Q.
Proof.
  intros Ea Eb H. rewrite Ea, Eb in *. now apply round1_between.
Qed.

Lemma round1_range x : in_range x -> in_range (round1 x).
Proof. apply (round1_clamp 0 1000); apply Qeq_bool_iff; reflexivity. Qed.

Lemma normalize_range value min_val max_val : in_range (normalize value min_val max_val).
Proof.
  unfold normalize, in_range.
  destruct (Qle_bool max_val min_val); [split; apply Qle_bool_iff; reflexivity|].
  unfold max0, min100.
  set (x := ((value - min_val) / (max_val - min_val) * 100)%Q).
  destruct (Qle_bool 100 x) eqn:E1.
  - simpl. split; apply Qle_bool_iff; reflexivity.
  - apply Qle_bool_false in E1.
    destruct (Qle_bool x 0) eqn:E2.
    + split; apply Qle_bool_iff; reflexivity.
    + apply Qle_bool_false in E2. split; lra.
Qed.

Lemma letter_grade_band w : band (letter_grade w) w.
Proof.
  unfold letter_grade, band.
  destruct (Qle_bool 80 w) eqn:E1; [apply Qle_bool_iff in E1; auto|].
  apply Qle_bool_false in E1.
  destruct (Qle_bool 60 w) eqn:E2; [apply Qle_bool_iff in E2; auto|].
  apply Qle_bool_false in E2.
  destruct (Qle_bool 40 w) eqn:E3; [apply Qle_bool_iff in E3; auto 6|].
  apply Qle_bool_false in E3.
  destruct (Qle_bool 20 w) eqn:E4; [apply Qle_bool_iff in E4; auto 8|].
  apply Qle_bool_false in E4. auto 10.
Qed.

Lemma weighted_sum_range s :
  in_range (s_holders s) -> in_range (s_volume s) -> in_range (s_liquidity s) ->
  (0 <= s_price_stability s <= 50)%Q -> in_range (s_age s) ->
  (0 <= weighted_sum s <= 92.5)%Q.
Proof.
  unfold in_range, weighted_sum, WEIGHTS. cbn [s_holders s_volume s_liquidity
    s_price_stability s_age]. intros. lra.
Qed.

(** X21.  Whenever [score_token] returns, each of the five scores lies
    between 0 and 100 and the price score is 0 or 50, so the weighted sum
    lies between 0 and 92.5; the grade is the band of that sum, and the
    total shown is the sum rounded, within 0.05 of it and between 0 and
    92.5 as well.  (Floats are read as rationals.) *)
Theorem scores_are_bounded B now token r :
  score_token B now token = Some r ->
  let w := weighted_sum (scores r) in
  in_range (s_holders (scores r)) /\ in_range (s_volume (scores r)) /\
  in_range (s_liquidity (scores r)) /\ in_range (s_age (scores r)) /\
  (s_price_stability (scores r) == 0 \/ s_price_stability (scores r) == 50)%Q /\
  (0 <= w <= 92.5)%Q /\
  band (grade r) w /\
  (w - 0.05 <= total r <= w + 0.05)%Q /\
  (0 <= total r <= 92.5)%Q.
Proof.
  unfold score_token.
  destruct (py_int B _) as [h|];
    [|intros H; change (@None Scored = Some r) in H; discriminate H].
  destruct (py_float B (dict_get token "volume24h" _)) as [v|];
    [|intros H; change (@None Scored = Some r) in H; discriminate H].
  destruct (py_float B (dict_get token "liquidity" _)) as [l|];
    [|intros H; change (@None Scored = Some r) in H; discriminate H].
  destruct (py_float B (dict_get token "price" _)) as [p|];
    [|intros H; change (@None Scored = Some r) in H; discriminate H].
  cbn [mbind option_bind]. intros H. injection H as <-.
  cbn [scores total grade].
  set (s := Build_Scores _ _ _ _ _).
  assert (Hh : in_range (s_holders s)) by apply round1_range, normalize_range.
  assert (Hv : in_range (s_volume s)) by apply round1_range, normalize_range.
  assert (Hl : in_range (s_liquidity s)) by apply round1_range, normalize_range.
  assert (Ha : in_range (s_age s)) by apply round1_range, normalize_range.
  assert (Hp : (s_price_stability s == 0 \/ s_price_stability s == 50)%Q).
  { unfold s. cbn [s_price_stability].
    destruct (Qle_bool p 0); [left|right]; apply Qeq_bool_iff; reflexivity. }
  assert (Hw : (0 <= weighted_sum s <= 92.5)%Q).
  { apply weighted_sum_range; try assumption.
    destruct Hp as [-> | ->]; split; apply Qle_bool_iff; reflexivity. }
  cbv zeta.
  split; [exact Hh|]. split; [exact Hv|]. split; [exact Hl|]. split; [exact Ha|].
  split; [exact Hp|]. split; [exact Hw|]. split; [apply letter_grade_band|].
  split; [apply round1_near|].
  apply (round1_clamp 0 925); [apply Qeq_bool_iff; reflexivity..|exact Hw].
Qed.

Lemma scores_are_bounded_witness :
  exists r,
    score_token Samples.plain_builtins Samples.noon_jan_1 Samples.scored_token = Some r /\
    (0 <= total r <= 92.5)%Q.
Proof.
  eexists. split; [reflexivity|].
  exact (proj2 (proj2 (proj2 (proj2 (proj2 (proj2 (proj2 (proj2
    (scores_are_bounded Samples.plain_builtins Samples.noon_jan_1
       Samples.scored_token _ eq_refl))))))))).
Defined.

End AnalystBandsFacts.


(** ** Watches and price history of price-monitor-agent.py *)

Module PriceWatchFacts.

Import PriceWatch.

Lemma last_n_short {A} n (l : list A) : (length l <= n)%nat -> last_n n l = l.
Proof. intros H. unfold last_n. now replace (length l - n)%nat with 0%nat by lia. Qed.

Lemma length_last_n {A} n (l : list A) : (length (last_n n l) <= n)%nat.
Proof. unfold last_n. rewrite length_skipn. lia. Qed.

Lemma last_n_app {A} n (l l' : list A) : last_n n (last_n n l ++ l') = last_n n (l ++ l').
Proof.
  destruct (decide (length l <= n)%nat) as [Hle|Hgt].
  - now rewrite (last_n_short n l).
  - unfold last_n. rewrite !length_app, length_skipn.
    replace (length l - (length l - n) + length l' - n)%nat with (length l') by lia.
    replace (length l + length l' - n)%nat with (length l' + (length l - n))%nat by lia.
    rewrite <- skipn_skipn. f_equal.
    rewrite skipn_app.
    replace (length l - n - length l)%nat with 0%nat by lia. reflexivity.
Qed.

Lemma history_insert c t h : history_of (<[t := h]> c) t = h.
Proof. unfold history_of. now rewrite lookup_insert_eq. Qed.

Lemma history_insert_ne c t t' h : t <> t' -> history_of (<[t := h]> c) t' = history_of c t'.
Proof. intros H. unfold history_of. now rewrite lookup_insert_ne. Qed.

(** One [record_price] appends the sample and keeps the last hundred. *)
Lemma record_price_history c t p now :
  history_of (record_price c t p now) t
  = last_n 100 (history_of c t ++ [{| price := p; ts := now |}]).
Proof.
  unfold record_price. rewrite history_insert.
  destruct (Z.ltb_spec 100 (Z.of_nat (length (history_of c t ++ [{| price := p; ts := now |}]))));
    [reflexivity|].
  rewrite last_n_short; [reflexivity|lia].
Qed.

Lemma record_price_other c t p now t' :
  t <> t' -> history_of (record_price c t p now) t' = history_of c t'.
Proof. intros H. unfold record_price. now rewrite history_insert_ne. Qed.

Lemma record_all_history samples c t :
  history_of (record_all c t samples) t
  = match samples with
    | [] => history_of c t
    | _ :: _ => last_n 100 (history_of c t ++ samples)
    end.
Proof.
  revert c. induction samples as [|s rest IH]; intros c; [reflexivity|].
  change (record_all c t (s :: rest))
    with (record_all (record_price c t (price s) (ts s)) t rest).
  rewrite IH, record_price_history. destruct s as [p now]. simpl price. simpl ts.
  destruct rest as [|s' rest]; [reflexivity|].
  rewrite last_n_app, <- app_assoc. reflexivity.
Qed.

Lemma record_all_other samples c t t' :
  t <> t' -> history_of (record_all c t samples) t' = history_of c t'.
Proof.
  intros Hne. revert c. induction samples as [|s rest IH]; intros c; [reflexivity|].
  change (record_all c t (s :: rest))
    with (record_all (record_price c t (price s) (ts s)) t rest).
  rewrite IH. now apply record_price_other.
Qed.

(** X22.  The history of a token is the last hundred prices recorded for
    it: after any run of one or more [record_price] calls the stored list
    is the last 100 entries, in order, of the earlier history followed by
    the recorded samples; it never holds more than 100, and the history of
    every other token is untouched. *)
Theorem history_keeps_the_last_hundred c t s rest :
  let c' := record_all c t (s :: rest) in
  history_of c' t = last_n 100 (history_of c t ++ s :: rest) /\
  (length (history_of c' t) <= 100)%nat /\
  (forall t', t <> t' -> history_of c' t' = history_of c t').
Proof.
  intros c'. unfold c'. rewrite record_all_history.
  split; [reflexivity|]. split; [apply length_last_n|].
  intros t' Hne. now apply record_all_other.
Qed.

Lemma Qle_bool_not x y : Qle_bool x y = false <-> (y < x)%Q.
Proof.
  split.
  - intros H. apply Qnot_le_lt. intros Hle. apply Qle_bool_iff in Hle. congruence.
  - intros H. destruct (Qle_bool x y) eqn:E; [|reflexivity].
    apply Qle_bool_iff in E. lra.
Qed.

Lemma Qeq_bool_not x y : Qeq_bool x y = false <-> ~ (x == y)%Q.
Proof.
  split.
  - intros H Heq. apply Qeq_bool_iff in Heq. congruence.
  - intros H. destruct (Qeq_bool x y) eqn:E; [|reflexivity].
    apply Qeq_bool_iff in E. contradiction.
Qed.

Lemma kept_nonempty (h : list Sample) s :
  exists first, head (last_n 100 (h ++ [s])) = Some first.
Proof.
  unfold last_n. rewrite length_app. simpl.
  destruct (skipn (length h + 1 - 100) (h ++ [s])) as [|f l] eqn:E; [|eauto].
  apply (f_equal (@length _)) in E. rewrite length_skipn, length_app in E.
  simpl in E. lia.
Qed.

(** X23.  A fetched price is compared with the oldest price still kept,
    itself included: [record_price] runs before [check_alert], so the
    baseline is the head of the last hundred entries of the history with
    the new price appended.  There is an alert exactly when that baseline
    is not zero and the change in percent is at least the threshold in
    size; it reports UP exactly for a positive change.  The first price
    ever seen for a token is its own baseline and raises no alert at a
    positive threshold, and while fewer than a hundred prices are kept the
    baseline is the first one recorded. *)
Theorem fetched_price_is_compared_with_oldest_kept c t p now thr :
  let h := history_of c t in
  let out := observe c t p now thr in
  exists first,
    head (last_n 100 (h ++ [{| price := p; ts := now |}])) = Some first /\
    let change := ((p - price first) / price first * 100)%Q in
    (out.2 = None <-> (price first == 0 \/ Qabs change < thr)%Q) /\
    (forall a, out.2 = Some a ->
       from_price a = price first /\ to_price a = p /\ change_pct a = change /\
       (moved a = UP <-> (0 < change)%Q)) /\
    (h = [] -> first = {| price := p; ts := now |} /\ ((0 < thr)%Q -> out.2 = None)) /\
    (forall f l, h = f :: l -> (length h < 100)%nat -> first = f).
Proof.
  intros h out.
  destruct (kept_nonempty h {| price := p; ts := now |}) as [first Hfirst].
  exists first. split; [exact Hfirst|]. intros change.
  assert (Hout : out.2 = if Qeq_bool (price first) 0 then None
                 else if Qle_bool thr (Qabs change)
                      then Some {| moved := if Qle_bool change 0 then DOWN else UP;
                                   change_pct := change;
                                   from_price := price first;
                                   to_price := p |}
                      else None).
  { unfold out, observe, check_alert. cbn [snd].
    rewrite record_price_history. fold h.
    destruct (last_n 100 (h ++ [{| price := p; ts := now |}])) as [|f l];
      [discriminate|]. injection Hfirst as ->. reflexivity. }
  assert (Hnone : out.2 = None <-> (price first == 0 \/ Qabs change < thr)%Q).
  { rewrite Hout. destruct (Qeq_bool (price first) 0) eqn:E0.
    - apply Qeq_bool_iff in E0. tauto.
    - apply Qeq_bool_not in E0.
      destruct (Qle_bool thr (Qabs change)) eqn:E1.
      + apply Qle_bool_iff in E1. split; [discriminate|].
        intros [H|H]; [contradiction|lra].
      + apply Qle_bool_not in E1. tauto. }
  split; [exact Hnone|]. split; [|split].
  - intros a Ha. rewrite Hout in Ha.
    destruct (Qeq_bool (price first) 0); [discriminate|].
    destruct (Qle_bool thr (Qabs change)); [|discriminate].
    injection Ha as <-. cbn [from_price to_price change_pct moved].
    split; [reflexivity|]. split; [reflexivity|]. split; [reflexivity|].
    destruct (Qle_bool change 0) eqn:E.
    + apply Qle_bool_iff in E. split; [discriminate|]. intros H. lra.
    + apply Qle_bool_not in E. tauto.
  - intros Hnil. rewrite Hnil in Hfirst. injection Hfirst as <-.
    split; [reflexivity|]. intros Hthr. apply Hnone.
    destruct (Qeq_dec p 0) as [Hz|Hnz]; [now left|right].
    unfold change. cbn [price].
    assert (Hc : ((p - p) / p * 100 == 0)%Q) by (field; exact Hnz).
    rewrite Hc. exact Hthr.
  - intros f l Hh Hlen. rewrite last_n_short in Hfirst.
    + rewrite Hh in Hfirst. now injection Hfirst as <-.
    + rewrite length_app. simpl. lia.
Qed.

Lemma watches_insert ws u l : watches_of (<[u := l]> ws) u = l.
Proof. unfold watches_of. now rewrite lookup_insert_eq. Qed.

Lemma watches_insert_ne ws u u' l :
  u <> u' -> watches_of (<[u := l]> ws) u' = watches_of ws u'.
Proof. intros H. unfold watches_of. now rewrite lookup_insert_ne. Qed.

Lemma first_match_found target l k i :
  first_match target k l = Some i ->
  exists w, (k <= i)%nat /\ l !! (i - k)%nat = Some w /\
            String.prefix target (address w) = true /\
            forall j w', (j < i - k)%nat -> l !! j = Some w' ->
                         String.prefix target (address w') = false.
Proof.
  revert k. induction l as [|w l IH]; intros k; simpl; [discriminate|].
  destruct (String.prefix target (address w)) eqn:E.
  - intros [= <-]. exists w. rewrite Nat.sub_diag. repeat split; auto. lia.
  - intros H. destruct (IH _ H) as (w0 & Hk & Hl & Hp & Hmin).
    exists w0. split; [lia|].
    replace (i - k)%nat with (S (i - S k)) by lia.
    split; [exact Hl|]. split; [exact Hp|].
    intros [|j] w' Hj Hw'; simpl in Hw'.
    + now injection Hw' as <-.
    + eapply Hmin; [|exact Hw']. lia.
Qed.

Lemma length_pop {A} i (l : list A) x :
  l !! i = Some x -> length l = S (length (pop i l)).
Proof.
  intros H. apply lookup_lt_Some in H. unfold pop.
  rewrite length_app, length_firstn, length_skipn. lia.
Qed.

(** What the two ways of [handle_remove] to an entry come to. *)
Lemma take_found (ws : gmap string (list Watch)) u target (l : list Watch) i w :
  l !! i = Some w ->
  (match l !! i with
   | Some removed => (<[u := pop i l]> ws, Removed (address removed))
   | None => (ws, NoWatchFound target)
   end) = (<[u := pop i l]> ws, Removed (address w)).
Proof. now intros ->. Qed.

(** X24.  [handle_remove] takes out one watch or none.  When it takes one
    out, the user's list is the old one without the entry at one
    position, every other user's list is as it was, and the position is
    either the number given, counted from one, or, when the text is no
    number within the list, the first watch whose address starts with the
    text; so a number out of range, such as 0, is read as the start of an
    address. *)
Theorem remove_takes_one_watch int_of_str ws u parts :
  let out := handle_remove int_of_str ws u parts in
  (out.1 = ws /\
   (out.2 = RemoveUsage \/ exists target, out.2 = NoWatchFound target)) \/
  exists i w part0 rest,
    parts = part0 :: rest /\
    watches_of ws u !! i = Some w /\
    out.2 = Removed (address w) /\
    watches_of out.1 u = pop i (watches_of ws u) /\
    length (watches_of ws u) = S (length (watches_of out.1 u)) /\
    (forall u', u <> u' -> watches_of out.1 u' = watches_of ws u') /\
    (int_of_str (strip part0) = Some (Z.of_nat i + 1) \/
     (forall n, int_of_str (strip part0) = Some n ->
                n < 1 \/ Z.of_nat (length (watches_of ws u)) < n) /\
     String.prefix (strip part0) (address w) = true /\
     forall j w', (j < i)%nat -> watches_of ws u !! j = Some w' ->
                  String.prefix (strip part0) (address w') = false).
Proof.
  intros out. unfold out, handle_remove.
  destruct parts as [|part0 rest]; [left; eauto|].
  set (target := strip part0). set (l := watches_of ws u).
  assert (Haddr : (forall n, int_of_str target = Some n ->
                      n < 1 \/ Z.of_nat (length l) < n) ->
    let out := match first_match target 0 l with
               | Some i => match l !! i with
                           | Some removed =>
                               (<[u := pop i l]> ws, Removed (address removed))
                           | None => (ws, NoWatchFound target)
                           end
               | None => (ws, NoWatchFound target)
               end in
    (out.1 = ws /\
     (out.2 = RemoveUsage \/ exists target, out.2 = NoWatchFound target)) \/
    exists i w part0' rest',
      part0 :: rest = part0' :: rest' /\
      l !! i = Some w /\
      out.2 = Removed (address w) /\
      watches_of out.1 u = pop i l /\
      length l = S (length (watches_of out.1 u)) /\
      (forall u', u <> u' -> watches_of out.1 u' = watches_of ws u') /\
      (int_of_str (strip part0') = Some (Z.of_nat i + 1) \/
       (forall n, int_of_str (strip part0') = Some n ->
                  n < 1 \/ Z.of_nat (length l) < n) /\
       String.prefix (strip part0') (address w) = true /\
       forall j w', (j < i)%nat -> l !! j = Some w' ->
                    String.prefix (strip part0') (address w') = false)).
  { intros Hnum. cbv zeta.
    destruct (first_match target 0 l) as [i|] eqn:E; [|left; eauto].
    destruct (first_match_found _ _ _ _ E) as (w & _ & Hw & Hp & Hmin).
    rewrite Nat.sub_0_r in Hw, Hmin. rewrite (take_found ws u target l i w Hw).
    right. exists i, w, part0, rest. cbn [fst snd]. rewrite watches_insert.
    split; [reflexivity|]. split; [exact Hw|]. split; [reflexivity|].
    split; [reflexivity|]. split; [now apply length_pop with (x := w)|].
    split; [intros u' Hne; now apply watches_insert_ne|].
    right. auto. }
  destruct (int_of_str target) as [n|] eqn:En.
  - destruct ((0 <=? n - 1) && (n - 1 <? Z.of_nat (length l))) eqn:Ein.
    + apply andb_true_iff in Ein as [H0 H1].
      apply Z.leb_le in H0. apply Z.ltb_lt in H1.
      destruct (lookup_lt_is_Some_2 l (Z.to_nat (n - 1))) as [w Hw]; [lia|].
      rewrite (take_found ws u target l _ w Hw).
      right. exists (Z.to_nat (n - 1)), w, part0, rest. cbn [fst snd].
      rewrite watches_insert.
      split; [reflexivity|]. split; [exact Hw|]. split; [reflexivity|].
      split; [reflexivity|]. split; [now apply length_pop with (x := w)|].
      split; [intros u' Hne; now apply watches_insert_ne|].
      left. fold target. rewrite En. f_equal. lia.
    + apply Haddr. intros n' [= <-].
      apply andb_false_iff in Ein as [H|H];
        [apply Z.leb_gt in H|apply Z.ltb_ge in H]; lia.
  - apply Haddr. discriminate.
Qed.

(** A removal changes no other user's list and lengthens none. *)
Lemma handle_remove_lists int_of_str ws u parts u' :
  (u <> u' ->
   watches_of (handle_remove int_of_str ws u parts).1 u' = watches_of ws u') /\
  (length (watches_of (handle_remove int_of_str ws u parts).1 u')
   <= length (watches_of ws u'))%nat.
Proof.
  unfold handle_remove. destruct parts as [|part0 rest]; [simpl; split; [reflexivity|lia]|].
  set (target := strip part0). set (l := watches_of ws u).
  assert (Htake : forall i,
    let out := match l !! i with
               | Some removed => (<[u := pop i l]> ws, Removed (address removed))
               | None => (ws, NoWatchFound target)
               end in
    (u <> u' -> watches_of out.1 u' = watches_of ws u') /\
    (length (watches_of out.1 u') <= length (watches_of ws u'))%nat).
  { intros i. cbv zeta. destruct (l !! i) as [w|] eqn:E; [|simpl; split; [reflexivity|lia]].
    cbn [fst]. split; [intros Hne; now apply watches_insert_ne|].
    destruct (decide (u = u')) as [<-|Hne].
    - rewrite watches_insert. fold l. rewrite (length_pop i l w E). lia.
    - rewrite watches_insert_ne by assumption. lia. }
  assert (Haddr :
    let out := match first_match target 0 l with
               | Some i => match l !! i with
                           | Some removed =>
                               (<[u := pop i l]> ws, Removed (address removed))
                           | None => (ws, NoWatchFound target)
                           end
               | None => (ws, NoWatchFound target)
               end in
    (u <> u' -> watches_of out.1 u' = watches_of ws u') /\
    (length (watches_of out.1 u') <= length (watches_of ws u'))%nat).
  { cbv zeta. destruct (first_match target 0 l) as [i|]; [apply Htake|].
    simpl. split; [reflexivity|lia]. }
  destruct (int_of_str target) as [n|]; [|exact Haddr].
  destruct (_ && _); [apply Htake|exact Haddr].
Qed.

Section run.
Variable cfg : Business.
Variable float_of_str : string -> option Q.
Variable int_of_str : string -> option Z.
Variable fetch : string -> option Q.

Local Abbreviation step := (step cfg float_of_str int_of_str fetch).
Local Abbreviation run := (run cfg float_of_str int_of_str fetch).

Lemma step_other u u' st c :
  u <> u' -> watches_of (watches (step u st c)) u' = watches_of (watches st) u'.
Proof.
  intros Hne. destruct c as [parts tier now now'|parts]; simpl.
  - unfold handle_watch. destruct parts as [|part0 rest]; [reflexivity|].
    destruct (match rest with [] => _ | _ => _ end) as [thr|]; [|reflexivity].
    cbn [mbind option_bind].
    destruct (_ && _); [reflexivity|].
    destruct (fetch (strip part0)); [|reflexivity].
    simpl. now apply watches_insert_ne.
  - now apply handle_remove_lists.
Qed.

(** A free command keeps a list that is within the limit within it. *)
Lemma step_free u st c :
  (forall tier, tier_of c = Some tier -> tier = "free") ->
  Z.of_nat (length (watches_of (watches st) u)) <= Z.max 0 (free_watches cfg) ->
  Z.of_nat (length (watches_of (watches (step u st c)) u)) <= Z.max 0 (free_watches cfg).
Proof.
  intros Hfree Hle. destruct c as [parts tier now now'|parts]; simpl.
  - rewrite (Hfree tier eq_refl). unfold handle_watch.
    destruct parts as [|part0 rest]; [exact Hle|].
    destruct (match rest with [] => _ | _ => _ end) as [thr|]; [|exact Hle].
    cbn [mbind option_bind]. rewrite String.eqb_refl. cbn [andb].
    destruct (Z.leb_spec (free_watches cfg)
                (Z.of_nat (length (watches_of (watches st) u)))); [exact Hle|].
    destruct (fetch (strip part0)); [|exact Hle].
    simpl. rewrite watches_insert, length_app. simpl. lia.
  - pose proof (proj2 (handle_remove_lists int_of_str (watches st) u parts u)). lia.
Qed.

(** X25.  The free tier's limit on watches holds over any sequence of
    commands: when every [watch] of a user is made at the free tier, a
    list that starts within [free_watches] stays within it, whatever the
    user removes in between and whatever other users do.  A removal takes
    the watch out of the list, so it frees a place for a new one. *)
Theorem free_watches_are_capped u cs st :
  Forall (fun uc => uc.1 = u -> forall tier, tier_of uc.2 = Some tier -> tier = "free") cs ->
  Z.of_nat (length (watches_of (watches st) u)) <= Z.max 0 (free_watches cfg) ->
  Z.of_nat (length (watches_of (watches (run st cs)) u)) <= Z.max 0 (free_watches cfg).
Proof.
  intros Hall. revert st. induction Hall as [|[u' c] cs Hc Hall IH]; intros st Hle.
  - exact Hle.
  - change (run st ((u', c) :: cs)) with (run (step u' st c) cs).
    apply IH. simpl in Hc. destruct (decide (u' = u)) as [->|Hne].
    + apply step_free; auto.
    + now rewrite step_other.
Qed.

End run.

Lemma free_watches_are_capped_witness :
  let run := run BUSINESS Samples.digits_float Samples.digits_int Samples.flat_feed in
  let u := "agent1qalice" in
  Forall (fun uc => uc.1 = u -> forall tier, tier_of uc.2 = Some tier -> tier = "free")
    Samples.watch_commands /\
  map address (watches_of (watches (run Samples.no_watches Samples.watch_commands)) u)
  = ["0xbbb"; "0xccc"; "0xeee"] /\
  Z.of_nat (length (watches_of (watches (run Samples.no_watches Samples.watch_commands)) u))
  <= Z.max 0 (free_watches BUSINESS).
Proof.
  intros run u.
  assert (H : Forall (fun uc => uc.1 = u ->
                forall tier, tier_of uc.2 = Some tier -> tier = "free")
                Samples.watch_commands).
  { repeat constructor; simpl; intros _ tier [= <-]; reflexivity. }
  split; [exact H|]. split; [vm_compute; reflexivity|].
  apply (free_watches_are_capped BUSINESS Samples.digits_float Samples.digits_int
           Samples.flat_feed u Samples.watch_commands Samples.no_watches H).
  vm_compute. discriminate.
Defined.

End PriceWatchFacts.


(** ** The fetchers of data-agent.py behind the cache *)

Module DataFetcherFacts.

Import DataAgent DataFetcher.

(** A value that is not [None] is served from the cache until its time to
    live is over, and serving it changes nothing. *)
Lemma served_from_cache (c : Cache.t json) key v ttl now1 now2 t :
  v <> JNull -> t < now2 + seconds ttl ->
  let c' := Cache.set c key v ttl now1 now2 in
  Cache.get c' key t = (Some v, c') /\ not_none (Some v) = Some v.
Proof.
  intros Hv Ht c'.
  assert (H : PyDict.getitem (Cache._data c') key = Some (v, now2 + seconds ttl))
    by apply PyDictFacts.getitem_setitem_eq.
  unfold Cache.get. rewrite H.
  destruct (Z.ltb_spec t (now2 + seconds ttl)); [|lia].
  split; [reflexivity|]. now destruct v.
Qed.

Lemma try_tokens_unsuccessful fields :
  unsuccessful fields -> try_tokens (Response 200 (Parsed (JObj fields))) = Some (JArr []).
Proof. unfold unsuccessful. intros H. simpl. now rewrite H. Qed.

Lemma try_token_data_not_none r data : try_token_data r = Some data -> data <> JNull.
Proof.
  destruct r as [|code [|body]]; simpl; try discriminate.
  - now destruct (code =? 200).
  - destruct (code =? 200); [|discriminate].
    destruct body; try discriminate.
    destruct (truthy (dict_get _ "success" JNull)); [|discriminate].
    destruct (truthy (dict_get _ "data" JNull)) eqn:E; [|discriminate].
    intros [= <-] Hn. rewrite Hn in E. discriminate.
Qed.

(** X26.  What the fetcher stores it serves without asking again: once
    [get_all_tokens] has stored a list, every call before 120 seconds
    have passed returns that list, whatever the API would answer by then,
    and leaves the cache as it is; the same holds for [get_token_data] and
    60 seconds.  A 200 response whose body reports failure is stored as
    the empty list, so the token list stays empty for those two minutes;
    a call that raises, or a status other than 200, stores nothing.
    [get_token_data] stores only data of a successful body. *)
Theorem fetched_answers_are_served_from_cache r cache address now now1 now2 :
  let all := get_all_tokens r cache now now1 now2 in
  let one := get_token_data r address cache now now1 now2 in
  (not_none (Cache.get cache "all_tokens" now).1 = None ->
   (forall tokens, try_tokens r = Some tokens -> tokens <> JNull ->
      all.1 = tokens /\
      forall r' t t1 t2, t < now2 + seconds 120 ->
        get_all_tokens r' all.2 t t1 t2 = (tokens, all.2)) /\
   (forall fields, r = Response 200 (Parsed (JObj fields)) -> unsuccessful fields ->
      forall r' t t1 t2, t < now2 + seconds 120 ->
        get_all_tokens r' all.2 t t1 t2 = (JArr [], all.2)) /\
   (try_tokens r = None ->
      all = (JArr [], (Cache.get cache "all_tokens" now).2))) /\
  (not_none (Cache.get cache ("token:" +:+ address) now).1 = None ->
   (forall data, try_token_data r = Some data ->
      one.1 = data /\
      forall r' t t1 t2, t < now2 + seconds 60 ->
        get_token_data r' address one.2 t t1 t2 = (data, one.2)) /\
   (try_token_data r = None ->
      one = (JNull, (Cache.get cache ("token:" +:+ address) now).2))).
Proof.
  intros all one. split; intros Hmiss.
  - assert (Hpin : forall tokens, try_tokens r = Some tokens -> tokens <> JNull ->
              all.1 = tokens /\
              forall r' t t1 t2, t < now2 + seconds 120 ->
                get_all_tokens r' all.2 t t1 t2 = (tokens, all.2)).
    { intros tokens Htry Hv. unfold all, get_all_tokens.
      destruct (Cache.get cache "all_tokens" now) as [cached cache1].
      simpl in Hmiss. rewrite Hmiss, Htry. cbn [fst snd].
      split; [reflexivity|]. intros r' t t1 t2 Ht.
      destruct (served_from_cache cache1 "all_tokens" tokens 120 now1 now2 t Hv Ht)
        as [Hget Hnn].
      cbv zeta in Hget. rewrite Hget, Hnn. reflexivity. }
    split; [exact Hpin|]. split.
    + intros fields -> Hfail.
      apply (Hpin (JArr [])); [now apply try_tokens_unsuccessful|discriminate].
    + intros Htry. unfold all, get_all_tokens.
      destruct (Cache.get cache "all_tokens" now) as [cached cache1].
      simpl in Hmiss. now rewrite Hmiss, Htry.
  - split.
    + intros data Htry. pose proof (try_token_data_not_none r data Htry) as Hv.
      unfold one, get_token_data.
      destruct (Cache.get cache ("token:" +:+ address) now) as [cached cache1].
      simpl in Hmiss. rewrite Hmiss, Htry. cbn [fst snd].
      split; [reflexivity|]. intros r' t t1 t2 Ht.
      destruct (served_from_cache cache1 ("token:" +:+ address) data 60 now1 now2 t Hv Ht)
        as [Hget Hnn].
      cbv zeta in Hget. rewrite Hget, Hnn. reflexivity.
    + intros Htry. unfold one, get_token_data.
      destruct (Cache.get cache ("token:" +:+ address) now) as [cached cache1].
      simpl in Hmiss. now rewrite Hmiss, Htry.
Qed.

(** X27.  A tier is decided once in five minutes: when the tier lookup
    has an answer from the API it stores it, and every lookup for that
    user before 300 seconds have passed returns the stored tier, whatever
    the balance has become, and leaves the cache as it is.  The fallback
    tier of a failed lookup is not stored, so the next lookup asks
    again; without a token address nothing is asked or stored at all. *)
Theorem tier_is_decided_for_five_minutes cfg r user cache now now1 now2 :
  let out := check_token_holdings cfg r user cache now now1 now2 in
  (TOKEN_ADDRESS cfg = "" -> out = (JStr "free", cache)) /\
  (TOKEN_ADDRESS cfg <> "" ->
   not_none (Cache.get cache ("tier:" +:+ user) now).1 = None ->
   (forall tier, try_tier cfg r = Some tier ->
      out.1 = JStr tier /\
      forall r' t t1 t2, t < now2 + seconds 300 ->
        check_token_holdings cfg r' user out.2 t t1 t2 = (JStr tier, out.2)) /\
   (try_tier cfg r = None ->
      out = (JStr "free", (Cache.get cache ("tier:" +:+ user) now).2))).
Proof.
  intros out. split.
  - intros Ha. unfold out, check_token_holdings. now rewrite Ha.
  - intros Ha Hmiss. apply String.eqb_neq in Ha. split.
    + intros tier Htry. unfold out, check_token_holdings. rewrite Ha.
      destruct (Cache.get cache ("tier:" +:+ user) now) as [cached cache1].
      simpl in Hmiss. rewrite Hmiss, Htry. cbn [fst snd].
      split; [reflexivity|]. intros r' t t1 t2 Ht.
      destruct (served_from_cache cache1 ("tier:" +:+ user) (JStr tier) 300 now1 now2 t
                  ltac:(discriminate) Ht) as [Hget Hnn].
      cbv zeta in Hget. rewrite Hget, Hnn. reflexivity.
    + intros Htry. unfold out, check_token_holdings. rewrite Ha.
      destruct (Cache.get cache ("tier:" +:+ user) now) as [cached cache1].
      simpl in Hmiss. now rewrite Hmiss, Htry.
Qed.

End DataFetcherFacts.


(** ** Sorting by a key, largest first *)

Module RankingFacts.

Import Ranking.

Section by_key.
Context {A : Type}.
Variable key : A -> Q.

Local Abbreviation ge_key := (fun a b : A => (key b <= key a)%Q).

Lemma insert_desc_perm x l : Permutation (insert_desc key x l) (x :: l).
Proof.
  induction l as [|y l IH]; simpl; [reflexivity|].
  destruct (Qle_bool (key y) (key x)); [reflexivity|].
  rewrite IH. apply perm_swap.
Qed.

Lemma sorted_desc_perm l : Permutation (sorted_desc key l) l.
Proof.
  induction l as [|x l IH]; simpl; [reflexivity|].
  rewrite insert_desc_perm. now constructor.
Qed.

Lemma insert_desc_sorted x l :
  StronglySorted ge_key l -> StronglySorted ge_key (insert_desc key x l).
Proof.
  induction l as [|y l IH]; intros Hs; simpl; [repeat constructor|].
  destruct (Qle_bool (key y) (key x)) eqn:E.
  - apply Qle_bool_iff in E. constructor; [exact Hs|].
    constructor; [exact E|].
    apply StronglySorted_inv in Hs as [_ Hall].
    rewrite List.Forall_forall in *. intros z Hz. specialize (Hall z Hz).
    simpl in Hall. eapply Qle_trans; eassumption.
  - assert (Hlt : (key x < key y)%Q).
    { apply Qnot_le_lt. intros H. apply Qle_bool_iff in H. congruence. }
    apply StronglySorted_inv in Hs as [Hs Hall].
    constructor; [now apply IH|].
    rewrite List.Forall_forall in *. intros z Hz.
    apply (Permutation_in _ (insert_desc_perm x l)) in Hz as [<-|Hz].
    + now apply Qlt_le_weak.
    + now apply Hall.
Qed.

Lemma sorted_desc_sorted l : StronglySorted ge_key (sorted_desc key l).
Proof.
  induction l as [|x l IH]; simpl; [constructor|now apply insert_desc_sorted].
Qed.

Lemma sorted_descending l : StronglySorted ge_key l -> descending key l.
Proof.
  induction 1 as [|x l Hs IH Hall]; intros i j a b Hij Ha Hb.
  - destruct i; discriminate.
  - destruct j as [|j]; [lia|]. simpl in Hb. destruct i as [|i]; simpl in Ha.
    + injection Ha as <-. rewrite List.Forall_forall in Hall. apply Hall.
      apply list_elem_of_In. eapply list_elem_of_lookup_2. exact Hb.
    + eapply IH; [|exact Ha|exact Hb]. lia.
Qed.

(** Entries with equal keys keep their order. *)
Lemma insert_desc_filter k a l :
  List.filter (fun z => Qeq_bool (key z) k) (insert_desc key a l)
  = List.filter (fun z => Qeq_bool (key z) k) (a :: l).
Proof.
  induction l as [|b l IH]; [reflexivity|].
  simpl insert_desc. destruct (Qle_bool (key b) (key a)) eqn:E; [reflexivity|].
  assert (Hlt : (key a < key b)%Q).
  { apply Qnot_le_lt. intros H. apply Qle_bool_iff in H. congruence. }
  cbn [List.filter] in *. rewrite IH.
  destruct (Qeq_bool (key a) k) eqn:Ea; [|reflexivity].
  destruct (Qeq_bool (key b) k) eqn:Eb; [|reflexivity].
  apply Qeq_bool_iff in Ea, Eb. lra.
Qed.

Lemma sorted_desc_stable k l :
  List.filter (fun z => Qeq_bool (key z) k) (sorted_desc key l)
  = List.filter (fun z => Qeq_bool (key z) k) l.
Proof.
  induction l as [|a l IH]; [reflexivity|].
  simpl sorted_desc. rewrite insert_desc_filter. cbn [List.filter]. now rewrite IH.
Qed.

(** The first [n] of the sorted list are a choice of the largest, in
    descending order, entries with equal keys in the order of the list,
    and as many as there are, up to [n]. *)
Lemma top_largest n l :
  0 <= n ->
  let out := slice_to n (sorted_desc key l) in
  descending key out /\ largest_of key l out /\ in_list_order key l out /\
  length out = Nat.min (Z.to_nat n) (length l).
Proof.
  intros Hn out. unfold out, slice_to. destruct (Z.leb_spec 0 n); [|lia].
  pose proof (sorted_desc_sorted l) as Hs.
  split; [|split; [|split]].
  - apply sorted_descending. now apply CacheFacts.StronglySorted_firstn.
  - exists (skipn (Z.to_nat n) (sorted_desc key l)). split.
    + rewrite firstn_skipn. symmetry. apply sorted_desc_perm.
    + intros o x Ho Hx.
      exact (CacheFacts.StronglySorted_firstn_skipn ge_key _ _ o x Hs Ho Hx).
  - intros k.
    exists (List.filter (fun z => Qeq_bool (key z) k)
              (skipn (Z.to_nat n) (sorted_desc key l))).
    rewrite <- List.filter_app, firstn_skipn. symmetry. apply sorted_desc_stable.
  - rewrite length_firstn. now rewrite (Permutation_length (sorted_desc_perm l)).
Qed.

End by_key.

End RankingFacts.

(** ** [get_trending] of data-agent.py and [rank] of analyst.py *)

Module TrendingFacts.

Import Ranking RankingFacts Trending.

Lemma mapM_all {A B} (f : A -> option B) l k :
  mapM f l = Some k -> length k = length l /\ forall x, In x l -> is_Some (f x).
Proof.
  intros H. apply mapM_Some in H. split.
  - symmetry. eapply Forall2_length. exact H.
  - intros x Hx. apply list_elem_of_In, list_elem_of_lookup in Hx as [i Hi].
    destruct (Forall2_lookup_l _ _ _ _ _ H Hi) as (y & _ & Hy). eauto.
Qed.

(** X28.  When [get_trending] returns, it returns at most ten tokens of
    the list, in descending order of market cap, tokens of equal market
    cap in the order of the list, and no token left out has a larger
    market cap than one returned; there are ten of them, or all if the
    list is shorter, and every token of the list is an object whose
    market cap is a number.  It returns whenever the list is an array of
    such tokens. *)
Theorem trending_are_the_largest B tokens :
  (forall out, trending B tokens = Some out ->
     exists l, py_iter tokens = Some l /\
       (forall t, In t l -> is_Some (market_cap B t)) /\
       descending (cap B) out /\ largest_of (cap B) l out /\
       in_list_order (cap B) l out /\
       length out = Nat.min 10 (length l)) /\
  (forall l, tokens = JArr l -> (forall t, In t l -> is_Some (market_cap B t)) ->
     is_Some (trending B tokens)).
Proof.
  split.
  - intros out. unfold trending.
    destruct (py_iter tokens) as [l|]; [|discriminate]. cbn [mbind option_bind].
    destruct (mapM (market_cap B) l) as [caps|] eqn:E; [|discriminate].
    cbn [mbind option_bind]. intros [= <-].
    exists l. split; [reflexivity|].
    split; [exact (proj2 (mapM_all _ _ _ E))|].
    destruct (top_largest (cap B) 10 l ltac:(lia)) as (Hd & Hl & Ho & Hn).
    split; [exact Hd|]. split; [exact Hl|]. split; [exact Ho|exact Hn].
  - intros l -> Hall. unfold trending. cbn [py_iter mbind option_bind].
    destruct (mapM (market_cap B) l) as [caps|] eqn:E; [eauto|].
    exfalso. apply mapM_None in E. apply Exists_exists in E as (t & Ht & Hnone).
    apply list_elem_of_In in Ht. destruct (Hall t Ht) as [c Hc]. congruence.
Qed.

End TrendingFacts.

Module AnalystRankFacts.

Import Ranking RankingFacts Analyst AnalystRank.

(** X29.  The [rank] command lists the best scores: when it answers with
    a ranking for a number [n] of at least 0, the lines are scorings of
    tokens of the list, in descending order of total, equal totals in the
    order of the list, no scoring left out has a larger total than one
    listed, and there are [n] lines, or one for each token if those are
    fewer, which is the number in the heading.  An empty list is answered
    with "Could not fetch tokens". *)
Theorem rank_lists_the_best B clock n tokens :
  0 <= n ->
  (truthy tokens = false -> rank B clock n tokens = Some CouldNotFetchTokens) /\
  (forall shown lines, rank B clock n tokens = Some (Top shown lines) ->
     exists l scored,
       py_iter tokens = Some l /\
       Forall2 (fun it s => score B (clock it.1) it.2 = Some s) (imap pair l) scored /\
       descending total lines /\ largest_of total scored lines /\
       in_list_order total scored lines /\
       length lines = Nat.min (Z.to_nat n) (length l) /\
       shown = Z.of_nat (length lines)).
Proof.
  intros Hn. unfold rank. split.
  - now intros ->.
  - intros shown lines. destruct (truthy tokens); [|discriminate]. cbn [negb].
    destruct (py_iter tokens) as [l|]; [|discriminate]. cbn [mbind option_bind].
    destruct (mapM _ (imap pair l)) as [scored|] eqn:E; [|discriminate].
    cbn [mbind option_bind]. intros [= <- <-].
    apply mapM_Some in E.
    assert (Hlen : length scored = length l).
    { apply Forall2_length in E. rewrite length_imap in E. lia. }
    exists l, scored. split; [reflexivity|]. split; [exact E|].
    destruct (top_largest total n scored Hn) as (Hd & Hl & Ho & Hc).
    split; [exact Hd|]. split; [exact Hl|]. split; [exact Ho|]. rewrite Hc, Hlen.
    split; [reflexivity|]. lia.
Qed.

Lemma rank_lists_the_best_witness :
  let tokens := JArr [JObj Samples.scored_token; JObj [("name", JStr "Gamma")];
                      JObj Samples.renamed_token] in
  0 <= 2 /\
  exists shown lines,
    rank Samples.plain_builtins (fun _ => Samples.noon_jan_1) 2 tokens
    = Some (Top shown lines) /\
    map name lines = [JStr "Alpha"; JStr "Beta"] /\
    descending total lines.
Proof.
  intros tokens. split; [lia|].
  eexists _, _. split; [vm_compute; reflexivity|]. split; [reflexivity|].
  destruct (proj2 (rank_lists_the_best Samples.plain_builtins
                     (fun _ => Samples.noon_jan_1) 2 tokens ltac:(lia))
              _ _ ltac:(vm_compute; reflexivity))
    as (l & scored & _ & _ & Hd & _).
  exact Hd.
Defined.

End AnalystRankFacts.


(** ** The bars of the [score] command of analyst.py *)

Module AnalystReportFacts.

Import Analyst AnalystBands AnalystBandsFacts AnalystReport.

Lemma length_repeated c n : String.length (repeated c n) = n.
Proof. induction n as [|n IH]; simpl; [reflexivity|now rewrite IH]. Qed.

Lemma length_times c n : str_len (times c n) = Z.max 0 n.
Proof. unfold str_len, times. rewrite length_repeated. lia. Qed.

(** Every score of a scoring is between 0 and 100. *)
Lemma dimensions_in_range B now token r dim score :
  score_token B now token = Some r ->
  In (dim, score) (dimensions (scores r)) -> in_range score.
Proof.
  unfold score_token.
  destruct (py_int B _) as [h|];
    [|intros H; change (@None Scored = Some r) in H; discriminate H].
  destruct (py_float B (dict_get token "volume24h" _)) as [v|];
    [|intros H; change (@None Scored = Some r) in H; discriminate H].
  destruct (py_float B (dict_get token "liquidity" _)) as [l|];
    [|intros H; change (@None Scored = Some r) in H; discriminate H].
  destruct (py_float B (dict_get token "price" _)) as [p|];
    [|intros H; change (@None Scored = Some r) in H; discriminate H].
  cbn [mbind option_bind]. intros H. injection H as <-.
  cbn [scores dimensions s_holders s_volume s_liquidity s_price_stability s_age].
  intros [H|[H|[H|[H|[H|[]]]]]]; injection H as _ <-;
    try (apply round1_range, normalize_range).
  apply round1_range. destruct (Qle_bool p 0); split; apply Qle_bool_iff; reflexivity.
Qed.

Lemma bar_in_range score :
  in_range score ->
  exists k, 0 <= k <= 10 /\
    (inject_Z k * 10 <= score < (inject_Z k + 1) * 10)%Q /\
    bar score = times "#" k +:+ times "-" (10 - k) /\
    str_len (bar score) = 10.
Proof.
  intros [H0 H100]. unfold bar, py_trunc.
  assert (Hpos : Qle_bool 0 (score / 10) = true).
  { apply Qle_bool_iff. qlra. }
  rewrite Hpos.
  pose proof (Qfloor_le (score / 10)) as Hlo.
  pose proof (Qlt_floor (score / 10)) as Hhi.
  assert (Hk0 : 0 <= Qfloor (score / 10)).
  { assert (H : Qfloor 0 <= Qfloor (score / 10)) by (apply Qfloor_resp_le; qlra).
    exact H. }
  assert (Hk10 : Qfloor (score / 10) <= 10).
  { assert (H : Qfloor (score / 10) <= Qfloor 10) by (apply Qfloor_resp_le; qlra).
    exact H. }
  remember (Qfloor (score / 10)) as k eqn:Ek.
  exists k. split; [lia|]. rewrite inject_Z_plus in Hhi.
  split; [split; qlra|]. split; [reflexivity|].
  unfold str_len. rewrite TweetAgentFacts.length_append.
  pose proof (length_times "#" k) as H1. pose proof (length_times "-" (10 - k)) as H2.
  unfold str_len in H1, H2. lia.
Qed.

(** X30.  The bars of a score report are ten characters long: for every
    dimension of a scoring that [score_token] returns, the bar is [k]
    times "#" followed by [10 - k] times "-", where [k] is the number of
    full tens in the score, between 0 and 10. *)
Theorem score_bars_have_ten_characters B now token r dim score :
  score_token B now token = Some r ->
  In (dim, score) (dimensions (scores r)) ->
  exists k, 0 <= k <= 10 /\
    (inject_Z k * 10 <= score < (inject_Z k + 1) * 10)%Q /\
    bar score = times "#" k +:+ times "-" (10 - k) /\
    str_len (bar score) = 10.
Proof.
  intros Hr Hin. apply bar_in_range. eapply dimensions_in_range; eassumption.
Qed.

Lemma score_bars_have_ten_characters_witness :
  exists r,
    score_token Samples.plain_builtins Samples.noon_jan_1 Samples.scored_token = Some r /\
    In ("holders", s_holders (scores r)) (dimensions (scores r)) /\
    bar (s_holders (scores r)) = "##########" /\
    str_len (bar (s_holders (scores r))) = 10.
Proof.
  eexists. split; [reflexivity|].
  match goal with
  | |- In ?x ?l /\ _ => assert (Hin : In x l) by (left; reflexivity)
  end.
  split; [exact Hin|]. split; [vm_compute; reflexivity|].
  destruct (score_bars_have_ten_characters Samples.plain_builtins Samples.noon_jan_1
              Samples.scored_token _ _ _ eq_refl Hin) as (k & _ & _ & _ & Hlen).
  exact Hlen.
Defined.

End AnalystReportFacts.

(** ** The helpers on small inputs *)

Module Checks.

Example strip_both_ends : strip "  price of FET " = "price of FET".
Proof. reflexivity. Qed.

Example strip_blank : strip (String (ascii_of_nat 9) " ") = "".
Proof. reflexivity. Qed.

Example slice_to_negative : slice_to (-1) [1; 2; 3] = [1; 2].
Proof. reflexivity. Qed.

Example find_evm_leftmost :
  Gifter.find_evm "0x12 0x1234567890abcdef1234567890ABCDEF12345678ff"
  = Some "0x1234567890abcdef1234567890ABCDEF12345678".
Proof. reflexivity. Qed.

Example round1_ties_to_even :
  Qeq_bool (Analyst.round1 0.25) 0.2 = true /\
  Qeq_bool (Analyst.round1 0.75) 0.8 = true /\
  Qeq_bool (Analyst.round1 0.34) 0.3 = true.
Proof. repeat split; reflexivity. Qed.

Example normalize_clamps :
  Qred (Analyst.normalize 250 0 200) = 100%Q /\
  Qred (Analyst.normalize (-5) 0 200) = 0%Q /\
  Qred (Analyst.normalize 50 0 200) = 25%Q.
Proof. repeat split; reflexivity. Qed.

Example days_floor : Analyst.days (seconds 86399) = 0 /\ Analyst.days (-1) = -1.
Proof. split; reflexivity. Qed.

Example date_parses :
  Samples.date_fromisoformat "1970-01-02" = Some Analyst.DAY /\
  Samples.date_fromisoformat "2025-02-30" = None.
Proof. split; reflexivity. Qed.

Example sorted_is_stable :
  @Cache.sorted Z [("a", (1, 30)); ("b", (2, 10)); ("c", (3, 30)); ("d", (4, 10))]
  = [("b", (2, 10)); ("d", (4, 10)); ("a", (1, 30)); ("c", (3, 30))].
Proof. reflexivity. Qed.

End Checks.
